(** * Buzz_Matrix / GTMatrix: the block-update engine (GTMatrix_Update.c)

    A shallow embedding of the update half of GTMatrix, a dense matrix
    distributed over an MPI process grid, and the properties of its
    block router, single-destination updater and batch-update epoch.

    Conventions of the embedding.
    - A C [int] is a [Z] together with the range check of a 32-bit signed
      integer: an arithmetic result outside the range is undefined
      behaviour in C and is the outcome [Undefined] here.
    - An array is a list; reading outside of it is [Undefined].
    - A function of the C file is a computation over the matrix handle and
      the sequence of MPI calls issued so far. *)

From Stdlib Require Import ZArith Lia Bool List.
From stdpp Require Import base list list_numbers.
Import ListNotations.
Local Open Scope Z_scope.

(** ** C integers *)

Definition INT_MIN : Z := -2147483648.
Definition INT_MAX : Z := 2147483647.

Definition in_int (z : Z) : bool := (INT_MIN <=? z) && (z <=? INT_MAX).

(** ** MPI objects, as far as the update engine touches them *)

Inductive MPI_Op : Type := MPI_SUM | MPI_REPLACE.

Inductive MPI_Lock : Type := MPI_LOCK_SHARED | MPI_LOCK_EXCLUSIVE.

(** A datatype is either a handle that already exists in the matrix
    handle (the element type, or a cached small-block descriptor), or the
    result of [MPI_Type_vector]. *)
Inductive MPI_Datatype : Type :=
| Dt_handle (h : Z)
| Dt_vector (count blocklength stride : Z) (oldtype : MPI_Datatype).

Definition MPI_Win : Type := Z.

(** A pointer into the caller's source buffer, as a byte address. *)
Definition ptr : Type := Z.

Inductive MPI_Call : Type :=
| Win_lock (lock_type : MPI_Lock) (rank assertion : Z) (win : MPI_Win)
| Win_unlock (rank : Z) (win : MPI_Win)
| Type_vector (count blocklength stride : Z) (oldtype : MPI_Datatype)
| Type_commit (dt : MPI_Datatype)
| Type_free (dt : MPI_Datatype)
| Accumulate (origin_addr : ptr) (origin_count : Z) (origin_dt : MPI_Datatype)
             (target_rank target_disp target_count : Z)
             (target_dt : MPI_Datatype) (op : MPI_Op) (win : MPI_Win).

(** ** The request queue *)

(** Modelled from the spec: the entry type of the request vector
    (GTM_Req_Vector_t is declared in a header that is not among the
    sources).  The fields are the ones GTM_execBatchUpdate reads:
    [ops[i]], [row_starts[i]], [row_nums[i]], [col_starts[i]],
    [col_nums[i]], [src_bufs[i]], [src_buf_lds[i]]. *)
Record Req_Entry : Type := mkReq {
  req_op         : MPI_Op;
  req_row_start  : Z;
  req_row_num    : Z;
  req_col_start  : Z;
  req_col_num    : Z;
  req_src_buf    : ptr;
  req_src_buf_ld : Z
}.

(** Modelled from the spec: a request vector is the ordered sequence of its
    entries; [curr_size] is the number of entries.  The allocated capacity
    is not part of the model. *)
Abbreviation GTM_Req_Vector := (list Req_Entry).

Definition curr_size (v : GTM_Req_Vector) : Z := Z.of_nat (length v).

(** Modelled from the spec: GTM_resetReqVector truncates the queue to
    empty. *)
Definition GTM_resetReqVector (v : GTM_Req_Vector) : GTM_Req_Vector := [].

(** Modelled from the spec: GTM_pushToReqVector appends one entry at the
    end of the queue. *)
Definition GTM_pushToReqVector (v : GTM_Req_Vector) (op : MPI_Op)
    (row_start row_num col_start col_num : Z) (src_buf : ptr)
    (src_buf_ld : Z) : GTM_Req_Vector :=
  v ++ [mkReq op row_start row_num col_start col_num src_buf src_buf_ld].

(** ** The matrix handle *)

(** Modelled from the spec: the handle struct (GTMatrix.h is not among the
    sources), with the fields that GTMatrix_Update.c reads and writes.
    The two descriptor caches are arrays of datatype handles, [req_vec]
    holds one request vector per process. *)
Record GTMatrix : Type := mkGTMatrix {
  mpi_win           : MPI_Win;
  datatype          : MPI_Datatype;
  unit_size         : Z;
  my_rank           : Z;
  comm_size         : Z;
  nrows             : Z;
  ncols             : Z;
  r_blocks          : Z;
  c_blocks          : Z;
  r_displs          : list Z;
  c_displs          : list Z;
  ld_local          : Z;
  sb_stride         : list MPI_Datatype;
  sb_nostride       : list MPI_Datatype;
  is_batch_updating : Z;
  is_batch_getting  : Z;
  req_vec           : list GTM_Req_Vector
}.

Definition set_req_vec (g : GTMatrix) (q : list GTM_Req_Vector) : GTMatrix :=
  mkGTMatrix (mpi_win g) (datatype g) (unit_size g) (my_rank g)
    (comm_size g) (nrows g) (ncols g) (r_blocks g) (c_blocks g)
    (r_displs g) (c_displs g) (ld_local g) (sb_stride g) (sb_nostride g)
    (is_batch_updating g) (is_batch_getting g) q.

Definition set_is_batch_updating (g : GTMatrix) (b : Z) : GTMatrix :=
  mkGTMatrix (mpi_win g) (datatype g) (unit_size g) (my_rank g)
    (comm_size g) (nrows g) (ncols g) (r_blocks g) (c_blocks g)
    (r_displs g) (c_displs g) (ld_local g) (sb_stride g) (sb_nostride g)
    b (is_batch_getting g) (req_vec g).

(** ** Computations *)

Inductive outcome (A : Type) : Type :=
| Returns (a : A)
| AssertFailed
| Undefined.
Arguments Returns {A} a.
Arguments AssertFailed {A}.
Arguments Undefined {A}.

(** The state a call runs in: the handle [gt_mat] points to, and the MPI
    calls issued so far, oldest first. *)
Record world : Type := mkWorld {
  gt_mat : GTMatrix;
  issued : list MPI_Call
}.

Definition M (A : Type) : Type := world -> outcome (A * world).

Definition ret {A} (a : A) : M A := fun w => Returns (a, w).

Definition bind {A B} (m : M A) (k : A -> M B) : M B :=
  fun w => match m w with
           | Returns (a, w') => k a w'
           | AssertFailed => AssertFailed
           | Undefined => Undefined
           end.

Notation "'let*' x ':=' m 'in' k" := (bind m (fun x => k))
  (at level 10, x name, m at level 100, k at level 200).
Notation "m ';;' k" := (bind m (fun _ => k))
  (at level 100, k at level 200, right associativity).

Definition undefined {A} : M A := fun _ => Undefined.
Definition assert_failed {A} : M A := fun _ => AssertFailed.

Definition get_mat : M GTMatrix := fun w => Returns (gt_mat w, w).
Definition put_mat (g : GTMatrix) : M unit :=
  fun w => Returns (tt, mkWorld g (issued w)).
Definition mpi (c : MPI_Call) : M unit :=
  fun w => Returns (tt, mkWorld (gt_mat w) (issued w ++ [c])).

(** Signed arithmetic on [int]. *)
Definition int_of (z : Z) : M Z := if in_int z then ret z else undefined.
Definition iadd (a b : Z) : M Z := int_of (a + b).
Definition isub (a b : Z) : M Z := int_of (a - b).
Definition imul (a b : Z) : M Z := int_of (a * b).
Definition idiv (a b : Z) : M Z :=
  if b =? 0 then undefined else int_of (Z.quot a b).
Definition imod (a b : Z) : M Z :=
  if b =? 0 then undefined
  else if in_int (Z.quot a b) then ret (Z.rem a b) else undefined.

(** [a[i]] for an array held as a list. *)
Definition index {A} (a : list A) (i : Z) : M A :=
  if i <? 0 then undefined
  else match a !! Z.to_nat i with
       | Some x => ret x
       | None => undefined
       end.

(** A local variable that is declared without a value. *)
Definition read_var {A} (v : option A) : M A :=
  match v with Some x => ret x | None => undefined end.

(** [for (i = lo; ...; i++) acc = body(i, acc)], for [n] rounds. *)
Fixpoint for_loop {A} (n : nat) (i : Z) (acc : A) (body : Z -> A -> M A)
  : M A :=
  match n with
  | O => ret acc
  | S n' =>
      let* acc' := body i acc in
      let* i' := iadd i 1 in
      for_loop n' i' acc' body
  end.

(** ** Helpers of utils.h *)

(** Modelled from the spec: getRectIntersection (utils.h is not among the
    sources) computes the exact intersection of two rectangles given by
    inclusive first and last rows and columns.  [None] stands for
    [*intersected = 0], [Some] for [*intersected = 1] together with the
    four corners written through the output pointers. *)
Definition getRectIntersection (xs0 xe0 ys0 ye0 xs1 xe1 ys1 ye1 : Z)
  : option (Z * Z * Z * Z) :=
  let ixs := Z.max xs0 xs1 in
  let ixe := Z.min xe0 xe1 in
  let iys := Z.max ys0 ys1 in
  let iye := Z.min ye0 ye1 in
  if (ixs <=? ixe) && (iys <=? iye) then Some (ixs, ixe, iys, iye) else None.

Section GTMatrix_Update.

(** Constants of GTMatrix_Typedef.h, which is not among the sources: the
    cached-shape ceiling and the two access modes. *)
Variable MPI_DT_SB_DIM_MAX : Z.
Variable BLOCKING_ACCESS : Z.
Variable BATCH_ACCESS : Z.

(** ** GTM_updateBlockToProcess *)

Definition GTM_updateBlockToProcess (dst_rank : Z) (op : MPI_Op)
    (row_start row_num col_start col_num : Z)
    (src_buf : ptr) (src_buf_ld : Z) : M unit :=
  let* g := get_mat in
  let* row_end := iadd row_start row_num in
  let* col_end := iadd col_start col_num in
  let* dst_rowblk := idiv dst_rank (c_blocks g) in
  let* dst_colblk := imod dst_rank (c_blocks g) in
  let dst_blk_ld := ld_local g in
  let* dst_row_start := index (r_displs g) dst_rowblk in
  let* dst_col_start := index (c_displs g) dst_colblk in
  let* dst_rowblk1 := iadd dst_rowblk 1 in
  let* dst_row_end := index (r_displs g) dst_rowblk1 in
  let* dst_colblk1 := iadd dst_colblk 1 in
  let* dst_col_end := index (c_displs g) dst_colblk1 in
  (* Sanity check *)
  if (row_start <? dst_row_start) || (col_start <? dst_col_start)
     || (row_end >? dst_row_end) || (col_end >? dst_col_end)
  then ret tt else
  let* area := imul row_num col_num in
  if area =? 0 then ret tt else
  let src_ptr := src_buf in
  let* row_bytes := imul col_num (unit_size g) in
  let* row_off := isub row_start dst_row_start in
  let* dst_pos0 := imul row_off dst_blk_ld in
  let* col_off := isub col_start dst_col_start in
  let* dst_pos := iadd dst_pos0 col_off in
  let* src_ptr_ld := imul src_buf_ld (unit_size g) in
  if (row_num <=? MPI_DT_SB_DIM_MAX) && (col_num <=? MPI_DT_SB_DIM_MAX) then
    let* row_num1 := isub row_num 1 in
    let* id0 := imul row_num1 MPI_DT_SB_DIM_MAX in
    let* col_num1 := isub col_num 1 in
    let* block_dt_id := iadd id0 col_num1 in
    let* dst_dt := index (sb_stride g) block_dt_id in
    if col_num =? src_buf_ld then
      let* rcv_dt_ns := index (sb_nostride g) block_dt_id in
      mpi (Accumulate src_ptr 1 rcv_dt_ns dst_rank dst_pos 1 dst_dt op
             (mpi_win g))
    else if ld_local g =? src_buf_ld then
      mpi (Accumulate src_ptr 1 dst_dt dst_rank dst_pos 1 dst_dt op
             (mpi_win g))
    else
      let rcv_dt := Dt_vector row_num col_num src_buf_ld (datatype g) in
      mpi (Type_vector row_num col_num src_buf_ld (datatype g));;
      mpi (Type_commit rcv_dt);;
      mpi (Accumulate src_ptr 1 rcv_dt dst_rank dst_pos 1 dst_dt op
             (mpi_win g));;
      mpi (Type_free rcv_dt)
  else
    let dst_dt := Dt_vector row_num col_num dst_blk_ld (datatype g) in
    let rcv_dt := Dt_vector row_num col_num src_buf_ld (datatype g) in
    mpi (Type_vector row_num col_num dst_blk_ld (datatype g));;
    mpi (Type_vector row_num col_num src_buf_ld (datatype g));;
    mpi (Type_commit dst_dt);;
    mpi (Type_commit rcv_dt);;
    mpi (Accumulate src_ptr 1 rcv_dt dst_rank dst_pos 1 dst_dt op
           (mpi_win g));;
    mpi (Type_free dst_dt);;
    mpi (Type_free rcv_dt).

(** ** GTM_updateBlock *)

(** [(displs[i] <= x) && (x < displs[i+1])]; the second table entry is
    read only when the first comparison holds. *)
Definition in_block (displs : list Z) (i x : Z) : M bool :=
  let* lo := index displs i in
  if lo <=? x then
    let* i1 := iadd i 1 in
    let* hi := index displs i1 in
    ret (x <? hi)
  else ret false.

(** One of the two search loops of GTM_updateBlock: the variables
    [s_blk] and [e_blk] start without a value and each receives every
    index [i] whose block holds [first], respectively [last]. *)
Definition find_blocks (blocks : Z) (displs : list Z) (first last : Z)
  : M (option Z * option Z) :=
  for_loop (Z.to_nat blocks) 0 (None, None) (fun i se =>
    let* b1 := in_block displs i first in
    let s_blk := if b1 then Some i else fst se in
    let* b2 := in_block displs i last in
    let e_blk := if b2 then Some i else snd se in
    ret (s_blk, e_blk)).

Definition GTM_updateBlock (op : MPI_Op)
    (row_start row_num col_start col_num : Z)
    (src_buf : ptr) (src_buf_ld : Z) (access_mode : Z) : M unit :=
  let* g := get_mat in
  (* Sanity check *)
  if (row_start <? 0) || (col_start <? 0) then ret tt else
  let* row_lim := iadd row_start row_num in
  if row_lim >? nrows g then ret tt else
  let* col_lim := iadd col_start col_num in
  if col_lim >? ncols g then ret tt else
  let* area := imul row_num col_num in
  if area =? 0 then ret tt else
  (* Find the processes that contain the requested block *)
  let* row_end := isub row_lim 1 in
  let* col_end := isub col_lim 1 in
  let* found_r := find_blocks (r_blocks g) (r_displs g) row_start row_end in
  let* found_c := find_blocks (c_blocks g) (c_displs g) col_start col_end in
  (* Update data to each process *)
  let* s_blk_r := read_var (fst found_r) in
  let* e_blk_r := read_var (snd found_r) in
  for_loop (Z.to_nat (e_blk_r - s_blk_r + 1)) s_blk_r tt (fun blk_r _ =>
    let* g := get_mat in
    let* dst_r_s := index (r_displs g) blk_r in
    let* blk_r1 := iadd blk_r 1 in
    let* dst_r_lim := index (r_displs g) blk_r1 in
    let* dst_r_e := isub dst_r_lim 1 in
    let* s_blk_c := read_var (fst found_c) in
    let* e_blk_c := read_var (snd found_c) in
    for_loop (Z.to_nat (e_blk_c - s_blk_c + 1)) s_blk_c tt (fun blk_c _ =>
      let* g := get_mat in
      let* dst_c_s := index (c_displs g) blk_c in
      let* blk_c1 := iadd blk_c 1 in
      let* dst_c_lim := index (c_displs g) blk_c1 in
      let* dst_c_e := isub dst_c_lim 1 in
      let* rank0 := imul blk_r (c_blocks g) in
      let* dst_rank := iadd rank0 blk_c in
      match getRectIntersection dst_r_s dst_r_e dst_c_s dst_c_e
                                row_start row_end col_start col_end with
      | None => assert_failed
      | Some (blk_r_s, blk_r_e, blk_c_s, blk_c_e) =>
          let* r_len := isub blk_r_e blk_r_s in
          let* blk_r_num := iadd r_len 1 in
          let* c_len := isub blk_c_e blk_c_s in
          let* blk_c_num := iadd c_len 1 in
          let* row_dist := isub blk_r_s row_start in
          let* col_dist := isub blk_c_s col_start in
          let* off0 := imul row_dist src_buf_ld in
          let* off1 := iadd off0 col_dist in
          let* off := imul off1 (unit_size g) in
          let blk_ptr := src_buf + off in
          (if access_mode =? BLOCKING_ACCESS then
             mpi (Win_lock MPI_LOCK_SHARED dst_rank 0 (mpi_win g));;
             GTM_updateBlockToProcess dst_rank op blk_r_s blk_r_num
               blk_c_s blk_c_num blk_ptr src_buf_ld;;
             mpi (Win_unlock dst_rank (mpi_win g))
           else ret tt);;
          (if access_mode =? BATCH_ACCESS then
             let* g := get_mat in
             let* req_vec_d := index (req_vec g) dst_rank in
             put_mat (set_req_vec g
               (<[Z.to_nat dst_rank :=
                    GTM_pushToReqVector req_vec_d op blk_r_s blk_r_num
                      blk_c_s blk_c_num blk_ptr src_buf_ld]> (req_vec g)))
           else ret tt)
      end)).

(** The four public entry points. *)
Definition GTM_putBlock rs rn cs cn buf ld : M unit :=
  GTM_updateBlock MPI_REPLACE rs rn cs cn buf ld BLOCKING_ACCESS.
Definition GTM_accumulateBlock rs rn cs cn buf ld : M unit :=
  GTM_updateBlock MPI_SUM rs rn cs cn buf ld BLOCKING_ACCESS.
Definition GTM_addPutBlockRequest rs rn cs cn buf ld : M unit :=
  GTM_updateBlock MPI_REPLACE rs rn cs cn buf ld BATCH_ACCESS.
Definition GTM_addAccumulateBlockRequest rs rn cs cn buf ld : M unit :=
  GTM_updateBlock MPI_SUM rs rn cs cn buf ld BATCH_ACCESS.

(** ** The batch-update epoch *)

(** [GTM_resetReqVector(gt_mat->req_vec[i])]: the vector object that the
    handle's array holds at [i] is reset in place. *)
Definition reset_req_vec_at (i : Z) : M unit :=
  let* g := get_mat in
  let* v := index (req_vec g) i in
  put_mat (set_req_vec g (<[Z.to_nat i := GTM_resetReqVector v]> (req_vec g))).

Definition GTM_startBatchUpdate : M unit :=
  let* g := get_mat in
  if negb (is_batch_getting g =? 0) then ret tt else
  for_loop (Z.to_nat (comm_size g)) 0 tt (fun i _ => reset_req_vec_at i);;
  let* g := get_mat in
  put_mat (set_is_batch_updating g 1).

Definition GTM_execBatchUpdate : M unit :=
  let* g := get_mat in
  if is_batch_updating g =? 0 then ret tt else
  let* lim := iadd (comm_size g) (my_rank g) in
  for_loop (Z.to_nat (lim - my_rank g)) (my_rank g) tt (fun _dst_rank _ =>
    let* g := get_mat in
    let* dst_rank := imod _dst_rank (comm_size g) in
    let* req_vec_d := index (req_vec g) dst_rank in
    (if curr_size req_vec_d >? 0 then
       mpi (Win_lock MPI_LOCK_SHARED dst_rank 0 (mpi_win g));;
       for_loop (Z.to_nat (curr_size req_vec_d)) 0 tt (fun i _ =>
         let* e := index req_vec_d i in
         GTM_updateBlockToProcess dst_rank (req_op e)
           (req_row_start e) (req_row_num e)
           (req_col_start e) (req_col_num e)
           (req_src_buf e) (req_src_buf_ld e));;
       mpi (Win_unlock dst_rank (mpi_win g))
     else ret tt);;
    reset_req_vec_at dst_rank).

Definition GTM_stopBatchUpdate : M unit :=
  let* g := get_mat in
  if is_batch_updating g =? 0 then ret tt else
  put_mat (set_is_batch_updating g 0).

(** ** Invariants of the handle and preconditions of the calls

    GTM_createGTMatrix is not among the sources; what it establishes is
    taken from the data model: both displacement tables are strictly
    increasing, start at 0 and end at the matrix dimension, and there is
    one request vector per process of the grid.  The preconditions are
    boolean so that they can be evaluated on a concrete handle. *)

Definition displ (displs : list Z) (i : Z) : Z := nth (Z.to_nat i) displs 0.

Fixpoint increasing (l : list Z) : bool :=
  match l with
  | x :: (y :: _) as t => (x <? y) && increasing t
  | _ => true
  end.

Definition table_ok (blocks : Z) (displs : list Z) (dim : Z) : bool :=
  (0 <=? blocks) && (Z.of_nat (length displs) =? blocks + 1)
  && (displ displs 0 =? 0) && (displ displs blocks =? dim)
  && increasing displs && in_int dim.

Definition partition_ok (g : GTMatrix) : bool :=
  table_ok (r_blocks g) (r_displs g) (nrows g)
  && table_ok (c_blocks g) (c_displs g) (ncols g).

(** The grid has one process per block. *)
Definition grid_ok (g : GTMatrix) : bool :=
  (comm_size g =? r_blocks g * c_blocks g) && in_int (comm_size g).

(** One request vector per process, each with an [int] size. *)
Definition queues_ok (g : GTMatrix) : bool :=
  (Z.of_nat (length (req_vec g)) =? comm_size g) && in_int (comm_size g)
  && forallb (fun v => in_int (curr_size v)) (req_vec g).

(** The caller is a process of the group. *)
Definition self_ok (g : GTMatrix) : bool :=
  (0 <=? my_rank g) && (my_rank g <? comm_size g)
  && in_int (comm_size g + my_rank g).

(** The region of a process: rows [region_row_start, region_row_end) and
    columns [region_col_start, region_col_end). *)
Definition region_row_start (g : GTMatrix) (rank : Z) : Z :=
  displ (r_displs g) (Z.quot rank (c_blocks g)).
Definition region_row_end (g : GTMatrix) (rank : Z) : Z :=
  displ (r_displs g) (Z.quot rank (c_blocks g) + 1).
Definition region_col_start (g : GTMatrix) (rank : Z) : Z :=
  displ (c_displs g) (Z.rem rank (c_blocks g)).
Definition region_col_end (g : GTMatrix) (rank : Z) : Z :=
  displ (c_displs g) (Z.rem rank (c_blocks g) + 1).

Definition is_accumulate (c : MPI_Call) : bool :=
  match c with Accumulate _ _ _ _ _ _ _ _ _ => true | _ => false end.

(** The (target rank, target displacement) of every remote write among
    the calls. *)
Definition remote_writes (calls : list MPI_Call) : list (Z * Z) :=
  flat_map (fun c => match c with
                     | Accumulate _ _ _ rank disp _ _ _ _ => [(rank, disp)]
                     | _ => []
                     end) calls.

(** [dst_rank] names a process of the grid, and the tables have one
    entry per block boundary. *)
Definition owner_ok (g : GTMatrix) (dst_rank : Z) : bool :=
  (0 <=? dst_rank) && (dst_rank <? r_blocks g * c_blocks g)
  && (0 <? c_blocks g) && in_int (r_blocks g) && in_int (c_blocks g)
  && in_int dst_rank
  && (Z.of_nat (length (r_displs g)) =? r_blocks g + 1)
  && (Z.of_nat (length (c_displs g)) =? c_blocks g + 1).

(** The block has positive extent and lies in the region of [dst_rank]. *)
Definition inside_region (g : GTMatrix) (dst_rank : Z)
    (row_start row_num col_start col_num : Z) : bool :=
  (0 <? row_num) && (0 <? col_num)
  && (region_row_start g dst_rank <=? row_start)
  && (region_col_start g dst_rank <=? col_start)
  && (row_start + row_num <=? region_row_end g dst_rank)
  && (col_start + col_num <=? region_col_end g dst_rank).

(** Every [int] expression that GTM_updateBlockToProcess evaluates on a
    block that passes its sanity check has a representable value. *)
Definition update_arith_ok (g : GTMatrix) (dst_rank : Z)
    (row_start row_num col_start col_num src_buf_ld : Z) : bool :=
  in_int (row_start + row_num) && in_int (col_start + col_num)
  && in_int (row_num * col_num) && in_int (col_num * unit_size g)
  && in_int (row_start - region_row_start g dst_rank)
  && in_int ((row_start - region_row_start g dst_rank) * ld_local g)
  && in_int (col_start - region_col_start g dst_rank)
  && in_int ((row_start - region_row_start g dst_rank) * ld_local g
             + (col_start - region_col_start g dst_rank))
  && in_int (src_buf_ld * unit_size g).

(** The two descriptor caches hold one entry per shape up to the
    ceiling [dim_max]. *)
Definition cache_ok (dim_max : Z) (g : GTMatrix) : bool :=
  (0 <? dim_max) && in_int (dim_max * dim_max)
  && (Z.of_nat (length (sb_stride g)) =? dim_max * dim_max)
  && (Z.of_nat (length (sb_nostride g)) =? dim_max * dim_max).

(** The value of the guard of GTM_updateBlock, when no operand of it
    overflows. *)
Definition outside_or_empty (g : GTMatrix)
    (row_start row_num col_start col_num : Z) : bool :=
  (row_start <? 0) || (col_start <? 0)
  || (row_start + row_num >? nrows g) || (col_start + col_num >? ncols g)
  || (row_num * col_num =? 0).



(** The rectangle has positive extent and lies in the matrix. *)
Definition in_bounds (g : GTMatrix) (row_start row_num col_start col_num : Z)
  : bool :=
  (0 <=? row_start) && (0 <=? col_start) && (0 <? row_num) && (0 <? col_num)
  && (row_start + row_num <=? nrows g) && (col_start + col_num <=? ncols g).

(** The [int] expressions that GTM_updateBlock evaluates on an in-bounds
    rectangle beyond table look-ups are representable: the area, and the
    offset of every cell of the rectangle in the source buffer. *)
Definition route_arith_ok (g : GTMatrix) (row_num col_num src_buf_ld : Z)
  : bool :=
  in_int (row_num * col_num)
  && (0 <=? src_buf_ld) && (0 <=? unit_size g)
  && in_int ((row_num - 1) * src_buf_ld + (col_num - 1))
  && in_int (((row_num - 1) * src_buf_ld + (col_num - 1)) * unit_size g).

(** The further [int] expressions that immediate mode evaluates, inside
    GTM_updateBlockToProcess, are representable: offsets in a local block
    and the byte lengths of a row and of the source leading dimension. *)
Definition immediate_arith_ok (g : GTMatrix) (src_buf_ld : Z) : bool :=
  (0 <=? ld_local g) && in_int (nrows g * ld_local g + ncols g)
  && in_int (ncols g * unit_size g) && in_int (src_buf_ld * unit_size g).

(** The part of the rectangle that falls in block [(blk_r, blk_c)], as
    the request entry that carries it. *)
Definition sub_block (g : GTMatrix) (op : MPI_Op)
    (row_start row_num col_start col_num : Z) (src_buf : ptr)
    (src_buf_ld : Z) (blk_r blk_c : Z) : Req_Entry :=
  let r0 := Z.max (displ (r_displs g) blk_r) row_start in
  let r1 := Z.min (displ (r_displs g) (blk_r + 1) - 1)
                  (row_start + row_num - 1) in
  let c0 := Z.max (displ (c_displs g) blk_c) col_start in
  let c1 := Z.min (displ (c_displs g) (blk_c + 1) - 1)
                  (col_start + col_num - 1) in
  mkReq op r0 (r1 - r0 + 1) c0 (c1 - c0 + 1)
    (src_buf
     + ((r0 - row_start) * src_buf_ld + (c0 - col_start)) * unit_size g)
    src_buf_ld.

(** The cell [(i, j)] belongs to the block an entry carries. *)
Definition covers (e : Req_Entry) (i j : Z) : Prop :=
  req_row_start e <= i < req_row_start e + req_row_num e /\
  req_col_start e <= j < req_col_start e + req_col_num e.

(** The ranks from the caller's own to the last, then from 0 up to the
    caller's own, excluded. *)
Definition visit_order (g : GTMatrix) : list Z :=
  map Z.of_nat
    (seq (Z.to_nat (my_rank g)) (Z.to_nat (comm_size g) - Z.to_nat (my_rank g))
     ++ seq 0 (Z.to_nat (my_rank g))).

(** The displacement of a cell inside the local block of [dst_rank]. *)
Definition local_offset (g : GTMatrix) (dst_rank row_start col_start : Z) : Z :=
  (row_start - region_row_start g dst_rank) * ld_local g
  + (col_start - region_col_start g dst_rank).

(** ** The matrix of test_Symmetrize.c *)

(** A 10 x 10 matrix of doubles on a 4 x 4 process grid, as
    test_Symmetrize.c creates it; the local leading dimension is the
    widest column block, the descriptor caches hold 16 x 16 shapes. *)
Definition test_mat (rank : Z) (q : list GTM_Req_Vector) (upd get : Z)
  : GTMatrix :=
  mkGTMatrix 0 (Dt_handle 0) 8 rank 16 10 10 4 4
    [0; 1; 4; 6; 10] [0; 2; 5; 7; 10] 3
    (map (fun i => Dt_handle (1 + Z.of_nat i)) (seq 0 256))
    (map (fun i => Dt_handle (257 + Z.of_nat i)) (seq 0 256))
    upd get q.

Definition no_requests (n : nat) : list GTM_Req_Vector := replicate n [].

(** The request vectors after rows 0-1, columns 1-3 of a buffer at address
    1000 with leading dimension 10 were queued for accumulation: ranks 0,
    1, 4 and 5 hold one entry each. *)
Definition sample_requests : list GTM_Req_Vector :=
  [ [mkReq MPI_SUM 0 1 1 1 1000 10]; [mkReq MPI_SUM 0 1 2 2 1008 10]; []; [];
    [mkReq MPI_SUM 1 1 1 1 1080 10]; [mkReq MPI_SUM 1 1 2 2 1088 10] ]
  ++ replicate 10 [].

(** The handle of rank 5 with those requests queued and the batch-update
    epoch open. *)
Definition open_mat : GTMatrix := test_mat 5 sample_requests 1 0.

(** The handle of rank 5 with nothing queued and no epoch open. *)
Definition idle_mat : GTMatrix := test_mat 5 (no_requests 16) 0 0.


(** ** What a drain is expected to issue *)

(** Replaying one queued entry towards [dst_rank]: the call that
    GTM_execBatchUpdate makes for it. *)
Definition replay (dst_rank : Z) (e : Req_Entry) : M unit :=
  GTM_updateBlockToProcess dst_rank (req_op e)
    (req_row_start e) (req_row_num e) (req_col_start e) (req_col_num e)
    (req_src_buf e) (req_src_buf_ld e).

Definition replay_calls (g : GTMatrix) (dst_rank : Z) (e : Req_Entry)
  : list MPI_Call :=
  match replay dst_rank e (mkWorld g []) with
  | Returns (_, w) => issued w
  | _ => []
  end.

Definition replay_defined (g : GTMatrix) (dst_rank : Z) (e : Req_Entry)
  : bool :=
  match replay dst_rank e (mkWorld g []) with
  | Returns _ => true
  | _ => false
  end.

(** Every entry of the vectors [qs], which belong to the ranks
    [dst_rank], [dst_rank + 1], ..., can be replayed. *)
Fixpoint replays_defined (g : GTMatrix) (dst_rank : Z)
    (qs : list GTM_Req_Vector) : bool :=
  match qs with
  | [] => true
  | q :: qs' =>
      forallb (replay_defined g dst_rank) q
      && replays_defined g (dst_rank + 1) qs'
  end.

(** One destination's share of a drain: nothing for an empty vector,
    else its entries in order inside one lock/unlock pair. *)
Definition drain_calls (g : GTMatrix) (dst_rank : Z) : list MPI_Call :=
  match req_vec g !! Z.to_nat dst_rank with
  | Some (e :: q) =>
      [Win_lock MPI_LOCK_SHARED dst_rank 0 (mpi_win g)]
      ++ flat_map (replay_calls g dst_rank) (e :: q)
      ++ [Win_unlock dst_rank (mpi_win g)]
  | _ => []
  end.

(** ** Auxiliary notions of the proofs *)

(** A computation that reads the handle at most and issues calls. *)
Definition emits {A} (m : M A) : Prop :=
  exists r : option (A * list MPI_Call),
    forall w, m w = match r with
                    | Some (a, calls) =>
                        Returns (a, mkWorld (gt_mat w) (issued w ++ calls))
                    | None => Undefined
                    end.

(** From a handle that satisfies [H], the computation [m] never fails an
    assertion, and when it returns the value [a] the handle satisfies
    [Q a]. *)
Definition no_assert {A} (H : GTMatrix -> Prop) (m : M A)
    (Q : A -> GTMatrix -> Prop) : Prop :=
  forall w, H (gt_mat w) ->
            match m w with
            | Returns (a, w') => Q a (gt_mat w')
            | AssertFailed => False
            | Undefined => True
            end.

(** The handle is [g] up to the contents of its request vectors. *)
Definition same_matrix (g g' : GTMatrix) : Prop :=
  exists q, g' = set_req_vec g q.

(** The ranks the drain loop computes in its first [k] rounds. *)
Definition visited (g : GTMatrix) (k : nat) : list Z :=
  map (fun i => Z.rem (my_rank g + Z.of_nat i) (comm_size g)) (seq 0 k).

(** The request vectors after those of the ranks [ds] were reset. *)
Definition cleared (ds : list Z) (q : list GTM_Req_Vector)
  : list GTM_Req_Vector :=
  fold_left (fun q d => <[Z.to_nat d := []]> q) ds q.

(** When the router is about to handle block [(r, k)] of the blocks
    [s_r ..] x [s_c .. e_c], has it handled block [(r', c')]? *)
Definition routed_before (s_r s_c e_c r k r' c' : Z) : bool :=
  (s_c <=? c') && (c' <=? e_c) && (s_r <=? r')
  && ((r' <? r) || ((r' =? r) && (c' <? k))).

(** The request vectors [q] at that point of a routing in batch mode. *)
Definition routed_state (g : GTMatrix) (op : MPI_Op) (rs rn cs cn : Z)
    (buf : ptr) (ld : Z) (s_r s_c e_c r k : Z) (q : list GTM_Req_Vector)
  : Prop :=
  length q = length (req_vec g) /\
  forall r' c', 0 <= r' < r_blocks g -> 0 <= c' < c_blocks g ->
    q !! Z.to_nat (r' * c_blocks g + c')
    = (fun v => v ++ if routed_before s_r s_c e_c r k r' c'
                     then [sub_block g op rs rn cs cn buf ld r' c']
                     else [])
      <$> req_vec g !! Z.to_nat (r' * c_blocks g + c').

(** What a routing over the blocks [s_r .. e_r] x [s_c .. e_c] appends
    to the request vector of rank [d]. *)
Definition routed_to (g : GTMatrix) (op : MPI_Op) (rs rn cs cn : Z)
    (buf : ptr) (ld : Z) (s_r e_r s_c e_c d : Z) : list Req_Entry :=
  let r := d / c_blocks g in
  let c := d mod c_blocks g in
  if (s_r <=? r) && (r <=? e_r) && (s_c <=? c) && (c <=? e_c)
  then [sub_block g op rs rn cs cn buf ld r c]
  else [].

(** The (rank, sub-block) pair of block [(r, c)]. *)
Definition block_pair (g : GTMatrix) (op : MPI_Op) (rs rn cs cn : Z)
    (buf : ptr) (ld : Z) (r c : Z) : Z * Req_Entry :=
  (r * c_blocks g + c, sub_block g op rs rn cs cn buf ld r c).

(** The pairs of the blocks the router has handled when it is about to
    handle block [(r, k)], in the order it handled them. *)
Definition processed_pairs (g : GTMatrix) (op : MPI_Op) (rs rn cs cn : Z)
    (buf : ptr) (ld : Z) (s_r s_c e_c r k : Z) : list (Z * Req_Entry) :=
  (seqZ s_r (r - s_r) ≫= fun r' =>
     block_pair g op rs rn cs cn buf ld r' <$> seqZ s_c (e_c - s_c + 1))
  ++ (block_pair g op rs rn cs cn buf ld r <$> seqZ s_c (k - s_c)).

(** The pairs of a whole routing over the blocks [s_r .. e_r] x
    [s_c .. e_c], row by row. *)
Definition routed_pairs (g : GTMatrix) (op : MPI_Op) (rs rn cs cn : Z)
    (buf : ptr) (ld : Z) (s_r e_r s_c e_c : Z) : list (Z * Req_Entry) :=
  seqZ s_r (e_r - s_r + 1) ≫= fun r =>
    block_pair g op rs rn cs cn buf ld r <$> seqZ s_c (e_c - s_c + 1).

(** What immediate mode issues for one pair: the calls of
    GTM_updateBlockToProcess inside a lock/unlock pair on the rank. *)
Definition pair_calls (g : GTMatrix) (p : Z * Req_Entry) : list MPI_Call :=
  [Win_lock MPI_LOCK_SHARED p.1 0 (mpi_win g)]
  ++ replay_calls g p.1 p.2
  ++ [Win_unlock p.1 (mpi_win g)].

(** ** Notions of the further properties *)

(** A computation that neither changes the world nor fails an
    assertion. *)
Definition reads_only {A} (m : M A) : Prop :=
  forall w, m w = Undefined \/ exists a, m w = Returns (a, w).

(** If the outcome is a return, the world it returns in is related by
    [R] to the world [w]. *)
Definition kept {A} (R : world -> world -> Prop) (w : world)
    (o : outcome (A * world)) : Prop :=
  match o with
  | Returns (_, w') => R w w'
  | _ => True
  end.

(** Every world the computation returns in is related by [R] to the one
    it started in. *)
Definition keeps {A} (R : world -> world -> Prop) (m : M A) : Prop :=
  forall w, kept R w (m w).

(** The handle is the same. *)
Definition same_handle (w w' : world) : Prop := gt_mat w' = gt_mat w.

(** The handle [g'] is [g] with request vectors that still start with
    the entries they held in [g], in the same order. *)
Definition queues_extended (g g' : GTMatrix) : Prop :=
  exists q,
    g' = set_req_vec g q /\ length q = length (req_vec g) /\
    forall (i : nat) old,
      req_vec g !! i = Some old -> exists new, q !! i = Some (old ++ new).

(** No call was issued, and the request vectors were extended at most. *)
Definition only_queued (w w' : world) : Prop :=
  issued w' = issued w /\ queues_extended (gt_mat w) (gt_mat w').

Definition is_lock_call (c : MPI_Call) : bool :=
  match c with
  | Win_lock _ _ _ _ | Win_unlock _ _ => true
  | _ => false
  end.

(** The datatypes that the calls build, commit and free, in call
    order. *)
Definition built (calls : list MPI_Call) : list MPI_Datatype :=
  flat_map (fun c => match c with
                     | Type_vector n b s elt => [Dt_vector n b s elt]
                     | _ => []
                     end) calls.
Definition committed (calls : list MPI_Call) : list MPI_Datatype :=
  flat_map (fun c => match c with Type_commit dt => [dt] | _ => [] end) calls.
Definition freed (calls : list MPI_Call) : list MPI_Datatype :=
  flat_map (fun c => match c with Type_free dt => [dt] | _ => [] end) calls.

(** What one update towards [dst_rank] may issue: no lock or unlock, at
    most one accumulate, which carries the caller's source pointer and
    operation to [dst_rank], and every datatype built is committed and
    freed. *)
Definition update_calls (g : GTMatrix) (dst_rank : Z) (op : MPI_Op)
    (src_buf : ptr) (calls : list MPI_Call) : Prop :=
  filter is_lock_call calls = [] /\
  (filter is_accumulate calls = [] \/
   exists src_dt pos dst_dt,
     filter is_accumulate calls
     = [Accumulate src_buf 1 src_dt dst_rank pos 1 dst_dt op (mpi_win g)]) /\
  built calls = committed calls /\ committed calls = freed calls.

(** The lock and unlock calls of one destination's share of a drain. *)
Definition drain_locks (g : GTMatrix) (dst_rank : Z) : list MPI_Call :=
  match req_vec g !! Z.to_nat dst_rank with
  | Some (_ :: _) =>
      [Win_lock MPI_LOCK_SHARED dst_rank 0 (mpi_win g);
       Win_unlock dst_rank (mpi_win g)]
  | _ => []
  end.

(** Every request vector can take one more entry with an [int] size. *)
Definition queues_room (g : GTMatrix) : bool :=
  forallb (fun v => curr_size v <? INT_MAX) (req_vec g).

(** The calls of an immediate update that go to rank [d], for a routing
    over the blocks [s_r .. e_r] x [s_c .. e_c]. *)
Definition rank_share (g : GTMatrix) (op : MPI_Op) (rs rn cs cn : Z)
    (buf : ptr) (ld : Z) (s_r e_r s_c e_c d : Z) : list MPI_Call :=
  flat_map (pair_calls g)
    (pair d <$> routed_to g op rs rn cs cn buf ld s_r e_r s_c e_c d).

(** What a call means for synchronisation: a lock taken, a remote
    write, a lock released.  Building, committing and freeing a datatype
    are local and leave no event. *)
Inductive sync_event : Type :=
| Locked (lock_type : MPI_Lock) (rank : Z)
| Wrote (rank : Z) (op : MPI_Op)
| Unlocked (rank : Z).

Definition sync_events (calls : list MPI_Call) : list sync_event :=
  flat_map (fun c => match c with
                     | Win_lock lock_type rank _ _ => [Locked lock_type rank]
                     | Win_unlock rank _ => [Unlocked rank]
                     | Accumulate _ _ _ rank _ _ _ op _ => [Wrote rank op]
                     | _ => []
                     end) calls.

(** The entry [e], queued for [dst_rank], is a block of positive extent
    inside the region of [dst_rank], and its replay stays within [int]. *)
Definition entry_ok (g : GTMatrix) (dst_rank : Z) (e : Req_Entry) : bool :=
  owner_ok g dst_rank
  && inside_region g dst_rank (req_row_start e) (req_row_num e)
       (req_col_start e) (req_col_num e)
  && update_arith_ok g dst_rank (req_row_start e) (req_row_num e)
       (req_col_start e) (req_col_num e) (req_src_buf_ld e).

(** Every entry of the vectors [qs], which belong to the ranks
    [dst_rank], [dst_rank + 1], ..., is such a block. *)
Fixpoint entries_ok (g : GTMatrix) (dst_rank : Z)
    (qs : list GTM_Req_Vector) : bool :=
  match qs with
  | [] => true
  | q :: qs' =>
      forallb (entry_ok g dst_rank) q && entries_ok g (dst_rank + 1) qs'
  end.

(** The events of one destination's share of a drain: nothing for an
    empty vector, else one lock, one remote write per entry in the order
    of the vector, one unlock. *)
Definition drain_events (g : GTMatrix) (dst_rank : Z) : list sync_event :=
  match req_vec g !! Z.to_nat dst_rank with
  | Some (e :: q) =>
      [Locked MPI_LOCK_SHARED dst_rank]
      ++ map (fun e => Wrote dst_rank (req_op e)) (e :: q)
      ++ [Unlocked dst_rank]
  | _ => []
  end.

(** No request is pending. *)
Definition queues_empty (g : GTMatrix) : bool :=
  forallb (fun v => curr_size v =? 0) (req_vec g).

(** * Properties *)

(** ** Running computations *)

Lemma bind_step {A B} (m : M A) (k : A -> M B) w a w' :
  m w = Returns (a, w') -> bind m k w = k a w'.
Proof. intros H. unfold bind. now rewrite H. Qed.

Lemma bind_bind {A B C} (m : M A) (k1 : A -> M B) (k2 : B -> M C) w :
  bind (bind m k1) k2 w = bind m (fun a => bind (k1 a) k2) w.
Proof. unfold bind. now destruct (m w) as [[a w']| |]. Qed.

Lemma bind_undefined {A B} (m : M A) (k : A -> M B) w :
  m w = Undefined -> bind m k w = Undefined.
Proof. intros H. unfold bind. now rewrite H. Qed.

Lemma in_int_iff z : in_int z = true <-> INT_MIN <= z <= INT_MAX.
Proof. unfold in_int. rewrite andb_true_iff, !Z.leb_le. tauto. Qed.

Lemma int_of_ok z w : INT_MIN <= z <= INT_MAX -> int_of z w = Returns (z, w).
Proof.
  intros H. unfold int_of. apply in_int_iff in H. now rewrite H.
Qed.

Lemma iadd_ok a b w :
  INT_MIN <= a + b <= INT_MAX -> iadd a b w = Returns (a + b, w).
Proof. apply int_of_ok. Qed.

Lemma isub_ok a b w :
  INT_MIN <= a - b <= INT_MAX -> isub a b w = Returns (a - b, w).
Proof. apply int_of_ok. Qed.

Lemma imul_ok a b w :
  INT_MIN <= a * b <= INT_MAX -> imul a b w = Returns (a * b, w).
Proof. apply int_of_ok. Qed.

Lemma quot_bounds a b : 0 <= a -> 0 < b -> 0 <= Z.quot a b <= a.
Proof.
  intros Ha Hb. rewrite Z.quot_div_nonneg by lia. split.
  - apply Z.div_pos; lia.
  - apply Z.div_le_upper_bound; nia.
Qed.

Lemma idiv_ok a b w :
  0 <= a <= INT_MAX -> 0 < b -> idiv a b w = Returns (Z.quot a b, w).
Proof.
  intros Ha Hb. unfold idiv. destruct (Z.eqb_spec b 0); [lia|].
  apply int_of_ok. pose proof (quot_bounds a b). unfold INT_MIN. lia.
Qed.

Lemma imod_ok a b w :
  0 <= a <= INT_MAX -> 0 < b -> imod a b w = Returns (Z.rem a b, w).
Proof.
  intros Ha Hb. unfold imod. destruct (Z.eqb_spec b 0); [lia|].
  pose proof (quot_bounds a b).
  assert (H1 : in_int (Z.quot a b) = true)
    by (apply in_int_iff; unfold INT_MIN; lia).
  now rewrite H1.
Qed.

Lemma index_ok {A} (a : list A) i x w :
  0 <= i -> a !! Z.to_nat i = Some x -> index a i w = Returns (x, w).
Proof.
  intros Hi Hx. unfold index. destruct (Z.ltb_spec i 0); [lia|].
  now rewrite Hx.
Qed.

Lemma lookup_displ (l : list Z) i :
  0 <= i < Z.of_nat (length l) -> l !! Z.to_nat i = Some (displ l i).
Proof.
  intros Hi. unfold displ.
  destruct (lookup_lt_is_Some_2 l (Z.to_nat i)) as [x Hx]; [lia|].
  rewrite Hx. f_equal. symmetry. now apply nth_lookup_Some with (d := 0).
Qed.

Lemma index_displ (l : list Z) i w :
  0 <= i < Z.of_nat (length l) -> index l i w = Returns (displ l i, w).
Proof. intros Hi. apply index_ok; [lia|]. now apply lookup_displ. Qed.

Ltac unbool :=
  repeat match goal with
    | H : _ && _ = true |- _ => apply andb_true_iff in H; destruct H
    | H : (_ <=? _) = true |- _ => apply Z.leb_le in H
    | H : (_ <? _) = true |- _ => apply Z.ltb_lt in H
    | H : (_ =? _) = true |- _ => apply Z.eqb_eq in H
    | H : in_int _ = true |- _ => apply in_int_iff in H
    end.

Ltac int_range := unfold INT_MIN, INT_MAX in *; lia.

(** One statement of the C function, at the head of the computation. *)
Ltac step :=
  match goal with
  | |- context [bind get_mat ?k ?w] =>
      rewrite (bind_step get_mat k w _ _ eq_refl)
  | |- context [bind (ret ?a) ?k ?w] =>
      rewrite (bind_step (ret a) k w _ _ eq_refl)
  | |- context [bind (mpi ?c) ?k ?w] =>
      rewrite (bind_step (mpi c) k w _ _ eq_refl)
  | |- context [bind (put_mat ?g) ?k ?w] =>
      rewrite (bind_step (put_mat g) k w _ _ eq_refl)
  | |- context [bind (iadd ?a ?b) ?k ?w] =>
      rewrite (bind_step (iadd a b) k w _ _ (iadd_ok a b w ltac:(int_range)))
  | |- context [bind (isub ?a ?b) ?k ?w] =>
      rewrite (bind_step (isub a b) k w _ _ (isub_ok a b w ltac:(int_range)))
  | |- context [bind (imul ?a ?b) ?k ?w] =>
      rewrite (bind_step (imul a b) k w _ _ (imul_ok a b w ltac:(int_range)))
  | |- context [bind (idiv ?a ?b) ?k ?w] =>
      rewrite (bind_step (idiv a b) k w _ _
                 (idiv_ok a b w ltac:(int_range) ltac:(int_range)))
  | |- context [bind (imod ?a ?b) ?k ?w] =>
      rewrite (bind_step (imod a b) k w _ _
                 (imod_ok a b w ltac:(int_range) ltac:(int_range)))
  | H : ?l !! Z.to_nat ?i = Some ?x |- context [bind (index ?l ?i) ?k ?w] =>
      rewrite (bind_step (index l i) k w _ _
                 (index_ok l i x w ltac:(int_range) H))
  | |- context [bind (index ?l ?i) ?k ?w] =>
      rewrite (bind_step (index l i) k w _ _
                 (index_displ l i w ltac:(int_range)))
  end; cbv beta; cbn [gt_mat issued].

(** ** GTM_updateBlockToProcess on a block inside the owner's region *)

Lemma owner_block_bounds g d :
  owner_ok g d = true ->
  0 <= Z.quot d (c_blocks g) < r_blocks g /\
  0 <= Z.rem d (c_blocks g) < c_blocks g.
Proof.
  intros H. unfold owner_ok in H. unbool.
  rewrite Z.quot_div_nonneg, Z.rem_mod_nonneg by lia.
  pose proof (Z.mod_pos_bound d (c_blocks g)).
  repeat split; try lia.
  - apply Z.div_pos; lia.
  - apply Z.div_lt_upper_bound; lia.
Qed.

Lemma updateBlockToProcess_run g t dst_rank op rs rn cs cn buf ld :
  owner_ok g dst_rank = true ->
  inside_region g dst_rank rs rn cs cn = true ->
  update_arith_ok g dst_rank rs rn cs cn ld = true ->
  cache_ok MPI_DT_SB_DIM_MAX g = true ->
  let id := (rn - 1) * MPI_DT_SB_DIM_MAX + (cn - 1) in
  let pos := local_offset g dst_rank rs cs in
  let elt := datatype g in
  let src_dt := Dt_vector rn cn ld elt in
  let dst_dt := Dt_vector rn cn (ld_local g) elt in
  exists calls,
    GTM_updateBlockToProcess dst_rank op rs rn cs cn buf ld (mkWorld g t)
    = Returns (tt, mkWorld g (t ++ calls)) /\
    (rn <= MPI_DT_SB_DIM_MAX -> cn <= MPI_DT_SB_DIM_MAX ->
     exists cached_dst cached_src,
       sb_stride g !! Z.to_nat id = Some cached_dst /\
       sb_nostride g !! Z.to_nat id = Some cached_src /\
       (cn = ld ->
        calls = [Accumulate buf 1 cached_src dst_rank pos 1 cached_dst op
                   (mpi_win g)]) /\
       (cn <> ld -> ld_local g = ld ->
        calls = [Accumulate buf 1 cached_dst dst_rank pos 1 cached_dst op
                   (mpi_win g)]) /\
       (cn <> ld -> ld_local g <> ld ->
        calls = [Type_vector rn cn ld elt; Type_commit src_dt;
                 Accumulate buf 1 src_dt dst_rank pos 1 cached_dst op
                   (mpi_win g);
                 Type_free src_dt])) /\
    (rn > MPI_DT_SB_DIM_MAX \/ cn > MPI_DT_SB_DIM_MAX ->
     calls = [Type_vector rn cn (ld_local g) elt; Type_vector rn cn ld elt;
              Type_commit dst_dt; Type_commit src_dt;
              Accumulate buf 1 src_dt dst_rank pos 1 dst_dt op (mpi_win g);
              Type_free dst_dt; Type_free src_dt]).
Proof.
  intros Hown Hin Har Hc id pos elt src_dt dst_dt.
  pose proof (owner_block_bounds g dst_rank Hown) as [Hq Hr].
  unfold owner_ok in Hown. unfold inside_region in Hin.
  unfold update_arith_ok in Har. unfold cache_ok in Hc.
  unfold region_row_start, region_row_end, region_col_start,
    region_col_end in *.
  unbool.
  unfold GTM_updateBlockToProcess.
  do 11 step.
  rewrite !Z.gtb_ltb.
  repeat match goal with
         | |- context [?a <? ?b] => destruct (Z.ltb_spec a b); [lia|]
         end.
  cbn [orb]. step.
  destruct (Z.eqb_spec (rn * cn) 0); [nia|].
  do 6 step.
  destruct (Z.leb_spec rn MPI_DT_SB_DIM_MAX) as [Hrn|Hrn];
    destruct (Z.leb_spec cn MPI_DT_SB_DIM_MAX) as [Hcn|Hcn]; cbn [andb].
  2-4: eexists; split;
    [ repeat step; unfold mpi; cbn [gt_mat issued];
      rewrite <- !app_assoc; reflexivity
    | split; [intros; lia | intros _; reflexivity] ].
  assert (Hid0 : 0 <= (rn - 1) * MPI_DT_SB_DIM_MAX
                  <= MPI_DT_SB_DIM_MAX * MPI_DT_SB_DIM_MAX - MPI_DT_SB_DIM_MAX)
    by nia.
  assert (Hid : 0 <= id < MPI_DT_SB_DIM_MAX * MPI_DT_SB_DIM_MAX)
    by (unfold id; lia).
  destruct (lookup_lt_is_Some_2 (sb_stride g) (Z.to_nat id))
    as [cached_dst Hdst]; [lia|].
  destruct (lookup_lt_is_Some_2 (sb_nostride g) (Z.to_nat id))
    as [cached_src Hsrc]; [lia|].
  do 4 step. fold id. step.
  destruct (Z.eqb_spec cn ld) as [Hld|Hld];
    [|destruct (Z.eqb_spec (ld_local g) ld) as [Hll|Hll]];
    (eexists; split;
     [ repeat step; unfold mpi; cbn [gt_mat issued];
       rewrite <- ?app_assoc; reflexivity
     | split; [intros _ _; exists cached_dst, cached_src;
               repeat split; (congruence || (intros; lia) || idtac)
              | intros; lia] ]).
  all: intros; congruence.
Qed.

(** C3.  A block inside its owner's region is written with descriptors
    chosen by shape: up to the cached-shape ceiling in both dimensions,
    the cached strided destination descriptor is paired with the cached
    no-stride source descriptor when the source leading dimension equals
    the column count, is used for both sides when the source leading
    dimension equals the local one, and is otherwise paired with a
    strided source descriptor that is built, committed and freed around
    the call; above the ceiling in either dimension two strided
    descriptors are built, committed and freed.  In each case the calls
    contain exactly one remote accumulate. *)
Theorem updateBlockToProcess_descriptor_selection
    g t dst_rank op rs rn cs cn buf ld :
  owner_ok g dst_rank = true ->
  inside_region g dst_rank rs rn cs cn = true ->
  update_arith_ok g dst_rank rs rn cs cn ld = true ->
  cache_ok MPI_DT_SB_DIM_MAX g = true ->
  let id := (rn - 1) * MPI_DT_SB_DIM_MAX + (cn - 1) in
  let pos := local_offset g dst_rank rs cs in
  let elt := datatype g in
  let src_dt := Dt_vector rn cn ld elt in
  let dst_dt := Dt_vector rn cn (ld_local g) elt in
  exists calls,
    GTM_updateBlockToProcess dst_rank op rs rn cs cn buf ld (mkWorld g t)
    = Returns (tt, mkWorld g (t ++ calls)) /\
    length (filter is_accumulate calls) = 1%nat /\
    (rn <= MPI_DT_SB_DIM_MAX -> cn <= MPI_DT_SB_DIM_MAX ->
     exists cached_dst cached_src,
       sb_stride g !! Z.to_nat id = Some cached_dst /\
       sb_nostride g !! Z.to_nat id = Some cached_src /\
       (cn = ld ->
        calls = [Accumulate buf 1 cached_src dst_rank pos 1 cached_dst op
                   (mpi_win g)]) /\
       (cn <> ld -> ld_local g = ld ->
        calls = [Accumulate buf 1 cached_dst dst_rank pos 1 cached_dst op
                   (mpi_win g)]) /\
       (cn <> ld -> ld_local g <> ld ->
        calls = [Type_vector rn cn ld elt; Type_commit src_dt;
                 Accumulate buf 1 src_dt dst_rank pos 1 cached_dst op
                   (mpi_win g);
                 Type_free src_dt])) /\
    (rn > MPI_DT_SB_DIM_MAX \/ cn > MPI_DT_SB_DIM_MAX ->
     calls = [Type_vector rn cn (ld_local g) elt; Type_vector rn cn ld elt;
              Type_commit dst_dt; Type_commit src_dt;
              Accumulate buf 1 src_dt dst_rank pos 1 dst_dt op (mpi_win g);
              Type_free dst_dt; Type_free src_dt]).
Proof.
  intros Hown Hin Har Hc id pos elt src_dt dst_dt.
  destruct (updateBlockToProcess_run g t dst_rank op rs rn cs cn buf ld
              Hown Hin Har Hc) as (calls & Hrun & Hsmall & Hbig).
  exists calls. repeat split; try assumption.
  destruct (Z.leb_spec rn MPI_DT_SB_DIM_MAX) as [Hrn|Hrn];
    [destruct (Z.leb_spec cn MPI_DT_SB_DIM_MAX) as [Hcn|Hcn]|].
  - destruct (Hsmall Hrn Hcn) as (cd & csrc & _ & _ & H1 & H2 & H3).
    destruct (Z.eq_dec cn ld) as [E|E]; [rewrite (H1 E); reflexivity|].
    destruct (Z.eq_dec (ld_local g) ld) as [E'|E'].
    + rewrite (H2 E E'); reflexivity.
    + rewrite (H3 E E'); reflexivity.
  - rewrite Hbig by lia. reflexivity.
  - rewrite Hbig by lia. reflexivity.
Qed.

(** C7.  On a block inside its owner's region, the remote write goes to
    [dst_rank] at displacement
    [(row_start - region_row_start) * ld_local + (col_start - region_col_start)],
    the region's corner being read from the displacement tables at the
    row block [dst_rank / c_blocks] and the column block
    [dst_rank % c_blocks]. *)
Theorem updateBlockToProcess_local_offset
    g t dst_rank op rs rn cs cn buf ld :
  owner_ok g dst_rank = true ->
  inside_region g dst_rank rs rn cs cn = true ->
  update_arith_ok g dst_rank rs rn cs cn ld = true ->
  cache_ok MPI_DT_SB_DIM_MAX g = true ->
  exists calls,
    GTM_updateBlockToProcess dst_rank op rs rn cs cn buf ld (mkWorld g t)
    = Returns (tt, mkWorld g (t ++ calls)) /\
    remote_writes calls =
      [(dst_rank,
        (rs - displ (r_displs g) (Z.quot dst_rank (c_blocks g))) * ld_local g
        + (cs - displ (c_displs g) (Z.rem dst_rank (c_blocks g))))].
Proof.
  intros Hown Hin Har Hc.
  destruct (updateBlockToProcess_run g t dst_rank op rs rn cs cn buf ld
              Hown Hin Har Hc) as (calls & Hrun & Hsmall & Hbig).
  exists calls. split; [assumption|].
  change ((rs - displ (r_displs g) (Z.quot dst_rank (c_blocks g)))
          * ld_local g
          + (cs - displ (c_displs g) (Z.rem dst_rank (c_blocks g))))
    with (local_offset g dst_rank rs cs).
  destruct (Z.leb_spec rn MPI_DT_SB_DIM_MAX) as [Hrn|Hrn];
    [destruct (Z.leb_spec cn MPI_DT_SB_DIM_MAX) as [Hcn|Hcn]|].
  - destruct (Hsmall Hrn Hcn) as (cd & csrc & _ & _ & H1 & H2 & H3).
    destruct (Z.eq_dec cn ld) as [E|E]; [rewrite (H1 E); reflexivity|].
    destruct (Z.eq_dec (ld_local g) ld) as [E'|E'].
    + rewrite (H2 E E'); reflexivity.
    + rewrite (H3 E E'); reflexivity.
  - rewrite Hbig by lia. reflexivity.
  - rewrite Hbig by lia. reflexivity.
Qed.

(** ** Rectangles that fail the sanity checks *)


(** ** Loops *)

Lemma for_loop_inv {A} (P : Z -> A -> world -> Prop) (body : Z -> A -> M A) :
  forall (n : nat) (i : Z) (acc : A) (w : world),
    INT_MIN <= i -> i + Z.of_nat n <= INT_MAX ->
    P i acc w ->
    (forall k a w0, i <= k < i + Z.of_nat n -> P k a w0 ->
       exists a' w', body k a w0 = Returns (a', w') /\ P (k + 1) a' w') ->
    exists a' w',
      for_loop n i acc body w = Returns (a', w') /\ P (i + Z.of_nat n) a' w'.
Proof.
  induction n as [|n IH]; intros i acc w Hlo Hhi HP Hbody.
  - exists acc, w. cbn. rewrite Z.add_0_r. auto.
  - destruct (Hbody i acc w ltac:(lia) HP) as (a1 & w1 & Hb & HP1).
    destruct (IH (i + 1) a1 w1) as (a2 & w2 & Hl & HP2); try lia; auto.
    { intros k a w0 Hk. apply Hbody. lia. }
    exists a2, w2. split.
    + cbn [for_loop]. rewrite (bind_step _ _ _ _ _ Hb).
      rewrite (bind_step _ _ _ _ _ (iadd_ok i 1 w1 ltac:(lia))). exact Hl.
    + replace (i + Z.of_nat (S n)) with (i + 1 + Z.of_nat n) by lia. exact HP2.
Qed.

(** ** Opening the batch-update epoch *)

Lemma reset_req_vec_at_run g t i :
  0 <= i < Z.of_nat (length (req_vec g)) ->
  reset_req_vec_at i (mkWorld g t)
  = Returns (tt, mkWorld (set_req_vec g (<[Z.to_nat i := []]> (req_vec g))) t).
Proof.
  intros Hi. unfold reset_req_vec_at.
  destruct (lookup_lt_is_Some_2 (req_vec g) (Z.to_nat i)) as [v Hv]; [lia|].
  step. step. reflexivity.
Qed.

Lemma reset_prefix (q : list GTM_Req_Vector) (k : nat) :
  (k < length q)%nat ->
  <[k := []]> (replicate k [] ++ drop k q)
  = replicate (S k) [] ++ drop (S k) q.
Proof.
  intros Hk. revert q Hk. induction k as [|k IH]; intros [|x q] Hk;
    cbn in *; try lia; [reflexivity|].
  f_equal. apply IH. lia.
Qed.

Lemma startBatchUpdate_run g t :
  queues_ok g = true ->
  is_batch_getting g = 0 ->
  GTM_startBatchUpdate (mkWorld g t)
  = Returns (tt, mkWorld (set_is_batch_updating
                            (set_req_vec g (replicate (length (req_vec g)) []))
                            1) t).
Proof.
  intros Hq Hget. unfold queues_ok in Hq. unbool.
  unfold GTM_startBatchUpdate. step. rewrite Hget. cbn [Z.eqb negb].
  destruct (for_loop_inv
    (fun k (_ : unit) w =>
       w = mkWorld (set_req_vec g (replicate (Z.to_nat k) []
                                   ++ drop (Z.to_nat k) (req_vec g))) t)
    (fun i _ => reset_req_vec_at i)
    (Z.to_nat (comm_size g)) 0 tt (mkWorld g t))
    as (u & w' & Hloop & Hw').
  - unfold INT_MIN. lia.
  - lia.
  - cbn. now destruct g.
  - intros k [] w0 Hk ->. eexists tt, _. split.
    + apply reset_req_vec_at_run. cbn [req_vec set_req_vec].
      rewrite length_app, length_replicate, length_drop. lia.
    + cbn [req_vec set_req_vec]. f_equal.
      destruct g; cbn [set_req_vec req_vec] in *. f_equal.
      replace (Z.to_nat (k + 1)) with (S (Z.to_nat k)) by lia.
      apply reset_prefix. lia.
  - rewrite (bind_step _ _ _ _ _ Hloop). subst w'. step.
    unfold put_mat. cbn [gt_mat issued]. do 3 f_equal.
    replace (Z.to_nat (0 + Z.of_nat (Z.to_nat (comm_size g))))
      with (length (req_vec g)) by lia.
    rewrite drop_all, app_nil_r. reflexivity.
Qed.

(** C10.  While a batch-get epoch is open, GTM_startBatchUpdate returns
    at once: no request vector is reset and the batch-updating flag is not
    set. *)
Theorem startBatchUpdate_refused_while_getting g t :
  is_batch_getting g <> 0 ->
  GTM_startBatchUpdate (mkWorld g t) = Returns (tt, mkWorld g t).
Proof.
  intros Hget. unfold GTM_startBatchUpdate. step.
  destruct (Z.eqb_spec (is_batch_getting g) 0); [contradiction|reflexivity].
Qed.

(** C4, as the code has it.  GTM_startBatchUpdate does nothing while a
    batch-get epoch is open; otherwise, whether or not the batch-update
    epoch is already open, it empties every request vector and sets the
    batch-updating flag. *)
Theorem startBatchUpdate_gated_by_batch_get g t :
  queues_ok g = true ->
  (is_batch_getting g <> 0 ->
   GTM_startBatchUpdate (mkWorld g t) = Returns (tt, mkWorld g t)) /\
  (is_batch_getting g = 0 ->
   exists g',
     GTM_startBatchUpdate (mkWorld g t) = Returns (tt, mkWorld g' t) /\
     is_batch_updating g' = 1 /\
     length (req_vec g') = length (req_vec g) /\
     (forall v, v ∈ req_vec g' -> v = []) /\
     set_is_batch_updating (set_req_vec g' (req_vec g)) (is_batch_updating g)
     = g).
Proof.
  intros Hq. split.
  - intros Hget. unfold GTM_startBatchUpdate. step.
    destruct (Z.eqb_spec (is_batch_getting g) 0); [contradiction|reflexivity].
  - intros Hget. eexists. split; [apply (startBatchUpdate_run g t Hq Hget)|].
    cbn [is_batch_updating req_vec set_is_batch_updating set_req_vec].
    repeat split.
    + apply length_replicate.
    + intros v Hv. now apply elem_of_replicate in Hv.
    + now destruct g.
Qed.

(** ** Computations that only read the handle and issue calls *)

Lemma emits_ret {A} (a : A) : emits (ret a).
Proof.
  exists (Some (a, [])). intros [g t]. unfold ret. cbn.
  now rewrite app_nil_r.
Qed.

Lemma emits_undefined {A} : emits (@undefined A).
Proof. now exists None. Qed.

Lemma emits_mpi c : emits (mpi c).
Proof. now exists (Some (tt, [c])). Qed.

Lemma emits_int_of z : emits (int_of z).
Proof.
  unfold int_of. destruct (in_int z); [apply emits_ret|apply emits_undefined].
Qed.

Lemma emits_idiv a b : emits (idiv a b).
Proof.
  unfold idiv. destruct (b =? 0); [apply emits_undefined|apply emits_int_of].
Qed.

Lemma emits_imod a b : emits (imod a b).
Proof.
  unfold imod. destruct (b =? 0); [apply emits_undefined|].
  destruct (in_int _); [apply emits_ret|apply emits_undefined].
Qed.

Lemma emits_index {A} (l : list A) i : emits (index l i).
Proof.
  unfold index. destruct (i <? 0); [apply emits_undefined|].
  destruct (l !! Z.to_nat i); [apply emits_ret|apply emits_undefined].
Qed.

Lemma emits_bind {A B} (m : M A) (k : A -> M B) :
  emits m -> (forall a, emits (k a)) -> emits (bind m k).
Proof.
  intros [[[a c1]|] Hm] Hk.
  - destruct (Hk a) as [[[b c2]|] Hka].
    + exists (Some (b, c1 ++ c2)). intros w. unfold bind.
      rewrite Hm, Hka. cbn. now rewrite app_assoc.
    + exists None. intros w. unfold bind. now rewrite Hm, Hka.
  - exists None. intros w. unfold bind. now rewrite Hm.
Qed.

Ltac prove_emits :=
  repeat first
    [ apply emits_ret | apply emits_mpi | apply emits_int_of
    | apply emits_idiv | apply emits_imod | apply emits_index
    | apply emits_bind; [|intro]
    | match goal with |- emits (if ?c then _ else _) => destruct c end ].

Lemma updateBlockToProcess_frame dst_rank op rs rn cs cn buf ld g :
  exists r : option (list MPI_Call),
    forall q t,
      GTM_updateBlockToProcess dst_rank op rs rn cs cn buf ld
        (mkWorld (set_req_vec g q) t)
      = match r with
        | Some calls => Returns (tt, mkWorld (set_req_vec g q) (t ++ calls))
        | None => Undefined
        end.
Proof.
  unfold GTM_updateBlockToProcess.
  match goal with
  | |- context [bind get_mat ?k] =>
      assert (Hk : emits (k g)) by (cbv beta zeta; prove_emits);
      destruct Hk as [r Hr]
  end.
  exists (option_map snd r). intros q t. step.
  cbn [set_req_vec c_blocks r_displs c_displs ld_local unit_size sb_stride
       sb_nostride datatype mpi_win].
  cbn [c_blocks r_displs c_displs ld_local unit_size sb_stride
       sb_nostride datatype mpi_win] in Hr.
  rewrite Hr. destruct r as [[[] calls]|]; reflexivity.
Qed.

(** ** Draining the request vectors *)

Lemma set_req_vec_same g : set_req_vec g (req_vec g) = g.
Proof. now destruct g. Qed.

Lemma replay_run g q t d e :
  replay_defined g d e = true ->
  replay d e (mkWorld (set_req_vec g q) t)
  = Returns (tt, mkWorld (set_req_vec g q) (t ++ replay_calls g d e)).
Proof.
  unfold replay_defined, replay_calls, replay.
  destruct (updateBlockToProcess_frame d (req_op e) (req_row_start e)
              (req_row_num e) (req_col_start e) (req_col_num e)
              (req_src_buf e) (req_src_buf_ld e) g) as [r Hr].
  pose proof (Hr (req_vec g) []) as H0. rewrite set_req_vec_same in H0.
  rewrite H0, Hr. destruct r as [calls|]; [|discriminate].
  intros _. reflexivity.
Qed.

Lemma replays_defined_lookup g qs :
  forall d0 (k : nat) q e,
    replays_defined g d0 qs = true ->
    qs !! k = Some q -> e ∈ q ->
    replay_defined g (d0 + Z.of_nat k) e = true.
Proof.
  induction qs as [|q0 qs IH]; intros d0 k q e Hall Hk He; [discriminate|].
  cbn [replays_defined] in Hall. apply andb_true_iff in Hall as [H0 Hs].
  destruct k as [|k].
  - injection Hk as <-. rewrite Z.add_0_r.
    rewrite forallb_forall in H0. apply H0. now apply list_elem_of_In.
  - replace (d0 + Z.of_nat (S k)) with (d0 + 1 + Z.of_nat k) by lia.
    now apply (IH (d0 + 1) k q e).
Qed.

Lemma replay_loop g q t d (v : GTM_Req_Vector) :
  (forall e, e ∈ v -> replay_defined g d e = true) ->
  Z.of_nat (length v) <= INT_MAX ->
  for_loop (Z.to_nat (curr_size v)) 0 tt (fun i _ =>
    let* e := index v i in
    GTM_updateBlockToProcess d (req_op e)
      (req_row_start e) (req_row_num e) (req_col_start e) (req_col_num e)
      (req_src_buf e) (req_src_buf_ld e)) (mkWorld (set_req_vec g q) t)
  = Returns (tt, mkWorld (set_req_vec g q)
                   (t ++ flat_map (replay_calls g d) v)).
Proof.
  intros Hdef Hlen. unfold curr_size.
  match goal with
  | |- for_loop ?n ?i ?a ?body ?w0 = _ =>
      destruct (for_loop_inv
        (fun k (_ : unit) w =>
           w = mkWorld (set_req_vec g q)
                 (t ++ flat_map (replay_calls g d) (take (Z.to_nat k) v)))
        body n i a w0) as ([] & w' & Hloop & Hw'); [| | | |rewrite Hloop]
  end.
  - unfold INT_MIN. lia.
  - lia.
  - cbn. now rewrite app_nil_r.
  - intros k [] w0 Hk ->.
    destruct (lookup_lt_is_Some_2 v (Z.to_nat k)) as [e He]; [lia|].
    eexists tt, _. split.
    + step. apply (replay_run g q _ d e).
      apply Hdef. eapply list_elem_of_lookup_2; eauto.
    + replace (Z.to_nat (k + 1)) with (S (Z.to_nat k)) by lia.
      rewrite (take_S_r _ _ _ He), flat_map_app. cbn [flat_map].
      now rewrite app_nil_r, app_assoc.
  - subst w'. do 3 f_equal.
    rewrite take_ge by lia. reflexivity.
Qed.

Lemma cleared_snoc ds d q :
  cleared (ds ++ [d]) q = <[Z.to_nat d := []]> (cleared ds q).
Proof. unfold cleared. now rewrite fold_left_app. Qed.

Lemma cleared_length ds : forall q, length (cleared ds q) = length q.
Proof.
  induction ds as [|d ds IH]; intros q; [reflexivity|].
  cbn. rewrite IH. apply length_insert.
Qed.

Lemma cleared_lookup_other ds (i : nat) :
  forall q, (forall d, In d ds -> Z.to_nat d <> i) ->
            cleared ds q !! i = q !! i.
Proof.
  induction ds as [|d ds IH]; intros q Hds; [reflexivity|].
  cbn. rewrite IH by (intros; apply Hds; now right).
  apply list_lookup_insert_ne. apply Hds. now left.
Qed.

Lemma cleared_lookup_reset ds d :
  forall q, In d ds -> (Z.to_nat d < length q)%nat ->
            cleared ds q !! Z.to_nat d = Some [].
Proof.
  induction ds as [|d0 ds IH] using rev_ind; intros q Hin Hlen; [easy|].
  rewrite cleared_snoc. apply in_app_or in Hin as [Hin|[<-|[]]].
  - destruct (decide (Z.to_nat d0 = Z.to_nat d)) as [E|E].
    + rewrite E. apply list_lookup_insert_eq. now rewrite cleared_length.
    + rewrite list_lookup_insert_ne by exact E. now apply IH.
  - apply list_lookup_insert_eq. now rewrite cleared_length.
Qed.

Lemma rem_wrap r n i :
  0 <= r < n -> 0 <= i < n ->
  Z.rem (r + i) n = if r + i <? n then r + i else r + i - n.
Proof.
  intros Hr Hi. rewrite Z.rem_mod_nonneg by lia.
  destruct (Z.ltb_spec (r + i) n).
  - apply Z.mod_small. lia.
  - transitivity ((r + i - n + 1 * n) mod n); [f_equal; lia|].
    rewrite Z_mod_plus_full. apply Z.mod_small. lia.
Qed.

Lemma visited_S g k :
  visited g (S k)
  = visited g k ++ [Z.rem (my_rank g + Z.of_nat k) (comm_size g)].
Proof. unfold visited. now rewrite seq_S, map_app. Qed.

Lemma visited_In g k d :
  In d (visited g k) <->
  exists i, (i < k)%nat /\ d = Z.rem (my_rank g + Z.of_nat i) (comm_size g).
Proof.
  unfold visited. rewrite in_map_iff. split.
  - intros (i & <- & Hi). apply in_seq in Hi. exists i. split; [lia|easy].
  - intros (i & Hi & ->). exists i. split; [easy|]. apply in_seq. lia.
Qed.

Lemma map_seq_shift (f : nat -> Z) (m : nat) :
  forall a b, (forall i, (i < m)%nat -> f (a + i)%nat = Z.of_nat (b + i)) ->
              map f (seq a m) = map Z.of_nat (seq b m).
Proof.
  induction m as [|m IH]; intros a b Hf; [reflexivity|].
  cbn. f_equal.
  - specialize (Hf O ltac:(lia)). now rewrite !Nat.add_0_r in Hf.
  - apply IH. intros i Hi. specialize (Hf (S i) ltac:(lia)).
    now rewrite <- !Nat.add_succ_comm in Hf.
Qed.

Lemma visited_all g :
  0 <= my_rank g < comm_size g ->
  visited g (Z.to_nat (comm_size g)) = visit_order g.
Proof.
  intros Hr. unfold visited, visit_order.
  set (r := Z.to_nat (my_rank g)). set (n := Z.to_nat (comm_size g)).
  replace n with ((n - r) + r)%nat at 1 by lia.
  rewrite seq_app, !map_app. f_equal.
  - apply map_seq_shift. intros i Hi. cbn [Nat.add].
    rewrite rem_wrap by lia. destruct (Z.ltb_spec (my_rank g + Z.of_nat i)
                                        (comm_size g)); lia.
  - apply map_seq_shift. intros i Hi. cbn [Nat.add].
    rewrite rem_wrap by lia.
    destruct (Z.ltb_spec (my_rank g + Z.of_nat (n - r + i)) (comm_size g));
      lia.
Qed.

Lemma visit_order_In g (i : nat) :
  0 <= my_rank g < comm_size g ->
  (i < Z.to_nat (comm_size g))%nat -> In (Z.of_nat i) (visit_order g).
Proof.
  intros Hr Hi. unfold visit_order. apply in_map, in_or_app.
  rewrite !in_seq. lia.
Qed.

Lemma execBatchUpdate_run g t :
  is_batch_updating g <> 0 ->
  queues_ok g = true -> self_ok g = true ->
  replays_defined g 0 (req_vec g) = true ->
  GTM_execBatchUpdate (mkWorld g t)
  = Returns (tt, mkWorld (set_req_vec g (replicate (length (req_vec g)) []))
                   (t ++ flat_map (drain_calls g) (visit_order g))).
Proof.
  intros Hopen Hq Hself Hdef. unfold queues_ok in Hq. unfold self_ok in Hself.
  unbool.
  unfold GTM_execBatchUpdate. step.
  destruct (Z.eqb_spec (is_batch_updating g) 0); [contradiction|].
  step.
  match goal with
  | |- for_loop ?n ?i ?a ?body ?w0 = _ =>
      destruct (for_loop_inv
        (fun j (_ : unit) w =>
           w = mkWorld
                 (set_req_vec g
                    (cleared (visited g (Z.to_nat (j - my_rank g)))
                       (req_vec g)))
                 (t ++ flat_map (drain_calls g)
                         (visited g (Z.to_nat (j - my_rank g)))))
        body n i a w0) as ([] & w' & Hloop & Hw'); [| | | |rewrite Hloop]
  end.
  - unfold INT_MIN. lia.
  - unfold INT_MAX in *. lia.
  - rewrite Z.sub_diag. cbn. rewrite app_nil_r. now destruct g.
  - intros j [] w0 Hj ->.
    set (k := Z.to_nat (j - my_rank g)).
    set (d := Z.rem j (comm_size g)).
    assert (Ej : j = my_rank g + Z.of_nat k) by lia.
    assert (Hd : 0 <= d < comm_size g).
    { unfold d. rewrite Z.rem_mod_nonneg by lia.
      apply Z.mod_pos_bound. lia. }
    assert (Hfresh : forall d', In d' (visited g k) -> Z.to_nat d' <> Z.to_nat d).
    { intros d' Hin. apply visited_In in Hin as (i & Hi & ->).
      unfold d. rewrite Ej. rewrite !rem_wrap by lia.
      destruct (Z.ltb_spec (my_rank g + Z.of_nat i) (comm_size g));
        destruct (Z.ltb_spec (my_rank g + Z.of_nat k) (comm_size g)); lia. }
    destruct (lookup_lt_is_Some_2 (req_vec g) (Z.to_nat d)) as [v Hv]; [lia|].
    assert (Hcur : cleared (visited g k) (req_vec g) !! Z.to_nat d = Some v)
      by (rewrite cleared_lookup_other; assumption).
    assert (Hvdef : forall e, e ∈ v -> replay_defined g d e = true).
    { intros e He.
      replace d with (0 + Z.of_nat (Z.to_nat d)) by lia.
      eapply replays_defined_lookup; eauto. }
    assert (Hvlen : Z.of_nat (length v) <= INT_MAX).
    { match goal with
      | H : forallb _ (req_vec g) = true |- _ =>
          rewrite forallb_forall in H;
          specialize (H v ltac:(apply list_elem_of_In;
                                eapply list_elem_of_lookup_2; eauto))
      end.
      unbool. unfold curr_size in *. lia. }
    eexists tt, _. split.
    + step. cbn [comm_size set_req_vec req_vec mpi_win]. step. fold d.
      step.
      assert (Hdrain :
        (if curr_size v >? 0
         then mpi (Win_lock MPI_LOCK_SHARED d 0 (mpi_win g));;
              for_loop (Z.to_nat (curr_size v)) 0 tt (fun i _ =>
                let* e := index v i in
                GTM_updateBlockToProcess d (req_op e)
                  (req_row_start e) (req_row_num e)
                  (req_col_start e) (req_col_num e)
                  (req_src_buf e) (req_src_buf_ld e));;
              mpi (Win_unlock d (mpi_win g))
         else ret tt)
          (mkWorld (set_req_vec g (cleared (visited g k) (req_vec g)))
             (t ++ flat_map (drain_calls g) (visited g k)))
        = Returns (tt,
            mkWorld (set_req_vec g (cleared (visited g k) (req_vec g)))
              (t ++ flat_map (drain_calls g) (visited g (S k))))).
      { rewrite visited_S, flat_map_app. cbn [flat_map].
        rewrite app_nil_r. fold d. rewrite <- Ej. fold d.
        unfold drain_calls at 3. rewrite Hv.
        destruct v as [|e v'].
        - cbn. now rewrite !app_nil_r.
        - assert (Hpos : (curr_size (e :: v') >? 0) = true).
          { unfold curr_size. cbn [length]. apply Z.gtb_lt. lia. }
          rewrite Hpos. step.
          rewrite (bind_step _ _ _ _ _
                     (replay_loop g _ _ d (e :: v') Hvdef Hvlen)).
          unfold mpi. cbn [gt_mat issued].
          do 3 f_equal. now rewrite <- !app_assoc. }
      rewrite (bind_step _ _ _ _ _ Hdrain).
      apply reset_req_vec_at_run. cbn [req_vec set_req_vec].
      rewrite cleared_length. lia.
    + replace (Z.to_nat (j + 1 - my_rank g)) with (S k) by lia.
      cbn [req_vec set_req_vec]. f_equal.
      rewrite visited_S, cleared_snoc. fold d. rewrite <- Ej. fold d.
      now destruct g.
  - subst w'.
    replace (Z.to_nat (my_rank g + Z.of_nat (Z.to_nat
               (comm_size g + my_rank g - my_rank g)) - my_rank g))
      with (Z.to_nat (comm_size g)) by lia.
    rewrite visited_all by lia.
    enough (E : cleared (visit_order g) (req_vec g)
                = replicate (length (req_vec g)) []) by now rewrite E.
    apply list_eq. intros i.
    destruct (decide (i < length (req_vec g))%nat) as [Hi|Hi].
    + rewrite lookup_replicate_2 by exact Hi.
      replace i with (Z.to_nat (Z.of_nat i)) at 1 by lia.
      apply cleared_lookup_reset; [apply visit_order_In|]; lia.
    + rewrite !lookup_ge_None_2; [reflexivity| |].
      * rewrite length_replicate. lia.
      * rewrite cleared_length. lia.
Qed.

(** C2.  With the epoch closed GTM_execBatchUpdate does nothing.  With
    the epoch open it visits the ranks from the caller's own upwards,
    wrapping around the group, and for every rank whose request vector is
    not empty it issues one lock, then the calls of
    GTM_updateBlockToProcess for each queued entry, once and in the order
    of the vector, then one unlock. *)
Theorem execBatchUpdate_replays_in_order g t :
  (is_batch_updating g = 0 ->
   GTM_execBatchUpdate (mkWorld g t) = Returns (tt, mkWorld g t)) /\
  (is_batch_updating g <> 0 ->
   queues_ok g = true -> self_ok g = true ->
   replays_defined g 0 (req_vec g) = true ->
   exists g',
     GTM_execBatchUpdate (mkWorld g t)
     = Returns (tt, mkWorld g'
                      (t ++ flat_map (drain_calls g) (visit_order g)))).
Proof.
  split.
  - intros Hclosed. unfold GTM_execBatchUpdate. step. now rewrite Hclosed.
  - intros Hopen Hq Hself Hdef. eexists.
    apply (execBatchUpdate_run g t Hopen Hq Hself Hdef).
Qed.

(** C9.  With the epoch open, GTM_execBatchUpdate leaves every request
    vector empty, the batch-updating flag as it was, and every other field
    of the handle as it was; with the epoch closed it changes nothing. *)
Theorem execBatchUpdate_resets_queues_only g t :
  (is_batch_updating g = 0 ->
   GTM_execBatchUpdate (mkWorld g t) = Returns (tt, mkWorld g t)) /\
  (is_batch_updating g <> 0 ->
   queues_ok g = true -> self_ok g = true ->
   replays_defined g 0 (req_vec g) = true ->
   exists g' calls,
     GTM_execBatchUpdate (mkWorld g t)
     = Returns (tt, mkWorld g' (t ++ calls)) /\
     length (req_vec g') = length (req_vec g) /\
     (forall v, v ∈ req_vec g' -> v = []) /\
     is_batch_updating g' = is_batch_updating g /\
     set_req_vec g' (req_vec g) = g).
Proof.
  split.
  - intros Hclosed. unfold GTM_execBatchUpdate. step. now rewrite Hclosed.
  - intros Hopen Hq Hself Hdef. eexists _, _. split.
    + apply (execBatchUpdate_run g t Hopen Hq Hself Hdef).
    + cbn [req_vec set_req_vec is_batch_updating]. repeat split.
      * apply length_replicate.
      * intros v Hv. now apply elem_of_replicate in Hv.
      * now destruct g.
Qed.

(** ** The displacement tables *)

Lemma increasing_nth l :
  increasing l = true ->
  forall i, (S i < length l)%nat -> nth i l 0 < nth (S i) l 0.
Proof.
  induction l as [|x [|y l] IH]; intros Hinc i Hi; cbn in Hi; try lia.
  cbn [increasing] in Hinc. apply andb_true_iff in Hinc as [Hxy Hinc].
  apply Z.ltb_lt in Hxy. destruct i as [|i]; [exact Hxy|].
  apply (IH Hinc i). cbn. lia.
Qed.

Section Table.

Variables (blocks : Z) (displs : list Z) (dim : Z).
Hypothesis Hok : table_ok blocks displs dim = true.

Lemma table_length : Z.of_nat (length displs) = blocks + 1.
Proof. pose proof Hok as H. unfold table_ok in H. unbool. assumption. Qed.

Lemma table_first : displ displs 0 = 0.
Proof. pose proof Hok as H. unfold table_ok in H. unbool. assumption. Qed.

Lemma table_last : displ displs blocks = dim.
Proof. pose proof Hok as H. unfold table_ok in H. unbool. assumption. Qed.

Lemma table_increasing : increasing displs = true.
Proof. pose proof Hok as H. unfold table_ok in H. unbool. assumption. Qed.

Lemma table_dim : 0 <= dim <= INT_MAX.
Proof.
  pose proof Hok as H. unfold table_ok in H. unbool. split; [|lia].
  pose proof table_increasing as Hinc.
  pose proof table_length as Hlen.
  assert (Hmono : forall n : nat, Z.of_nat n <= blocks ->
                                  0 <= displ displs (Z.of_nat n)).
  { induction n as [|n IH]; intros Hn.
    - change (Z.of_nat 0) with 0. lia.
    - pose proof (increasing_nth displs Hinc n ltac:(lia)) as Hs.
      specialize (IH ltac:(lia)).
      unfold displ in *. rewrite !Nat2Z.id in *. lia. }
  specialize (Hmono (Z.to_nat blocks)). rewrite Z2Nat.id in Hmono by lia.
  specialize (Hmono ltac:(lia)). lia.
Qed.

Lemma displ_step i :
  0 <= i < blocks -> displ displs i < displ displs (i + 1).
Proof.
  intros Hi. pose proof table_increasing as Hinc. pose proof table_length.
  pose proof (increasing_nth displs Hinc (Z.to_nat i) ltac:(lia)) as Hs.
  unfold displ. replace (Z.to_nat (i + 1)) with (S (Z.to_nat i)) by lia.
  exact Hs.
Qed.

Lemma displ_mono i j :
  0 <= i -> i <= j -> j <= blocks ->
  displ displs i + (j - i) <= displ displs j.
Proof.
  intros Hi Hij Hj.
  replace j with (i + Z.of_nat (Z.to_nat (j - i))) in * by lia.
  induction (Z.to_nat (j - i)) as [|n IH].
  - rewrite Z.add_0_r. lia.
  - pose proof (displ_step (i + Z.of_nat n) ltac:(lia)) as Hs.
    replace (i + Z.of_nat (S n)) with (i + Z.of_nat n + 1) by lia.
    specialize (IH ltac:(lia) ltac:(lia)). lia.
Qed.

Lemma table_blocks : 0 <= blocks <= INT_MAX.
Proof.
  pose proof Hok as H. unfold table_ok in H. unbool.
  pose proof table_length. pose proof table_dim.
  pose proof (displ_mono 0 blocks ltac:(lia) ltac:(lia) ltac:(lia)).
  rewrite table_first, table_last in *. lia.
Qed.

Lemma displ_range i : 0 <= i <= blocks -> 0 <= displ displs i <= dim.
Proof.
  intros Hi.
  pose proof (displ_mono 0 i ltac:(lia) ltac:(lia) ltac:(lia)).
  pose proof (displ_mono i blocks ltac:(lia) ltac:(lia) ltac:(lia)).
  rewrite table_first, table_last in *. lia.
Qed.

(** The block of a coordinate. *)
Lemma block_exists x :
  0 <= x < dim ->
  exists j, 0 <= j < blocks /\ displ displs j <= x < displ displs (j + 1).
Proof.
  intros Hx.
  assert (Hscan : forall k : nat,
             Z.of_nat k <= blocks -> x < displ displs (Z.of_nat k) ->
             exists j, 0 <= j < Z.of_nat k /\
                       displ displs j <= x < displ displs (j + 1)).
  { induction k as [|k IH]; intros Hk Hlt.
    - change (Z.of_nat 0) with 0 in Hlt. rewrite table_first in Hlt. lia.
    - destruct (Z.le_gt_cases (displ displs (Z.of_nat k)) x) as [Hle|Hgt].
      + exists (Z.of_nat k). split; [lia|].
        split; [exact Hle|].
        now replace (Z.of_nat k + 1) with (Z.of_nat (S k)) by lia.
      + destruct (IH ltac:(lia) ltac:(lia)) as (j & Hj & Hb).
        exists j. split; [lia|exact Hb]. }
  pose proof table_blocks.
  destruct (Hscan (Z.to_nat blocks)) as (j & Hj & Hb).
  - lia.
  - rewrite Z2Nat.id by lia. rewrite table_last. lia.
  - exists j. split; [lia|exact Hb].
Qed.

Lemma block_unique x j j' :
  0 <= j < blocks -> 0 <= j' < blocks ->
  displ displs j <= x < displ displs (j + 1) ->
  displ displs j' <= x < displ displs (j' + 1) ->
  j = j'.
Proof.
  intros Hj Hj' Hb Hb'.
  destruct (Z.lt_trichotomy j j') as [Hlt|[Heq|Hgt]]; [|exact Heq|].
  - pose proof (displ_mono (j + 1) j' ltac:(lia) ltac:(lia) ltac:(lia)). lia.
  - pose proof (displ_mono (j' + 1) j ltac:(lia) ltac:(lia) ltac:(lia)). lia.
Qed.

Lemma block_order x y j j' :
  0 <= j < blocks -> 0 <= j' < blocks ->
  displ displs j <= x < displ displs (j + 1) ->
  displ displs j' <= y < displ displs (j' + 1) ->
  x <= y -> j <= j'.
Proof.
  intros Hj Hj' Hb Hb' Hxy.
  destruct (Z.le_gt_cases j j') as [Hle|Hgt]; [exact Hle|].
  pose proof (displ_mono (j' + 1) j ltac:(lia) ltac:(lia) ltac:(lia)). lia.
Qed.

Lemma in_block_run i x w :
  0 <= i < blocks ->
  in_block displs i x w
  = Returns ((displ displs i <=? x) && (x <? displ displs (i + 1)), w).
Proof.
  intros Hi. pose proof table_length. pose proof table_blocks.
  unfold in_block. step.
  destruct (displ displs i <=? x); [|reflexivity].
  step. step. reflexivity.
Qed.

Lemma find_blocks_run first last w :
  0 <= first -> first <= last -> last < dim ->
  exists s e,
    find_blocks blocks displs first last w = Returns ((Some s, Some e), w) /\
    0 <= s /\ s <= e /\ e < blocks /\
    displ displs s <= first < displ displs (s + 1) /\
    displ displs e <= last < displ displs (e + 1).
Proof.
  intros Hf Hfl Hl. pose proof table_blocks as Hb.
  destruct (block_exists first ltac:(lia)) as (s & Hs & Hbs).
  destruct (block_exists last ltac:(lia)) as (e & He & Hbe).
  pose proof (block_order first last s e Hs He Hbs Hbe Hfl) as Hse.
  exists s, e. split; [|repeat split; lia].
  unfold find_blocks.
  match goal with
  | |- for_loop ?n ?i ?a ?body ?w0 = _ =>
      destruct (for_loop_inv
        (fun k (se : option Z * option Z) w' =>
           w' = w /\
           (if k <=? s then fst se = None else fst se = Some s) /\
           (if k <=? e then snd se = None else snd se = Some e))
        body n i a w0) as (se & w' & Hloop & -> & Hfs & Hfe);
        [| | | |rewrite Hloop]
  end.
  - unfold INT_MIN. lia.
  - lia.
  - cbn [fst snd]. destruct (Z.leb_spec 0 s); destruct (Z.leb_spec 0 e);
      (lia || auto).
  - intros k [s0 e0] w0 Hk (-> & H1 & H2). cbn [fst snd] in *.
    eexists (_, _), w. split.
    + rewrite (bind_step _ _ _ _ _ (in_block_run k first w ltac:(lia))).
      rewrite (bind_step _ _ _ _ _ (in_block_run k last w ltac:(lia))).
      reflexivity.
    + split; [reflexivity|]. cbn [fst snd]. split.
      * destruct ((displ displs k <=? first) && (first <? displ displs (k + 1)))
          eqn:E.
        -- unbool. assert (k = s) by (apply (block_unique first); lia).
           subst k. destruct (Z.leb_spec (s + 1) s); [lia|reflexivity].
        -- destruct (Z.leb_spec k s); destruct (Z.leb_spec (k + 1) s);
             try lia; try assumption.
           assert (k = s) by lia. subst k.
           apply andb_false_iff in E as [E|E];
             [apply Z.leb_gt in E|apply Z.ltb_ge in E]; lia.
      * destruct ((displ displs k <=? last) && (last <? displ displs (k + 1)))
          eqn:E.
        -- unbool. assert (k = e) by (apply (block_unique last); lia).
           subst k. destruct (Z.leb_spec (e + 1) e); [lia|reflexivity].
        -- destruct (Z.leb_spec k e); destruct (Z.leb_spec (k + 1) e);
             try lia; try assumption.
           assert (k = e) by lia. subst k.
           apply andb_false_iff in E as [E|E];
             [apply Z.leb_gt in E|apply Z.ltb_ge in E]; lia.
  - destruct se as [s0 e0]. cbn [fst snd] in *.
    destruct (Z.leb_spec (0 + Z.of_nat (Z.to_nat blocks)) s); [lia|].
    destruct (Z.leb_spec (0 + Z.of_nat (Z.to_nat blocks)) e); [lia|].
    now subst.
Qed.

End Table.

(** ** Routing a rectangle in batch mode *)

Lemma getRectIntersection_some xs0 xe0 ys0 ye0 xs1 xe1 ys1 ye1 :
  Z.max xs0 xs1 <= Z.min xe0 xe1 -> Z.max ys0 ys1 <= Z.min ye0 ye1 ->
  getRectIntersection xs0 xe0 ys0 ye0 xs1 xe1 ys1 ye1
  = Some (Z.max xs0 xs1, Z.min xe0 xe1, Z.max ys0 ys1, Z.min ye0 ye1).
Proof.
  intros Hx Hy. unfold getRectIntersection.
  destruct (Z.leb_spec (Z.max xs0 xs1) (Z.min xe0 xe1)); [|lia].
  destruct (Z.leb_spec (Z.max ys0 ys1) (Z.min ye0 ye1)); [|lia].
  reflexivity.
Qed.

Lemma rank_bounds rb cb r k :
  0 <= r < rb -> 0 <= k < cb -> 0 <= r * cb /\ r * cb + k < rb * cb.
Proof. intros Hr Hk. nia. Qed.

Lemma offset_bounds rn cn ld u rd cd :
  0 <= ld -> 0 <= u -> 0 <= rd <= rn - 1 -> 0 <= cd <= cn - 1 ->
  0 <= rd * ld <= (rn - 1) * ld /\
  0 <= (rd * ld + cd) * u <= ((rn - 1) * ld + (cn - 1)) * u.
Proof.
  intros Hld Hu Hrd Hcd.
  assert (H1 : 0 <= rd * ld <= (rn - 1) * ld) by nia.
  split; [exact H1|]. split; [nia|].
  apply Z.mul_le_mono_nonneg_r; lia.
Qed.

Lemma rank_inj cb r c r' c' :
  0 <= c < cb -> 0 <= c' < cb -> r * cb + c = r' * cb + c' ->
  r = r' /\ c = c'.
Proof.
  intros Hc Hc' E.
  assert (r = r') by nia. subst. lia.
Qed.

Lemma routed_state_start g op rs rn cs cn buf ld s_r s_c e_c :
  routed_state g op rs rn cs cn buf ld s_r s_c e_c s_r s_c (req_vec g).
Proof.
  split; [reflexivity|]. intros r' c' Hr' Hc'.
  assert (E : routed_before s_r s_c e_c s_r s_c r' c' = false).
  { unfold routed_before.
    destruct (Z.leb_spec s_c c'); destruct (Z.leb_spec c' e_c);
      destruct (Z.leb_spec s_r r'); destruct (Z.ltb_spec r' s_r);
      destruct (Z.eqb_spec r' s_r); destruct (Z.ltb_spec c' s_c);
      cbn; lia || reflexivity. }
  rewrite E. destruct (req_vec g !! _); cbn; [|reflexivity].
  now rewrite app_nil_r.
Qed.

Lemma routed_state_next_row g op rs rn cs cn buf ld s_r s_c e_c r q :
  routed_state g op rs rn cs cn buf ld s_r s_c e_c r (e_c + 1) q ->
  routed_state g op rs rn cs cn buf ld s_r s_c e_c (r + 1) s_c q.
Proof.
  intros [Hlen Hq]. split; [exact Hlen|]. intros r' c' Hr' Hc'.
  rewrite (Hq r' c' Hr' Hc').
  assert (E : routed_before s_r s_c e_c r (e_c + 1) r' c'
              = routed_before s_r s_c e_c (r + 1) s_c r' c').
  { unfold routed_before.
    destruct (Z.leb_spec s_c c'); destruct (Z.leb_spec c' e_c);
      destruct (Z.leb_spec s_r r'); destruct (Z.ltb_spec r' r);
      destruct (Z.ltb_spec r' (r + 1));
      destruct (Z.eqb_spec r' r); destruct (Z.eqb_spec r' (r + 1));
      destruct (Z.ltb_spec c' (e_c + 1)); destruct (Z.ltb_spec c' s_c);
      cbn; lia || reflexivity. }
  now rewrite E.
Qed.

Lemma routed_state_current g op rs rn cs cn buf ld s_r s_c e_c r k q :
  routed_state g op rs rn cs cn buf ld s_r s_c e_c r k q ->
  0 <= r < r_blocks g -> 0 <= k < c_blocks g ->
  Z.of_nat (length (req_vec g)) = r_blocks g * c_blocks g ->
  exists old,
    req_vec g !! Z.to_nat (r * c_blocks g + k) = Some old /\
    q !! Z.to_nat (r * c_blocks g + k) = Some old.
Proof.
  intros [Hlen Hq] Hr Hk Hn.
  destruct (lookup_lt_is_Some_2 (req_vec g) (Z.to_nat (r * c_blocks g + k)))
    as [old Hold]; [nia|].
  exists old. split; [exact Hold|].
  rewrite (Hq r k Hr Hk), Hold.
  assert (E : routed_before s_r s_c e_c r k r k = false).
  { unfold routed_before. rewrite Z.ltb_irrefl, Z.ltb_irrefl.
    now rewrite andb_false_r, orb_false_r, andb_false_r. }
  rewrite E. cbn. now rewrite app_nil_r.
Qed.

Lemma routed_state_push g op rs rn cs cn buf ld s_r s_c e_c r k q old :
  routed_state g op rs rn cs cn buf ld s_r s_c e_c r k q ->
  s_r <= r -> s_c <= k <= e_c ->
  0 <= r < r_blocks g -> 0 <= k < c_blocks g ->
  req_vec g !! Z.to_nat (r * c_blocks g + k) = Some old ->
  routed_state g op rs rn cs cn buf ld s_r s_c e_c r (k + 1)
    (<[Z.to_nat (r * c_blocks g + k) :=
         old ++ [sub_block g op rs rn cs cn buf ld r k]]> q).
Proof.
  intros [Hlen Hq] Hsr Hk Hr Hkc Hold. split.
  - now rewrite length_insert.
  - intros r' c' Hr' Hc'.
    destruct (decide (r' = r /\ c' = k)) as [[-> ->]|Hne].
    + rewrite list_lookup_insert_eq
        by (rewrite Hlen; apply lookup_lt_Some in Hold; exact Hold).
      rewrite Hold. cbn.
      assert (E : routed_before s_r s_c e_c r (k + 1) r k = true).
      { unfold routed_before.
        destruct (Z.leb_spec s_c k); destruct (Z.leb_spec k e_c);
          destruct (Z.leb_spec s_r r); destruct (Z.ltb_spec r r);
          destruct (Z.eqb_spec r r); destruct (Z.ltb_spec k (k + 1));
          cbn; lia || reflexivity. }
      now rewrite E.
    + rewrite list_lookup_insert_ne.
      2:{ intros E. apply Hne. apply (rank_inj (c_blocks g)); nia. }
      rewrite (Hq r' c' Hr' Hc').
      assert (E : routed_before s_r s_c e_c r k r' c'
                  = routed_before s_r s_c e_c r (k + 1) r' c').
      { unfold routed_before.
        destruct (Z.leb_spec s_c c'); destruct (Z.leb_spec c' e_c);
          destruct (Z.leb_spec s_r r'); destruct (Z.ltb_spec r' r);
          destruct (Z.eqb_spec r' r); destruct (Z.ltb_spec c' k);
          destruct (Z.ltb_spec c' (k + 1));
          cbn; lia || reflexivity. }
      now rewrite E.
Qed.

Lemma seqZ_snoc m n : 0 <= n -> seqZ m (n + 1) = seqZ m n ++ [m + n].
Proof.
  intros Hn. rewrite seqZ_app by lia.
  rewrite (seqZ_cons (m + n) 1) by lia.
  rewrite (seqZ_nil _ (Z.pred 1)) by lia. reflexivity.
Qed.

Lemma processed_pairs_start g op rs rn cs cn buf ld s_r s_c e_c :
  processed_pairs g op rs rn cs cn buf ld s_r s_c e_c s_r s_c = [].
Proof.
  unfold processed_pairs. rewrite !Z.sub_diag.
  now rewrite (seqZ_nil s_r 0), (seqZ_nil s_c 0) by lia.
Qed.

Lemma processed_pairs_push g op rs rn cs cn buf ld s_r s_c e_c r k :
  s_c <= k ->
  processed_pairs g op rs rn cs cn buf ld s_r s_c e_c r (k + 1)
  = processed_pairs g op rs rn cs cn buf ld s_r s_c e_c r k
    ++ [block_pair g op rs rn cs cn buf ld r k].
Proof.
  intros Hk. unfold processed_pairs.
  replace (k + 1 - s_c) with (k - s_c + 1) by lia.
  rewrite (seqZ_snoc s_c (k - s_c)), fmap_app, app_assoc by lia. cbn.
  now replace (s_c + (k - s_c)) with k by lia.
Qed.

Lemma processed_pairs_next_row g op rs rn cs cn buf ld s_r s_c e_c r :
  s_r <= r ->
  processed_pairs g op rs rn cs cn buf ld s_r s_c e_c r (e_c + 1)
  = processed_pairs g op rs rn cs cn buf ld s_r s_c e_c (r + 1) s_c.
Proof.
  intros Hr. unfold processed_pairs.
  replace (r + 1 - s_r) with (r - s_r + 1) by lia.
  rewrite (seqZ_snoc s_r (r - s_r)), bind_app by lia. cbn.
  rewrite Z.sub_diag, (seqZ_nil s_c 0), !app_nil_r by lia.
  replace (s_r + (r - s_r)) with r by lia.
  now replace (e_c + 1 - s_c) with (e_c - s_c + 1) by lia.
Qed.

Lemma processed_pairs_all g op rs rn cs cn buf ld s_r e_r s_c e_c :
  processed_pairs g op rs rn cs cn buf ld s_r s_c e_c (e_r + 1) s_c
  = routed_pairs g op rs rn cs cn buf ld s_r e_r s_c e_c.
Proof.
  unfold processed_pairs, routed_pairs.
  rewrite Z.sub_diag, (seqZ_nil s_c 0), app_nil_r by lia.
  now replace (e_r + 1 - s_r) with (e_r - s_r + 1) by lia.
Qed.

Lemma routed_pairs_elem g op rs rn cs cn buf ld s_r e_r s_c e_c d e :
  (d, e) ∈ routed_pairs g op rs rn cs cn buf ld s_r e_r s_c e_c <->
  exists r c, s_r <= r <= e_r /\ s_c <= c <= e_c /\
              d = r * c_blocks g + c /\
              e = sub_block g op rs rn cs cn buf ld r c.
Proof.
  unfold routed_pairs. rewrite list_elem_of_bind. split.
  - intros (r & Hin & Hr). apply list_elem_of_fmap in Hin as (c & E & Hc).
    apply elem_of_seqZ in Hr. apply elem_of_seqZ in Hc.
    injection E as -> ->. exists r, c. repeat split; lia.
  - intros (r & c & Hr & Hc & -> & ->). exists r. split.
    + apply list_elem_of_fmap. exists c. split; [reflexivity|].
      apply elem_of_seqZ. lia.
    + apply elem_of_seqZ. lia.
Qed.

(** A run of GTM_updateBlock in either access mode: immediate mode issues
    the calls of the routed pairs in order, batch mode appends them to the
    request vectors. *)
Lemma updateBlock_run g t op rs rn cs cn buf ld access_mode :
  partition_ok g = true -> grid_ok g = true -> queues_ok g = true ->
  in_bounds g rs rn cs cn = true ->
  route_arith_ok g rn cn ld = true ->
  exists s_r e_r s_c e_c,
    (0 <= s_r /\ s_r <= e_r /\ e_r < r_blocks g /\
     displ (r_displs g) s_r <= rs < displ (r_displs g) (s_r + 1) /\
     displ (r_displs g) e_r <= rs + rn - 1 < displ (r_displs g) (e_r + 1)) /\
    (0 <= s_c /\ s_c <= e_c /\ e_c < c_blocks g /\
     displ (c_displs g) s_c <= cs < displ (c_displs g) (s_c + 1) /\
     displ (c_displs g) e_c <= cs + cn - 1 < displ (c_displs g) (e_c + 1)) /\
    (((access_mode =? BLOCKING_ACCESS) = true ->
      forall p, p ∈ routed_pairs g op rs rn cs cn buf ld s_r e_r s_c e_c ->
                replay_defined g p.1 p.2 = true) ->
     exists q',
       GTM_updateBlock op rs rn cs cn buf ld access_mode (mkWorld g t)
       = Returns (tt, mkWorld (set_req_vec g q')
                        (t ++ if access_mode =? BLOCKING_ACCESS
                              then flat_map (pair_calls g)
                                     (routed_pairs g op rs rn cs cn buf ld
                                        s_r e_r s_c e_c)
                              else [])) /\
       if access_mode =? BATCH_ACCESS
       then routed_state g op rs rn cs cn buf ld s_r s_c e_c (e_r + 1) s_c q'
       else q' = req_vec g).
Proof.
  intros Hpart Hgrid Hqueues Hin Har.
  unfold partition_ok in Hpart. apply andb_true_iff in Hpart as [Hrows Hcols].
  unfold grid_ok in Hgrid. unfold queues_ok in Hqueues.
  unfold in_bounds in Hin. unfold route_arith_ok in Har. unbool.
  pose proof (table_dim _ _ _ Hrows) as Hnrows.
  pose proof (table_dim _ _ _ Hcols) as Hncols.
  pose proof (table_blocks _ _ _ Hrows) as Hrb.
  pose proof (table_blocks _ _ _ Hcols) as Hcb.
  pose proof (table_length _ _ _ Hrows) as Hrlen.
  pose proof (table_length _ _ _ Hcols) as Hclen.
  destruct (find_blocks_run _ _ _ Hrows rs (rs + rn - 1) (mkWorld g t))
    as (s_r & e_r & Hfr & Hsr0 & Hser & Her & Hbsr & Hber); try lia.
  destruct (find_blocks_run _ _ _ Hcols cs (cs + cn - 1) (mkWorld g t))
    as (s_c & e_c & Hfc & Hsc0 & Hsec & Hec & Hbsc & Hbec); try lia.
  exists s_r, e_r, s_c, e_c.
  split; [repeat split; lia|]. split; [repeat split; lia|].
  intros Hdef.
  set (blk := access_mode =? BLOCKING_ACCESS) in *.
  set (bat := access_mode =? BATCH_ACCESS) in *.
  unfold GTM_updateBlock. step.
  destruct (Z.ltb_spec rs 0); [lia|]. destruct (Z.ltb_spec cs 0); [lia|].
  cbn [orb]. step. rewrite Z.gtb_ltb.
  destruct (Z.ltb_spec (nrows g) (rs + rn)); [lia|]. step.
  rewrite Z.gtb_ltb.
  destruct (Z.ltb_spec (ncols g) (cs + cn)); [lia|]. step.
  destruct (Z.eqb_spec (rn * cn) 0); [nia|]. step. step.
  rewrite (bind_step _ _ _ _ _ Hfr). rewrite (bind_step _ _ _ _ _ Hfc).
  cbn [fst snd read_var]. step. step.
  pose (Inv := fun r k (w' : world) =>
    exists q,
      w' = mkWorld (set_req_vec g q)
             (t ++ if blk
                   then flat_map (pair_calls g)
                          (processed_pairs g op rs rn cs cn buf ld
                             s_r s_c e_c r k)
                   else []) /\
      if bat then routed_state g op rs rn cs cn buf ld s_r s_c e_c r k q
      else q = req_vec g).
  match goal with
  | |- context [for_loop ?n ?i ?a ?body ?w0] =>
      destruct (for_loop_inv (fun r (_ : unit) w' => Inv r s_c w')
                  body n i a w0) as ([] & w' & Hloop & q' & -> & Hq')
  end.
  - unfold INT_MIN. lia.
  - lia.
  - exists (req_vec g). split.
    + rewrite set_req_vec_same, processed_pairs_start.
      destruct blk; cbn; now rewrite app_nil_r.
    + destruct bat; [apply routed_state_start|reflexivity].
  - intros r [] w0 Hr (q & -> & Hq).
    pose proof (displ_range _ _ _ Hrows r ltac:(lia)) as Hd0.
    pose proof (displ_range _ _ _ Hrows (r + 1) ltac:(lia)) as Hd1.
    pose proof (displ_step _ _ _ Hrows r ltac:(lia)) as Hd2.
    pose proof (displ_mono _ _ _ Hrows r e_r ltac:(lia) ltac:(lia)
                  ltac:(lia)) as Hm0.
    pose proof (displ_mono _ _ _ Hrows (s_r + 1) (r + 1) ltac:(lia)
                  ltac:(lia) ltac:(lia)) as Hm1.
    step. cbn [set_req_vec r_displs c_displs c_blocks unit_size mpi_win
               req_vec].
    do 6 step.
    match goal with
    | |- context [for_loop ?n ?i ?a ?body ?w0] =>
        destruct (for_loop_inv (fun k (_ : unit) w' => Inv r k w')
                    body n i a w0) as ([] & w' & Hloop & q' & -> & Hq')
    end.
    + unfold INT_MIN. lia.
    + lia.
    + exists q. split; [reflexivity|exact Hq].
    + intros k [] w0 Hk (q1 & -> & Hq1).
      pose proof (displ_range _ _ _ Hcols k ltac:(lia)) as Hc0.
      pose proof (displ_range _ _ _ Hcols (k + 1) ltac:(lia)) as Hc1.
      pose proof (displ_step _ _ _ Hcols k ltac:(lia)) as Hc2.
      pose proof (displ_mono _ _ _ Hcols k e_c ltac:(lia) ltac:(lia)
                    ltac:(lia)) as Hn0.
      pose proof (displ_mono _ _ _ Hcols (s_c + 1) (k + 1) ltac:(lia)
                    ltac:(lia) ltac:(lia)) as Hn1.
      step. cbn [set_req_vec r_displs c_displs c_blocks unit_size mpi_win
                 req_vec].
      pose proof (rank_bounds (r_blocks g) (c_blocks g) r k ltac:(lia)
                    ltac:(lia)) as [Hrk0 Hrk1].
      do 6 step.
      rewrite getRectIntersection_some by lia. cbv iota beta.
      match goal with
      | |- context [isub (Z.max ?a rs) rs] =>
          match goal with
          | |- context [isub (Z.max ?b cs) cs] =>
              pose proof (offset_bounds rn cn ld (unit_size g)
                            (Z.max a rs - rs) (Z.max b cs - cs)
                            ltac:(lia) ltac:(lia) ltac:(lia) ltac:(lia))
                as [Hof0 Hof1]
          end
      end.
      do 9 step.
      (* the two dispatches *)
      assert (Hpair : block_pair g op rs rn cs cn buf ld r k
                      ∈ routed_pairs g op rs rn cs cn buf ld s_r e_r s_c e_c).
      { apply routed_pairs_elem. exists r, k. repeat split; lia. }
      fold blk. fold bat. unfold Inv.
      rewrite processed_pairs_push by lia.
      destruct blk eqn:Eblk.
      * pose proof (replay_run g q1
                      (t ++ flat_map (pair_calls g)
                              (processed_pairs g op rs rn cs cn buf ld
                                 s_r s_c e_c r k)
                       ++ [Win_lock MPI_LOCK_SHARED (r * c_blocks g + k) 0
                             (mpi_win g)])
                      _ _ (Hdef eq_refl _ Hpair)) as Hrep.
        unfold replay in Hrep. cbn [block_pair fst snd sub_block req_op
          req_row_start req_row_num req_col_start req_col_num req_src_buf
          req_src_buf_ld] in Hrep.
        rewrite bind_bind. step. rewrite bind_bind.
        rewrite <- app_assoc. rewrite (bind_step _ _ _ _ _ Hrep).
        step.
        destruct bat eqn:Ebat.
        -- destruct (routed_state_current _ _ _ _ _ _ _ _ _ _ _ _ _ _ Hq1
                       ltac:(lia) ltac:(lia) ltac:(lia))
             as (old & Hold & Hcur).
           step. cbn [set_req_vec r_displs c_displs c_blocks unit_size
                      mpi_win req_vec].
           step. unfold put_mat. cbn [gt_mat issued].
           eexists tt, _. split; [reflexivity|].
           eexists. split.
           ++ f_equal. rewrite flat_map_app. cbn [flat_map].
              unfold pair_calls at 2. cbn [fst snd block_pair].
              rewrite app_nil_r, <- !app_assoc. reflexivity.
           ++ exact (routed_state_push g op rs rn cs cn buf ld s_r s_c e_c
                       r k q1 old Hq1 ltac:(lia) ltac:(lia) ltac:(lia)
                       ltac:(lia) Hold).
        -- unfold ret. eexists tt, _. split; [reflexivity|].
           exists q1. split; [|exact Hq1].
           f_equal. rewrite flat_map_app. cbn [flat_map].
           unfold pair_calls at 2. cbn [fst snd block_pair].
           rewrite app_nil_r, <- !app_assoc. reflexivity.
      * step.
        destruct bat eqn:Ebat.
        -- destruct (routed_state_current _ _ _ _ _ _ _ _ _ _ _ _ _ _ Hq1
                       ltac:(lia) ltac:(lia) ltac:(lia))
             as (old & Hold & Hcur).
           step. cbn [set_req_vec r_displs c_displs c_blocks unit_size
                      mpi_win req_vec].
           step. unfold put_mat. cbn [gt_mat issued].
           eexists tt, _. split; [reflexivity|].
           eexists. split; [reflexivity|].
           exact (routed_state_push g op rs rn cs cn buf ld s_r s_c e_c
                    r k q1 old Hq1 ltac:(lia) ltac:(lia) ltac:(lia)
                    ltac:(lia) Hold).
        -- unfold ret. eexists tt, _. split; [reflexivity|].
           exists q1. split; [reflexivity|exact Hq1].
    + eexists tt, _. split; [exact Hloop|].
      exists q'. unfold Inv in *.
      replace (s_c + Z.of_nat (Z.to_nat (e_c - s_c + 1))) with (e_c + 1)
        in * by lia.
      rewrite processed_pairs_next_row in * by lia.
      split; [reflexivity|].
      destruct bat; [now apply routed_state_next_row|exact Hq'].
  - exists q'. unfold Inv in *.
    replace (s_r + Z.of_nat (Z.to_nat (e_r - s_r + 1))) with (e_r + 1)
      in * by lia.
    rewrite processed_pairs_all in *.
    split; [rewrite Hloop; reflexivity|exact Hq'].
Qed.

Lemma updateBlock_batch_run g t op rs rn cs cn buf ld :
  BATCH_ACCESS <> BLOCKING_ACCESS ->
  partition_ok g = true -> grid_ok g = true -> queues_ok g = true ->
  in_bounds g rs rn cs cn = true ->
  route_arith_ok g rn cn ld = true ->
  exists s_r e_r s_c e_c q',
    (0 <= s_r /\ s_r <= e_r /\ e_r < r_blocks g /\
     displ (r_displs g) s_r <= rs < displ (r_displs g) (s_r + 1) /\
     displ (r_displs g) e_r <= rs + rn - 1 < displ (r_displs g) (e_r + 1)) /\
    (0 <= s_c /\ s_c <= e_c /\ e_c < c_blocks g /\
     displ (c_displs g) s_c <= cs < displ (c_displs g) (s_c + 1) /\
     displ (c_displs g) e_c <= cs + cn - 1 < displ (c_displs g) (e_c + 1)) /\
    GTM_updateBlock op rs rn cs cn buf ld BATCH_ACCESS (mkWorld g t)
    = Returns (tt, mkWorld (set_req_vec g q') t) /\
    routed_state g op rs rn cs cn buf ld s_r s_c e_c (e_r + 1) s_c q'.
Proof.
  intros Hmode Hpart Hgrid Hqueues Hin Har.
  destruct (updateBlock_run g t op rs rn cs cn buf ld BATCH_ACCESS
              Hpart Hgrid Hqueues Hin Har)
    as (s_r & e_r & s_c & e_c & Hr & Hc & Hrun).
  exists s_r, e_r, s_c, e_c.
  destruct (Z.eqb_spec BATCH_ACCESS BLOCKING_ACCESS) as [E|_];
    [contradiction|].
  rewrite Z.eqb_refl in Hrun.
  destruct Hrun as (q' & Hrun & Hq'); [discriminate|].
  exists q'. rewrite app_nil_r in Hrun. auto.
Qed.

Lemma updateBlock_batch_queues g t op rs rn cs cn buf ld :
  BATCH_ACCESS <> BLOCKING_ACCESS ->
  partition_ok g = true -> grid_ok g = true -> queues_ok g = true ->
  in_bounds g rs rn cs cn = true ->
  route_arith_ok g rn cn ld = true ->
  exists s_r e_r s_c e_c q',
    (0 <= s_r /\ s_r <= e_r /\ e_r < r_blocks g /\
     displ (r_displs g) s_r <= rs < displ (r_displs g) (s_r + 1) /\
     displ (r_displs g) e_r <= rs + rn - 1 < displ (r_displs g) (e_r + 1)) /\
    (0 <= s_c /\ s_c <= e_c /\ e_c < c_blocks g /\
     displ (c_displs g) s_c <= cs < displ (c_displs g) (s_c + 1) /\
     displ (c_displs g) e_c <= cs + cn - 1 < displ (c_displs g) (e_c + 1)) /\
    GTM_updateBlock op rs rn cs cn buf ld BATCH_ACCESS (mkWorld g t)
    = Returns (tt, mkWorld (set_req_vec g q') t) /\
    length q' = length (req_vec g) /\
    forall d old,
      0 <= d -> req_vec g !! Z.to_nat d = Some old ->
      0 < c_blocks g /\ 0 <= d / c_blocks g < r_blocks g /\
      q' !! Z.to_nat d
      = Some (old ++ routed_to g op rs rn cs cn buf ld s_r e_r s_c e_c d).
Proof.
  intros Hmode Hpart Hgrid Hqueues Hin Har.
  destruct (updateBlock_batch_run g t op rs rn cs cn buf ld
              Hmode Hpart Hgrid Hqueues Hin Har)
    as (s_r & e_r & s_c & e_c & q' & Hr & Hc & Hrun & Hlen & Hq').
  exists s_r, e_r, s_c, e_c, q'. repeat split; try tauto.
  - unfold partition_ok in Hpart. apply andb_true_iff in Hpart as [_ Hcols].
    pose proof (table_blocks _ _ _ Hcols). lia.
  - apply Z.div_pos; lia.
  - unfold partition_ok in Hpart. apply andb_true_iff in Hpart as [Hrows Hcols].
    pose proof (table_blocks _ _ _ Hcols).
    pose proof (table_blocks _ _ _ Hrows).
    unfold grid_ok in Hgrid. unfold queues_ok in Hqueues. unbool.
    apply lookup_lt_Some in H0.
    apply Z.div_lt_upper_bound; nia.
  - unfold partition_ok in Hpart. apply andb_true_iff in Hpart as [Hrows Hcols].
    pose proof (table_blocks _ _ _ Hcols) as Hcb.
    pose proof (table_blocks _ _ _ Hrows) as Hrb.
    unfold grid_ok in Hgrid. unfold queues_ok in Hqueues. unbool.
    pose proof (lookup_lt_Some _ _ _ H0) as Hd.
    assert (Hcpos : 0 < c_blocks g) by nia.
    pose proof (Z.mod_pos_bound d (c_blocks g) Hcpos) as Hm.
    assert (Hdiv : 0 <= d / c_blocks g < r_blocks g).
    { split; [apply Z.div_pos; lia|apply Z.div_lt_upper_bound; nia]. }
    pose proof (Z.div_mod d (c_blocks g) ltac:(lia)) as Hdm.
    specialize (Hq' (d / c_blocks g) (d mod c_blocks g) Hdiv Hm).
    replace (d / c_blocks g * c_blocks g + d mod c_blocks g) with d
      in Hq' by lia.
    rewrite Hq', H0. cbn. do 2 f_equal. unfold routed_to, routed_before.
    cbv zeta.
    destruct (Z.leb_spec s_r (d / c_blocks g));
      destruct (Z.leb_spec (d / c_blocks g) e_r);
      destruct (Z.leb_spec s_c (d mod c_blocks g));
      destruct (Z.leb_spec (d mod c_blocks g) e_c);
      destruct (Z.ltb_spec (d / c_blocks g) (e_r + 1));
      destruct (Z.eqb_spec (d / c_blocks g) (e_r + 1));
      destruct (Z.ltb_spec (d mod c_blocks g) s_c);
      cbn; lia || reflexivity.
Qed.

Lemma sub_block_extent g op rs rn cs cn buf ld r c :
  let e := sub_block g op rs rn cs cn buf ld r c in
  req_row_start e = Z.max (displ (r_displs g) r) rs /\
  req_row_start e + req_row_num e
  = Z.min (displ (r_displs g) (r + 1)) (rs + rn) /\
  req_col_start e = Z.max (displ (c_displs g) c) cs /\
  req_col_start e + req_col_num e
  = Z.min (displ (c_displs g) (c + 1)) (cs + cn).
Proof. cbn. lia. Qed.

Lemma routed_to_elem g op rs rn cs cn buf ld s_r e_r s_c e_c d e :
  e ∈ routed_to g op rs rn cs cn buf ld s_r e_r s_c e_c d ->
  (s_r <= d / c_blocks g <= e_r /\ s_c <= d mod c_blocks g <= e_c) /\
  e = sub_block g op rs rn cs cn buf ld (d / c_blocks g) (d mod c_blocks g).
Proof.
  unfold routed_to. cbv zeta.
  destruct (Z.leb_spec s_r (d / c_blocks g));
    destruct (Z.leb_spec (d / c_blocks g) e_r);
    destruct (Z.leb_spec s_c (d mod c_blocks g));
    destruct (Z.leb_spec (d mod c_blocks g) e_c); cbn;
    intros He; try (now apply elem_of_nil in He).
  apply list_elem_of_singleton in He. split; [lia|exact He].
Qed.

Lemma rank_div_mod cb r c :
  0 <= c < cb -> (r * cb + c) / cb = r /\ (r * cb + c) mod cb = c.
Proof.
  intros Hc. split.
  - symmetry. apply (Z.div_unique_pos _ _ r c); lia.
  - symmetry. apply (Z.mod_unique_pos _ _ r c); lia.
Qed.

Lemma routed_to_pairs g op rs rn cs cn buf ld s_r e_r s_c e_c d e :
  0 <= d -> 0 < c_blocks g -> 0 <= s_c -> e_c < c_blocks g ->
  e ∈ routed_to g op rs rn cs cn buf ld s_r e_r s_c e_c d <->
  (d, e) ∈ routed_pairs g op rs rn cs cn buf ld s_r e_r s_c e_c.
Proof.
  intros Hd Hcb Hsc Hec. rewrite routed_pairs_elem. split.
  - intros He. apply routed_to_elem in He as [[Hr Hc] ->].
    exists (d / c_blocks g), (d mod c_blocks g).
    pose proof (Z.div_mod d (c_blocks g) ltac:(lia)).
    repeat split; lia.
  - intros (r & c & Hr & Hc & -> & ->).
    destruct (rank_div_mod (c_blocks g) r c ltac:(lia)) as [Ediv Emod].
    unfold routed_to. cbv zeta. rewrite Ediv, Emod.
    destruct (Z.leb_spec s_r r); destruct (Z.leb_spec r e_r);
      destruct (Z.leb_spec s_c c); destruct (Z.leb_spec c e_c);
      cbn; try lia.
    apply list_elem_of_here.
Qed.

Lemma routed_pairs_NoDup g op rs rn cs cn buf ld s_r e_r s_c e_c :
  0 <= s_c -> e_c < c_blocks g ->
  NoDup (routed_pairs g op rs rn cs cn buf ld s_r e_r s_c e_c).*1.
Proof.
  intros Hsc Hec.
  assert (Hinj : forall p p',
             p ∈ routed_pairs g op rs rn cs cn buf ld s_r e_r s_c e_c ->
             p' ∈ routed_pairs g op rs rn cs cn buf ld s_r e_r s_c e_c ->
             p.1 = p'.1 -> p = p').
  { intros [d e] [d' e'] Hp Hp' E. cbn in E. subst d'.
    apply routed_pairs_elem in Hp as (r & c & Hr & Hc & -> & ->).
    apply routed_pairs_elem in Hp' as (r' & c' & Hr' & Hc' & E & ->).
    apply (rank_inj (c_blocks g)) in E as [-> ->]; [reflexivity|lia|lia]. }
  apply NoDup_fmap_2_strong; [exact Hinj|].
  unfold routed_pairs. apply NoDup_bind.
  - intros r1 r2 p Hr1 Hr2 H1 H2.
    apply list_elem_of_fmap in H1 as (c1 & -> & Hc1).
    apply list_elem_of_fmap in H2 as (c2 & E & Hc2).
    apply elem_of_seqZ in Hc1. apply elem_of_seqZ in Hc2.
    injection E as E _.
    apply (rank_inj (c_blocks g)) in E as [-> _]; [reflexivity|lia|lia].
  - intros r _. apply NoDup_fmap_2_strong; [|apply NoDup_seqZ].
    intros c1 c2 Hc1 Hc2 E. injection E as E _. lia.
  - apply NoDup_seqZ.
Qed.

Ltac bool_goal :=
  repeat (apply andb_true_iff; split);
  first [apply Z.leb_le | apply Z.ltb_lt | apply Z.eqb_eq | apply in_int_iff].

Lemma sub_block_replay_defined g op rs rn cs cn buf ld s_r e_r s_c e_c r c :
  partition_ok g = true -> grid_ok g = true ->
  in_bounds g rs rn cs cn = true ->
  route_arith_ok g rn cn ld = true ->
  cache_ok MPI_DT_SB_DIM_MAX g = true ->
  immediate_arith_ok g ld = true ->
  (0 <= s_r /\ s_r <= e_r /\ e_r < r_blocks g /\
   displ (r_displs g) s_r <= rs < displ (r_displs g) (s_r + 1) /\
   displ (r_displs g) e_r <= rs + rn - 1 < displ (r_displs g) (e_r + 1)) ->
  (0 <= s_c /\ s_c <= e_c /\ e_c < c_blocks g /\
   displ (c_displs g) s_c <= cs < displ (c_displs g) (s_c + 1) /\
   displ (c_displs g) e_c <= cs + cn - 1 < displ (c_displs g) (e_c + 1)) ->
  s_r <= r <= e_r -> s_c <= c <= e_c ->
  replay_defined g (r * c_blocks g + c)
    (sub_block g op rs rn cs cn buf ld r c) = true.
Proof.
  intros Hpart Hgrid Hin Har Hcache Him
    (Hsr0 & Hser & Her & Hbsr & Hber) (Hsc0 & Hsec & Hec & Hbsc & Hbec)
    Hr Hc.
  unfold partition_ok in Hpart. apply andb_true_iff in Hpart as [Hrows Hcols].
  unfold grid_ok in Hgrid. unfold in_bounds in Hin.
  unfold route_arith_ok in Har. unfold immediate_arith_ok in Him. unbool.
  pose proof (table_dim _ _ _ Hrows) as Hnrows.
  pose proof (table_dim _ _ _ Hcols) as Hncols.
  pose proof (table_blocks _ _ _ Hrows) as Hrb.
  pose proof (table_blocks _ _ _ Hcols) as Hcb.
  pose proof (table_length _ _ _ Hrows) as Hrlen.
  pose proof (table_length _ _ _ Hcols) as Hclen.
  pose proof (displ_range _ _ _ Hrows r ltac:(lia)) as Hd0.
  pose proof (displ_range _ _ _ Hrows (r + 1) ltac:(lia)) as Hd1.
  pose proof (displ_step _ _ _ Hrows r ltac:(lia)) as Hd2.
  pose proof (displ_mono _ _ _ Hrows r e_r ltac:(lia) ltac:(lia) ltac:(lia))
    as Hm0.
  pose proof (displ_mono _ _ _ Hrows (s_r + 1) (r + 1) ltac:(lia) ltac:(lia)
                ltac:(lia)) as Hm1.
  pose proof (displ_range _ _ _ Hcols c ltac:(lia)) as Hc0.
  pose proof (displ_range _ _ _ Hcols (c + 1) ltac:(lia)) as Hc1.
  pose proof (displ_step _ _ _ Hcols c ltac:(lia)) as Hc2.
  pose proof (displ_mono _ _ _ Hcols c e_c ltac:(lia) ltac:(lia) ltac:(lia))
    as Hn0.
  pose proof (displ_mono _ _ _ Hcols (s_c + 1) (c + 1) ltac:(lia) ltac:(lia)
                ltac:(lia)) as Hn1.
  pose proof (rank_bounds (r_blocks g) (c_blocks g) r c ltac:(lia)
                ltac:(lia)) as [Hrk0 Hrk1].
  pose proof (rank_div_mod (c_blocks g) r c ltac:(lia)) as [Ediv Emod].
  set (d := r * c_blocks g + c) in *.
  set (r0 := Z.max (displ (r_displs g) r) rs).
  set (r1 := Z.min (displ (r_displs g) (r + 1) - 1) (rs + rn - 1)).
  set (c0 := Z.max (displ (c_displs g) c) cs).
  set (c1 := Z.min (displ (c_displs g) (c + 1) - 1) (cs + cn - 1)).
  assert (Equot : Z.quot d (c_blocks g) = r)
    by (rewrite Z.quot_div_nonneg by lia; exact Ediv).
  assert (Erem : Z.rem d (c_blocks g) = c)
    by (rewrite Z.rem_mod_nonneg by lia; exact Emod).
  assert (Hown : owner_ok g d = true).
  { unfold owner_ok. bool_goal; int_range. }
  assert (Hins : inside_region g d r0 (r1 - r0 + 1) c0 (c1 - c0 + 1) = true).
  { unfold inside_region, region_row_start, region_row_end,
      region_col_start, region_col_end.
    rewrite Equot, Erem. bool_goal; int_range. }
  assert (Hrows_le : 0 <= (r0 - displ (r_displs g) r) * ld_local g
                     <= nrows g * ld_local g).
  { split; [apply Z.mul_nonneg_nonneg; lia|].
    apply Z.mul_le_mono_nonneg_r; lia. }
  assert (Harea : 0 <= (r1 - r0 + 1) * (c1 - c0 + 1) <= rn * cn).
  { split; [apply Z.mul_nonneg_nonneg; lia|].
    apply Z.mul_le_mono_nonneg; lia. }
  assert (Hrow_bytes : 0 <= (c1 - c0 + 1) * unit_size g
                       <= ncols g * unit_size g).
  { split; [apply Z.mul_nonneg_nonneg; lia|].
    apply Z.mul_le_mono_nonneg_r; lia. }
  assert (Hua : update_arith_ok g d r0 (r1 - r0 + 1) c0 (c1 - c0 + 1) ld
                = true).
  { unfold update_arith_ok, region_row_start, region_col_start.
    rewrite Equot, Erem. bool_goal; int_range. }
  destruct (updateBlockToProcess_run g [] d op r0 (r1 - r0 + 1) c0
              (c1 - c0 + 1)
              (buf + ((r0 - rs) * ld + (c0 - cs)) * unit_size g) ld
              Hown Hins Hua Hcache) as (calls & Hrun & _).
  unfold replay_defined, replay, sub_block.
  cbn [req_op req_row_start req_row_num req_col_start req_col_num
       req_src_buf req_src_buf_ld].
  fold r0 r1 c0 c1. now rewrite Hrun.
Qed.

(** C1.  The router produces a list of (destination rank, sub-rectangle)
    pairs, which batch mode appends to the request vectors of the ranks
    and immediate mode writes one after the other, each inside a
    lock/unlock pair.  For an in-bounds rectangle of positive extent the
    pairs tile the rectangle: no rank occurs twice, every sub-rectangle has
    positive extent and lies in the rectangle and in the region of its
    rank, and every cell of the rectangle lies in the sub-rectangle of
    exactly one pair. *)
Theorem updateBlock_tiles_rectangle g t op rs rn cs cn buf ld :
  BATCH_ACCESS <> BLOCKING_ACCESS ->
  partition_ok g = true -> grid_ok g = true -> queues_ok g = true ->
  in_bounds g rs rn cs cn = true ->
  route_arith_ok g rn cn ld = true ->
  exists pairs : list (Z * Req_Entry),
    (exists q',
        GTM_updateBlock op rs rn cs cn buf ld BATCH_ACCESS (mkWorld g t)
        = Returns (tt, mkWorld (set_req_vec g q') t) /\
        forall d old,
          0 <= d -> req_vec g !! Z.to_nat d = Some old ->
          exists new,
            q' !! Z.to_nat d = Some (old ++ new) /\
            forall e, e ∈ new <-> (d, e) ∈ pairs) /\
    (cache_ok MPI_DT_SB_DIM_MAX g = true ->
     immediate_arith_ok g ld = true ->
     GTM_updateBlock op rs rn cs cn buf ld BLOCKING_ACCESS (mkWorld g t)
     = Returns (tt, mkWorld g (t ++ flat_map (pair_calls g) pairs))) /\
    NoDup pairs.*1 /\
    (forall d e,
        (d, e) ∈ pairs ->
        (0 < req_row_num e /\ 0 < req_col_num e) /\
        (rs <= req_row_start e /\
         req_row_start e + req_row_num e <= rs + rn /\
         cs <= req_col_start e /\
         req_col_start e + req_col_num e <= cs + cn) /\
        (region_row_start g d <= req_row_start e /\
         req_row_start e + req_row_num e <= region_row_end g d /\
         region_col_start g d <= req_col_start e /\
         req_col_start e + req_col_num e <= region_col_end g d)) /\
    (forall i j,
        rs <= i < rs + rn -> cs <= j < cs + cn ->
        exists d e,
          (d, e) ∈ pairs /\ covers e i j /\
          forall d' e',
            (d', e') ∈ pairs -> covers e' i j -> d' = d /\ e' = e).
Proof.
  intros Hmode Hpart Hgrid Hqueues Hin Har.
  destruct (updateBlock_batch_queues g t op rs rn cs cn buf ld
              Hmode Hpart Hgrid Hqueues Hin Har)
    as (s_r & e_r & s_c & e_c & q' & Hr & Hc & Hrun & Hlen & Hq').
  destruct (updateBlock_run g t op rs rn cs cn buf ld BLOCKING_ACCESS
              Hpart Hgrid Hqueues Hin Har)
    as (s_r' & e_r' & s_c' & e_c' & Hr' & Hc' & Hblk).
  pose proof (fun Hcache Him r c =>
                sub_block_replay_defined g op rs rn cs cn buf ld
                  s_r e_r s_c e_c r c Hpart Hgrid Hin Har Hcache Him Hr Hc)
    as Hreplay.
  unfold partition_ok in Hpart. apply andb_true_iff in Hpart as [Hrows Hcols].
  unfold in_bounds in Hin. unfold grid_ok in Hgrid.
  unfold queues_ok in Hqueues. unbool.
  pose proof (table_blocks _ _ _ Hcols) as Hcb.
  pose proof (table_blocks _ _ _ Hrows) as Hrb.
  destruct Hr as (Hsr0 & Hser & Her & Hbsr & Hber).
  destruct Hc as (Hsc0 & Hsec & Hec & Hbsc & Hbec).
  assert (s_r' = s_r) by (apply (block_unique _ _ _ Hrows rs); lia).
  assert (e_r' = e_r) by (apply (block_unique _ _ _ Hrows (rs + rn - 1)); lia).
  assert (s_c' = s_c) by (apply (block_unique _ _ _ Hcols cs); lia).
  assert (e_c' = e_c) by (apply (block_unique _ _ _ Hcols (cs + cn - 1)); lia).
  subst s_r' e_r' s_c' e_c'. clear Hr' Hc'.
  assert (Hsub : forall r c,
             s_r <= r <= e_r -> s_c <= c <= e_c ->
             displ (r_displs g) r < rs + rn /\
             rs < displ (r_displs g) (r + 1) /\
             displ (r_displs g) r < displ (r_displs g) (r + 1) /\
             displ (c_displs g) c < cs + cn /\
             cs < displ (c_displs g) (c + 1) /\
             displ (c_displs g) c < displ (c_displs g) (c + 1)).
  { intros r c Hr Hc.
    pose proof (displ_step _ _ _ Hrows r ltac:(lia)).
    pose proof (displ_mono _ _ _ Hrows r e_r ltac:(lia) ltac:(lia)
                  ltac:(lia)).
    pose proof (displ_mono _ _ _ Hrows (s_r + 1) (r + 1) ltac:(lia)
                  ltac:(lia) ltac:(lia)).
    pose proof (displ_step _ _ _ Hcols c ltac:(lia)).
    pose proof (displ_mono _ _ _ Hcols c e_c ltac:(lia) ltac:(lia)
                  ltac:(lia)).
    pose proof (displ_mono _ _ _ Hcols (s_c + 1) (c + 1) ltac:(lia)
                  ltac:(lia) ltac:(lia)).
    lia. }
  exists (routed_pairs g op rs rn cs cn buf ld s_r e_r s_c e_c).
  split; [|split; [|split; [|split]]].
  - exists q'. split; [exact Hrun|].
    intros d old Hd Hold.
    destruct (Hq' d old Hd Hold) as (Hcpos & Hdiv & Hlook).
    eexists. split; [exact Hlook|].
    intros e. apply routed_to_pairs; lia.
  - intros Hcache Him. rewrite Z.eqb_refl in Hblk.
    destruct (Z.eqb_spec BLOCKING_ACCESS BATCH_ACCESS) as [E|_];
      [now symmetry in E|].
    destruct Hblk as (q0 & Hrun0 & ->).
    { intros _ [d e] Hp.
      apply routed_pairs_elem in Hp as (r & c & Hrr & Hcr & -> & ->).
      now apply Hreplay. }
    now rewrite set_req_vec_same in Hrun0.
  - apply routed_pairs_NoDup; lia.
  - intros d e Hp.
    apply routed_pairs_elem in Hp as (r & c & Hrr & Hcr & -> & ->).
    pose proof (sub_block_extent g op rs rn cs cn buf ld r c)
      as (E1 & E2 & E3 & E4).
    cbv zeta in *.
    destruct (Hsub _ _ Hrr Hcr) as (S1 & S2 & S3 & S4 & S5 & S6).
    pose proof (rank_bounds (r_blocks g) (c_blocks g) r c ltac:(lia)
                  ltac:(lia)) as [Hd0 Hd1].
    pose proof (rank_div_mod (c_blocks g) r c ltac:(lia)) as [Ediv Emod].
    unfold region_row_start, region_row_end, region_col_start,
      region_col_end.
    rewrite Z.quot_div_nonneg, Z.rem_mod_nonneg by lia.
    rewrite Ediv, Emod. lia.
  - intros i j Hi Hj.
    destruct (block_exists _ _ _ Hrows i ltac:(lia)) as (r & Hr & Hbr).
    destruct (block_exists _ _ _ Hcols j ltac:(lia)) as (c & Hc & Hbc).
    assert (Hrr : s_r <= r <= e_r).
    { split.
      - apply (block_order _ _ _ Hrows rs i); try lia.
      - apply (block_order _ _ _ Hrows i (rs + rn - 1)); try lia. }
    assert (Hcr : s_c <= c <= e_c).
    { split.
      - apply (block_order _ _ _ Hcols cs j); try lia.
      - apply (block_order _ _ _ Hcols j (cs + cn - 1)); try lia. }
    exists (r * c_blocks g + c), (sub_block g op rs rn cs cn buf ld r c).
    split; [apply routed_pairs_elem; exists r, c; auto|].
    split.
    { pose proof (sub_block_extent g op rs rn cs cn buf ld r c)
        as (E1 & E2 & E3 & E4).
      cbv zeta in *. unfold covers. lia. }
    intros d' e' Hp' Hcov.
    apply routed_pairs_elem in Hp' as (r' & c' & Hrr' & Hcr' & -> & ->).
    pose proof (sub_block_extent g op rs rn cs cn buf ld r' c')
      as (E1 & E2 & E3 & E4).
    cbv zeta in *. unfold covers in Hcov.
    assert (r' = r) by (apply (block_unique _ _ _ Hrows i); lia).
    assert (c' = c) by (apply (block_unique _ _ _ Hcols j); lia).
    subst. auto.
Qed.

(** C5.  A batch-mode request with an in-bounds rectangle is appended
    whatever the value of the batch-updating flag: for every value of the
    flag the call returns with the same request vectors, each of which is
    its former self followed by the new entries, and the owner of the
    rectangle's first cell receives an entry that starts at that cell. *)
Theorem batch_request_not_gated g t op rs rn cs cn buf ld :
  BATCH_ACCESS <> BLOCKING_ACCESS ->
  partition_ok g = true -> grid_ok g = true -> queues_ok g = true ->
  in_bounds g rs rn cs cn = true ->
  route_arith_ok g rn cn ld = true ->
  exists q',
    (forall b,
        (match op with
         | MPI_REPLACE => GTM_addPutBlockRequest
         | MPI_SUM => GTM_addAccumulateBlockRequest
         end) rs rn cs cn buf ld (mkWorld (set_is_batch_updating g b) t)
        = Returns (tt, mkWorld (set_is_batch_updating (set_req_vec g q') b)
                         t)) /\
    (forall d old,
        0 <= d -> req_vec g !! Z.to_nat d = Some old ->
        exists new, q' !! Z.to_nat d = Some (old ++ new)) /\
    (exists d old e,
        0 <= d /\ req_vec g !! Z.to_nat d = Some old /\
        q' !! Z.to_nat d = Some (old ++ [e]) /\
        req_op e = op /\ req_row_start e = rs /\ req_col_start e = cs /\
        req_src_buf e = buf /\ req_src_buf_ld e = ld).
Proof.
  intros Hmode Hpart Hgrid Hqueues Hin Har.
  destruct (updateBlock_batch_queues g t op rs rn cs cn buf ld
              Hmode Hpart Hgrid Hqueues Hin Har)
    as (s_r & e_r & s_c & e_c & q' & Hr & Hc & Hrun & Hlen & Hq').
  pose proof Hpart as Hpart'.
  unfold partition_ok in Hpart'.
  apply andb_true_iff in Hpart' as [Hrows Hcols].
  exists q'. split; [|split].
  - intros b.
    destruct (updateBlock_batch_queues (set_is_batch_updating g b) t op
                rs rn cs cn buf ld Hmode Hpart Hgrid Hqueues Hin Har)
      as (s_r' & e_r' & s_c' & e_c' & q'' & Hr' & Hc' & Hrun' & Hlen' & Hq'').
    cbn [r_blocks c_blocks r_displs c_displs req_vec set_is_batch_updating]
      in *.
    assert (s_r' = s_r) by (apply (block_unique _ _ _ Hrows rs); lia).
    assert (e_r' = e_r) by (apply (block_unique _ _ _ Hrows (rs + rn - 1)); lia).
    assert (s_c' = s_c) by (apply (block_unique _ _ _ Hcols cs); lia).
    assert (e_c' = e_c) by (apply (block_unique _ _ _ Hcols (cs + cn - 1)); lia).
    subst s_r' e_r' s_c' e_c'.
    assert (E : q'' = q').
    { apply list_eq. intros i.
      destruct (req_vec g !! i) as [old|] eqn:Hold.
      - rewrite <- (Nat2Z.id i) in *.
        destruct (Hq' (Z.of_nat i) old ltac:(lia) Hold) as (_ & _ & ->).
        destruct (Hq'' (Z.of_nat i) old ltac:(lia) Hold) as (_ & _ & ->).
        reflexivity.
      - apply lookup_ge_None in Hold.
        rewrite !lookup_ge_None_2; [reflexivity|lia|lia]. }
    subst q''.
    replace (match op with
             | MPI_REPLACE => GTM_addPutBlockRequest
             | MPI_SUM => GTM_addAccumulateBlockRequest
             end) with (fun rs rn cs cn buf ld =>
                          GTM_updateBlock op rs rn cs cn buf ld BATCH_ACCESS)
      by now destruct op.
    exact Hrun'.
  - intros d old Hd Hold. destruct (Hq' d old Hd Hold) as (_ & _ & Hl).
    eexists. exact Hl.
  - destruct Hr as (Hsr0 & Hser & Her & Hbsr & Hber).
    destruct Hc as (Hsc0 & Hsec & Hec & Hbsc & Hbec).
    unfold grid_ok in Hgrid. unfold queues_ok in Hqueues. unbool.
    pose proof (rank_bounds (r_blocks g) (c_blocks g) s_r s_c ltac:(lia)
                  ltac:(lia)) as [Hd0 Hd1].
    pose proof (rank_div_mod (c_blocks g) s_r s_c ltac:(lia)) as [Ediv Emod].
    destruct (lookup_lt_is_Some_2 (req_vec g)
                (Z.to_nat (s_r * c_blocks g + s_c))) as [old Hold]; [lia|].
    destruct (Hq' (s_r * c_blocks g + s_c) old ltac:(lia) Hold)
      as (_ & _ & Hlook).
    exists (s_r * c_blocks g + s_c), old,
      (sub_block g op rs rn cs cn buf ld s_r s_c).
    split; [lia|]. split; [exact Hold|]. split.
    { rewrite Hlook. unfold routed_to. cbv zeta. rewrite Ediv, Emod.
      destruct (Z.leb_spec s_r s_r); destruct (Z.leb_spec s_r e_r);
        destruct (Z.leb_spec s_c s_c); destruct (Z.leb_spec s_c e_c);
        cbn; lia || reflexivity. }
    cbn. repeat split; try lia.
    replace (Z.max (displ (r_displs g) s_r) rs) with rs by lia.
    replace (Z.max (displ (c_displs g) s_c) cs) with cs by lia.
    lia.
Qed.

(** ** The assertion of GTM_updateBlock *)

Lemma na_weaken {A} (H H' : GTMatrix -> Prop) (m : M A)
    (Q Q' : A -> GTMatrix -> Prop) :
  no_assert H m Q -> (forall g, H' g -> H g) ->
  (forall a g, Q a g -> Q' a g) -> no_assert H' m Q'.
Proof.
  intros Hm HH HQ w Hw. specialize (Hm w (HH _ Hw)).
  destruct (m w) as [[a w']| |]; auto.
Qed.

Lemma na_ret {A} (H : GTMatrix -> Prop) (a : A) (Q : A -> GTMatrix -> Prop) :
  (forall g, H g -> Q a g) -> no_assert H (ret a) Q.
Proof. intros HQ w Hw. cbn. auto. Qed.

Lemma na_bind {A B} (H : GTMatrix -> Prop) (m : M A) (k : A -> M B)
    (R : A -> GTMatrix -> Prop) (Q : B -> GTMatrix -> Prop) :
  no_assert H m R -> (forall a, no_assert (R a) (k a) Q) ->
  no_assert H (bind m k) Q.
Proof.
  intros Hm Hk w Hw. unfold bind. specialize (Hm w Hw).
  destruct (m w) as [[a w']| |]; auto. now apply Hk.
Qed.

Lemma na_int {B} (H : GTMatrix -> Prop) z (k : Z -> M B)
    (Q : B -> GTMatrix -> Prop) :
  (INT_MIN <= z <= INT_MAX -> no_assert H (k z) Q) ->
  no_assert H (bind (int_of z) k) Q.
Proof.
  intros Hk w Hw. unfold bind, int_of.
  destruct (in_int z) eqn:E; cbn; [|trivial].
  apply Hk; [now apply in_int_iff|exact Hw].
Qed.

Lemma na_displ {B} (H : GTMatrix -> Prop) (l : list Z) i (k : Z -> M B)
    (Q : B -> GTMatrix -> Prop) :
  (0 <= i < Z.of_nat (length l) -> no_assert H (k (displ l i)) Q) ->
  no_assert H (bind (index l i) k) Q.
Proof.
  intros Hk w Hw. unfold bind, index.
  destruct (Z.ltb_spec i 0); [exact I|].
  destruct (l !! Z.to_nat i) as [x|] eqn:E; cbn; [|trivial].
  pose proof (lookup_lt_Some _ _ _ E) as Hlt.
  assert (Hi : 0 <= i < Z.of_nat (length l)) by lia.
  rewrite (lookup_displ l i Hi) in E. injection E as <-.
  now apply Hk.
Qed.

Lemma na_index {A B} (H : GTMatrix -> Prop) (l : list A) i (k : A -> M B)
    (Q : B -> GTMatrix -> Prop) :
  (forall x, no_assert H (k x) Q) ->
  no_assert H (bind (index l i) k) Q.
Proof.
  intros Hk w Hw. unfold bind, index.
  destruct (i <? 0); [exact I|].
  destruct (l !! Z.to_nat i) as [x|]; cbn; [|trivial].
  now apply Hk.
Qed.

Lemma na_get {B} (H : GTMatrix -> Prop) (k : GTMatrix -> M B)
    (Q : B -> GTMatrix -> Prop) :
  (forall g0, H g0 -> no_assert (eq g0) (k g0) Q) ->
  no_assert H (bind get_mat k) Q.
Proof. intros Hk w Hw. unfold bind, get_mat. now apply (Hk _ Hw). Qed.

Lemma na_mpi {B} (H : GTMatrix -> Prop) c (k : unit -> M B)
    (Q : B -> GTMatrix -> Prop) :
  no_assert H (k tt) Q -> no_assert H (bind (mpi c) k) Q.
Proof. intros Hk w Hw. unfold bind, mpi. now apply Hk. Qed.

Lemma na_pure {A B} (H : GTMatrix -> Prop) (a : A) (k : A -> M B)
    (Q : B -> GTMatrix -> Prop) :
  no_assert H (k a) Q -> no_assert H (bind (ret a) k) Q.
Proof. intros Hk w Hw. unfold bind, ret. now apply Hk. Qed.

Lemma na_mpi_last (H : GTMatrix -> Prop) c (Q : unit -> GTMatrix -> Prop) :
  (forall g, H g -> Q tt g) -> no_assert H (mpi c) Q.
Proof. intros HQ w Hw. cbn. auto. Qed.

Lemma na_put_last (H : GTMatrix -> Prop) g1 (Q : unit -> GTMatrix -> Prop) :
  Q tt g1 -> no_assert H (put_mat g1) Q.
Proof. intros HQ w Hw. exact HQ. Qed.

Lemma na_for_loop {A} (I : GTMatrix -> Prop) (body : Z -> A -> M A) :
  forall (n : nat) (lo : Z) (acc : A),
    (forall k a, lo <= k < lo + Z.of_nat n ->
                 no_assert I (body k a) (fun _ g => I g)) ->
    no_assert I (for_loop n lo acc body) (fun _ g => I g).
Proof.
  induction n as [|n IH]; intros lo acc Hbody.
  - now apply na_ret.
  - cbn [for_loop]. eapply na_bind; [apply Hbody; lia|].
    intros a. apply na_int. intros _. apply IH.
    intros k a' Hk. apply Hbody. lia.
Qed.

Lemma na_updateBlockToProcess (H : GTMatrix -> Prop)
    dst_rank op rs rn cs cn buf ld :
  no_assert H (GTM_updateBlockToProcess dst_rank op rs rn cs cn buf ld)
    (fun _ g => H g).
Proof.
  intros [g t] Hw. cbn [gt_mat] in Hw.
  destruct (updateBlockToProcess_frame dst_rank op rs rn cs cn buf ld g)
    as [r Hr].
  specialize (Hr (req_vec g) t). rewrite set_req_vec_same in Hr.
  rewrite Hr. destruct r; [exact Hw|exact I].
Qed.

Ltac na_step :=
  first [ apply na_get; intros ? ?
        | apply na_displ; intros ?
        | apply na_int; intros ?
        | apply na_pure
        | apply na_mpi ].

(** C8.  With displacement tables that are strictly increasing and span
    the matrix, and a rectangle of positive extent inside the matrix, the
    two searches find the blocks of the rectangle's first and last rows
    and columns, every block between them meets the rectangle, and a run
    of GTM_updateBlock, in any access mode, does not end in a failed
    assertion. *)
Theorem updateBlock_assertion_holds g t op rs rn cs cn buf ld access_mode :
  partition_ok g = true ->
  in_bounds g rs rn cs cn = true ->
  (exists s_r e_r s_c e_c,
      find_blocks (r_blocks g) (r_displs g) rs (rs + rn - 1) (mkWorld g t)
      = Returns ((Some s_r, Some e_r), mkWorld g t) /\
      find_blocks (c_blocks g) (c_displs g) cs (cs + cn - 1) (mkWorld g t)
      = Returns ((Some s_c, Some e_c), mkWorld g t) /\
      forall blk_r blk_c,
        s_r <= blk_r <= e_r -> s_c <= blk_c <= e_c ->
        getRectIntersection
          (displ (r_displs g) blk_r) (displ (r_displs g) (blk_r + 1) - 1)
          (displ (c_displs g) blk_c) (displ (c_displs g) (blk_c + 1) - 1)
          rs (rs + rn - 1) cs (cs + cn - 1) <> None) /\
  GTM_updateBlock op rs rn cs cn buf ld access_mode (mkWorld g t)
  <> AssertFailed.
Proof.
  intros Hpart Hin.
  unfold partition_ok in Hpart. apply andb_true_iff in Hpart as [Hrows Hcols].
  unfold in_bounds in Hin. unbool.
  pose proof (table_dim _ _ _ Hrows) as Hnrows.
  pose proof (table_dim _ _ _ Hcols) as Hncols.
  pose proof (table_blocks _ _ _ Hrows) as Hrb.
  pose proof (table_blocks _ _ _ Hcols) as Hcb.
  destruct (find_blocks_run _ _ _ Hrows rs (rs + rn - 1) (mkWorld g t))
    as (s_r & e_r & Hfr & Hsr0 & Hser & Her & Hbsr & Hber); try lia.
  destruct (find_blocks_run _ _ _ Hcols cs (cs + cn - 1) (mkWorld g t))
    as (s_c & e_c & Hfc & Hsc0 & Hsec & Hec & Hbsc & Hbec); try lia.
  assert (Hmeet : forall r c,
             s_r <= r <= e_r -> s_c <= c <= e_c ->
             Z.max (displ (r_displs g) r) rs
             <= Z.min (displ (r_displs g) (r + 1) - 1) (rs + rn - 1) /\
             Z.max (displ (c_displs g) c) cs
             <= Z.min (displ (c_displs g) (c + 1) - 1) (cs + cn - 1)).
  { intros r c Hr Hc.
    pose proof (displ_step _ _ _ Hrows r ltac:(lia)).
    pose proof (displ_mono _ _ _ Hrows r e_r ltac:(lia) ltac:(lia)
                  ltac:(lia)).
    pose proof (displ_mono _ _ _ Hrows (s_r + 1) (r + 1) ltac:(lia)
                  ltac:(lia) ltac:(lia)).
    pose proof (displ_step _ _ _ Hcols c ltac:(lia)).
    pose proof (displ_mono _ _ _ Hcols c e_c ltac:(lia) ltac:(lia)
                  ltac:(lia)).
    pose proof (displ_mono _ _ _ Hcols (s_c + 1) (c + 1) ltac:(lia)
                  ltac:(lia) ltac:(lia)).
    lia. }
  split.
  { exists s_r, e_r, s_c, e_c. split; [exact Hfr|]. split; [exact Hfc|].
    intros r c Hr Hc. destruct (Hmeet r c Hr Hc) as [Hx Hy].
    now rewrite getRectIntersection_some. }
  unfold GTM_updateBlock. step.
  destruct (Z.ltb_spec rs 0); [lia|]. destruct (Z.ltb_spec cs 0); [lia|].
  cbn [orb]. step. rewrite Z.gtb_ltb.
  destruct (Z.ltb_spec (nrows g) (rs + rn)); [lia|]. step.
  rewrite Z.gtb_ltb.
  destruct (Z.ltb_spec (ncols g) (cs + cn)); [lia|].
  destruct (in_int (rn * cn)) eqn:Harea.
  2:{ rewrite bind_undefined; [discriminate|].
      unfold imul, int_of. now rewrite Harea. }
  apply in_int_iff in Harea. step.
  destruct (Z.eqb_spec (rn * cn) 0); [discriminate|]. step. step.
  rewrite (bind_step _ _ _ _ _ Hfr). rewrite (bind_step _ _ _ _ _ Hfc).
  cbn [fst snd read_var]. step. step.
  match goal with
  | |- for_loop ?n ?i ?a ?body ?w0 <> _ =>
      assert (Hna : no_assert (same_matrix g) (for_loop n i a body)
                      (fun _ g' => same_matrix g g'))
  end.
  { apply na_for_loop. intros r [] Hr.
    apply na_get. intros g0 [q ->].
    cbn [set_req_vec r_displs c_displs c_blocks unit_size mpi_win req_vec].
    do 6 na_step.
    eapply na_weaken;
      [apply (na_for_loop (same_matrix g))
      |intros g1 <-; now exists q|auto].
    intros k [] Hk.
    apply na_get. intros g1 [q1 ->].
    cbn [set_req_vec r_displs c_displs c_blocks unit_size mpi_win req_vec].
    do 6 na_step.
    destruct (Hmeet r k ltac:(lia) ltac:(lia)) as [Hx Hy].
    rewrite getRectIntersection_some by assumption. cbv iota beta.
    do 9 na_step.
    apply na_bind with (R := fun _ => eq (set_req_vec g q1)).
    { destruct (access_mode =? BLOCKING_ACCESS); [|now apply na_ret].
      apply na_mpi.
      eapply na_bind; [apply na_updateBlockToProcess|intros []].
      now apply na_mpi_last. }
    intros [].
    destruct (access_mode =? BATCH_ACCESS).
    - apply na_get. intros g2 <-. apply na_index. intros x.
      apply na_put_last. eexists. reflexivity.
    - apply na_ret. intros g2 <-. now exists q1. }
  specialize (Hna (mkWorld g t)
                (ex_intro _ (req_vec g) (eq_sym (set_req_vec_same g)))).
  intros E. now rewrite E in Hna.
Qed.

(** * Further properties of the update calls *)

(** ** The batch-update epoch as a whole *)

Lemma stopBatchUpdate_run g t :
  GTM_stopBatchUpdate (mkWorld g t)
  = Returns (tt, mkWorld (set_is_batch_updating g 0) t).
Proof.
  unfold GTM_stopBatchUpdate. step.
  destruct (Z.eqb_spec (is_batch_updating g) 0) as [E|E]; [|reflexivity].
  cbn. do 3 f_equal. destruct g; cbn in *. now subst.
Qed.

Lemma execBatchUpdate_closed g t :
  is_batch_updating g = 0 ->
  GTM_execBatchUpdate (mkWorld g t) = Returns (tt, mkWorld g t).
Proof.
  intros Hclosed. unfold GTM_execBatchUpdate. step. now rewrite Hclosed.
Qed.

Lemma all_empty_replicate (q : list GTM_Req_Vector) :
  (forall v, v ∈ q -> v = []) -> q = replicate (length q) [].
Proof.
  induction q as [|v q IH]; intros Hall; [reflexivity|].
  cbn. rewrite (Hall v) by apply list_elem_of_here. f_equal.
  apply IH. intros v' Hv'. apply Hall. now apply list_elem_of_further.
Qed.

Lemma drain_calls_empty g d :
  (forall v, v ∈ req_vec g -> v = []) -> drain_calls g d = [].
Proof.
  intros Hall. unfold drain_calls.
  destruct (req_vec g !! Z.to_nat d) as [[|e q]|] eqn:E; try reflexivity.
  apply list_elem_of_lookup_2 in E. now apply Hall in E.
Qed.

Lemma drain_nothing g (ds : list Z) :
  (forall v, v ∈ req_vec g -> v = []) -> flat_map (drain_calls g) ds = [].
Proof.
  intros Hall. induction ds as [|d ds IH]; [reflexivity|].
  cbn. now rewrite drain_calls_empty, IH.
Qed.

Lemma replays_defined_empty g (n : nat) :
  forall d, replays_defined g d (replicate n []) = true.
Proof. induction n as [|n IH]; intros d; cbn; auto. Qed.

Lemma execBatchUpdate_empty g t :
  queues_ok g = true -> self_ok g = true ->
  (forall v, v ∈ req_vec g -> v = []) ->
  GTM_execBatchUpdate (mkWorld g t) = Returns (tt, mkWorld g t).
Proof.
  intros Hq Hself Hall.
  destruct (Z.eq_dec (is_batch_updating g) 0) as [E|E];
    [now apply execBatchUpdate_closed|].
  pose proof (all_empty_replicate _ Hall) as Hrep.
  rewrite (execBatchUpdate_run g t E Hq Hself).
  - rewrite drain_nothing by exact Hall.
    rewrite <- Hrep, set_req_vec_same, app_nil_r. reflexivity.
  - rewrite Hrep. apply replays_defined_empty.
Qed.

Lemma queues_ok_emptied g b :
  queues_ok g = true ->
  queues_ok (set_is_batch_updating
               (set_req_vec g (replicate (length (req_vec g)) [])) b) = true.
Proof.
  unfold queues_ok. cbn [req_vec comm_size set_req_vec set_is_batch_updating].
  intros H. apply andb_true_iff in H as [H _]. rewrite length_replicate, H.
  apply forallb_forall. intros v Hv. apply list_elem_of_In in Hv.
  apply elem_of_replicate in Hv as [-> _]. reflexivity.
Qed.

(** X1.  GTM_stopBatchUpdate closes the epoch without draining it: the
    request vectors keep every entry queued before the stop, no MPI call
    is issued, and a GTM_execBatchUpdate that follows does nothing. *)
Theorem stopBatchUpdate_does_not_drain g t :
  GTM_stopBatchUpdate (mkWorld g t)
  = Returns (tt, mkWorld (set_is_batch_updating g 0) t) /\
  req_vec (set_is_batch_updating g 0) = req_vec g /\
  (GTM_stopBatchUpdate;; GTM_execBatchUpdate) (mkWorld g t)
  = GTM_stopBatchUpdate (mkWorld g t).
Proof.
  split; [apply stopBatchUpdate_run|]. split; [reflexivity|].
  rewrite (bind_step _ _ _ _ _ (stopBatchUpdate_run g t)).
  rewrite stopBatchUpdate_run. now apply execBatchUpdate_closed.
Qed.

(** X2.  Entries that are pending when GTM_startBatchUpdate runs are
    never delivered: with no batch-get epoch open, a start followed by a
    drain issues no MPI call and ends with the epoch open and every
    request vector empty, whatever was queued before. *)
Theorem startBatchUpdate_drops_pending g t :
  queues_ok g = true -> self_ok g = true ->
  is_batch_getting g = 0 ->
  (GTM_startBatchUpdate;; GTM_execBatchUpdate) (mkWorld g t)
  = Returns (tt, mkWorld (set_is_batch_updating
                            (set_req_vec g (replicate (length (req_vec g)) []))
                            1) t).
Proof.
  intros Hq Hself Hget.
  rewrite (bind_step _ _ _ _ _ (startBatchUpdate_run g t Hq Hget)).
  apply execBatchUpdate_empty.
  - now apply queues_ok_emptied.
  - exact Hself.
  - cbn [req_vec set_req_vec set_is_batch_updating]. intros v Hv.
    now apply elem_of_replicate in Hv.
Qed.

(** X3.  Draining twice is draining once: after GTM_execBatchUpdate has
    returned, a second GTM_execBatchUpdate issues no MPI call and changes
    nothing, so no queued entry is ever replayed twice. *)
Theorem execBatchUpdate_idempotent g t :
  queues_ok g = true -> self_ok g = true ->
  replays_defined g 0 (req_vec g) = true ->
  (GTM_execBatchUpdate;; GTM_execBatchUpdate) (mkWorld g t)
  = GTM_execBatchUpdate (mkWorld g t) /\
  exists w, GTM_execBatchUpdate (mkWorld g t) = Returns (tt, w).
Proof.
  intros Hq Hself Hdef.
  destruct (Z.eq_dec (is_batch_updating g) 0) as [E|E].
  - rewrite (bind_step _ _ _ _ _ (execBatchUpdate_closed g t E)).
    split; [reflexivity|]. eexists. now apply execBatchUpdate_closed.
  - pose proof (execBatchUpdate_run g t E Hq Hself Hdef) as Hrun.
    rewrite (bind_step _ _ _ _ _ Hrun). rewrite Hrun.
    split; [|eexists; reflexivity].
    apply execBatchUpdate_empty.
    + apply (queues_ok_emptied g (is_batch_updating g)) in Hq.
      destruct g; exact Hq.
    + exact Hself.
    + cbn [req_vec set_req_vec]. intros v Hv.
      now apply elem_of_replicate in Hv.
Qed.

(** ** What GTM_updateBlockToProcess never does *)

Lemma reads_only_ret {A} (a : A) : reads_only (ret a).
Proof. intros w. right. now exists a. Qed.

Lemma reads_only_int_of z : reads_only (int_of z).
Proof.
  intros w. unfold int_of. destruct (in_int z); [right; now exists z|now left].
Qed.

Lemma reads_only_idiv a b : reads_only (idiv a b).
Proof.
  intros w. unfold idiv. destruct (b =? 0); [now left|apply reads_only_int_of].
Qed.

Lemma reads_only_imod a b : reads_only (imod a b).
Proof.
  intros w. unfold imod. destruct (b =? 0); [now left|].
  destruct (in_int _); [right; eexists; reflexivity|now left].
Qed.

Lemma reads_only_index {A} (l : list A) i : reads_only (index l i).
Proof.
  intros w. unfold index. destruct (i <? 0); [now left|].
  destruct (l !! Z.to_nat i); [right; eexists; reflexivity|now left].
Qed.

Lemma reads_only_read_var {A} (v : option A) : reads_only (read_var v).
Proof. intros w. destruct v; [right; eexists; reflexivity|now left]. Qed.

Lemma reads_only_bind {A B} (m : M A) (k : A -> M B) :
  reads_only m -> (forall a, reads_only (k a)) -> reads_only (bind m k).
Proof.
  intros Hm Hk w. unfold bind. destruct (Hm w) as [->|[a ->]]; [now left|].
  apply Hk.
Qed.

Lemma reads_only_for_loop {A} (body : Z -> A -> M A) :
  (forall i a, reads_only (body i a)) ->
  forall n i acc, reads_only (for_loop n i acc body).
Proof.
  intros Hbody. induction n as [|n IH]; intros i acc; cbn [for_loop].
  - apply reads_only_ret.
  - apply reads_only_bind; [apply Hbody|]. intros a.
    apply reads_only_bind; [apply reads_only_int_of|]. intros i'. apply IH.
Qed.

(** A property of outcomes that undefined behaviour satisfies passes
    over a read-only statement. *)
Lemma bind_reads_only {A B} (P : outcome (B * world) -> Prop)
    (m : M A) (k : A -> M B) w :
  reads_only m -> P Undefined -> (forall a, P (k a w)) -> P (bind m k w).
Proof.
  intros Hm HU Hk. unfold bind. destruct (Hm w) as [->|[a ->]]; auto.
Qed.

Ltac prove_reads_only :=
  unfold iadd, isub, imul;
  first [ apply reads_only_int_of | apply reads_only_idiv
        | apply reads_only_imod | apply reads_only_index
        | apply reads_only_read_var | apply reads_only_ret ].

(** One read-only statement at the head of the computation, whatever
    its result. *)
Ltac ro_step :=
  match goal with
  | |- context [bind ?m ?k ?w] =>
      pattern (bind m k w); apply bind_reads_only;
      [prove_reads_only | first [now left | exact I] | cbv beta; intros ?]
  end.

Lemma updateBlockToProcess_calls dst_rank op rs rn cs cn buf ld g t :
  GTM_updateBlockToProcess dst_rank op rs rn cs cn buf ld (mkWorld g t)
  = Undefined \/
  exists calls,
    GTM_updateBlockToProcess dst_rank op rs rn cs cn buf ld (mkWorld g t)
    = Returns (tt, mkWorld g (t ++ calls)) /\
    update_calls g dst_rank op buf calls.
Proof.
  assert (Hnone : update_calls g dst_rank op buf []).
  { repeat split. now left. }
  unfold GTM_updateBlockToProcess. step. do 10 ro_step.
  match goal with
  | |- context [if ?c then _ else _] => destruct c
  end.
  { right. exists []. rewrite app_nil_r. now split. }
  ro_step.
  match goal with
  | |- context [if ?c then _ else _] => destruct c
  end.
  { right. exists []. rewrite app_nil_r. now split. }
  do 6 ro_step.
  match goal with
  | |- context [if ?c then _ else _] => destruct c
  end.
  - do 5 ro_step.
    match goal with
    | |- context [if ?c then _ else _] => destruct c
    end; [ro_step|].
    + right. eexists. split; [reflexivity|].
      repeat split. right. now eexists _, _, _.
    + match goal with
      | |- context [if ?c then _ else _] => destruct c
      end.
      * right. eexists. split; [reflexivity|].
        repeat split. right. now eexists _, _, _.
      * do 3 step. right. eexists. split.
        { unfold mpi. cbn [gt_mat issued]. rewrite <- !app_assoc.
          reflexivity. }
        repeat split. right. now eexists _, _, _.
  - do 6 step. right. eexists. split.
    { unfold mpi. cbn [gt_mat issued]. rewrite <- !app_assoc. reflexivity. }
    repeat split. right. now eexists _, _, _.
Qed.

(** X4.  Whatever its arguments, GTM_updateBlockToProcess never fails an
    assertion, and unless it runs into undefined behaviour (an [int]
    overflow or a table read out of range) it returns with the handle
    unchanged, having issued no lock or unlock, at most one accumulate,
    which carries the given source pointer and operation to [dst_rank],
    and having committed and freed every datatype it built. *)
Theorem updateBlockToProcess_is_contained
    dst_rank op rs rn cs cn buf ld g t :
  GTM_updateBlockToProcess dst_rank op rs rn cs cn buf ld (mkWorld g t)
  = Undefined \/
  exists calls,
    GTM_updateBlockToProcess dst_rank op rs rn cs cn buf ld (mkWorld g t)
    = Returns (tt, mkWorld g (t ++ calls)) /\
    filter is_lock_call calls = [] /\
    (length (filter is_accumulate calls) <= 1)%nat /\
    (forall c, c ∈ calls -> is_accumulate c = true ->
               exists src_dt pos dst_dt,
                 c = Accumulate buf 1 src_dt dst_rank pos 1 dst_dt op
                       (mpi_win g)) /\
    built calls = committed calls /\ committed calls = freed calls.
Proof.
  destruct (updateBlockToProcess_calls dst_rank op rs rn cs cn buf ld g t)
    as [HU|(calls & Hrun & Hno & Hacc & Hbc & Hcf)]; [now left|].
  right. exists calls. repeat split; try assumption.
  - destruct Hacc as [->|(sdt & pos & ddt & ->)]; cbn; lia.
  - intros c Hc Ha.
    assert (Hf : c ∈ filter is_accumulate calls).
    { apply list_elem_of_filter. split; [now apply Is_true_true|exact Hc]. }
    destruct Hacc as [E|(sdt & pos & ddt & E)]; rewrite E in Hf.
    + now apply elem_of_nil in Hf.
    + apply list_elem_of_singleton in Hf. now exists sdt, pos, ddt.
Qed.

(** ** Locks during a drain *)

Lemma replay_calls_no_lock g d e :
  filter is_lock_call (replay_calls g d e) = [].
Proof.
  unfold replay_calls, replay.
  destruct (updateBlockToProcess_calls d (req_op e) (req_row_start e)
              (req_row_num e) (req_col_start e) (req_col_num e)
              (req_src_buf e) (req_src_buf_ld e) g [])
    as [->|(calls & -> & Hno & _)]; [reflexivity|exact Hno].
Qed.

Lemma filter_flat_map {A} (P : MPI_Call -> bool) (f : A -> list MPI_Call)
    (l : list A) :
  filter P (flat_map f l) = flat_map (fun x => filter P (f x)) l.
Proof.
  induction l as [|x l IH]; [reflexivity|].
  cbn [flat_map]. now rewrite filter_app, IH.
Qed.

Lemma flat_map_nil {A B} (f : A -> list B) (l : list A) :
  (forall x, f x = []) -> flat_map f l = [].
Proof.
  intros Hf. induction l as [|x l IH]; [reflexivity|].
  cbn. now rewrite Hf, IH.
Qed.

Lemma drain_calls_locks g d :
  filter is_lock_call (drain_calls g d) = drain_locks g d.
Proof.
  unfold drain_calls, drain_locks.
  destruct (req_vec g !! Z.to_nat d) as [[|e q]|]; try reflexivity.
  rewrite !filter_app, filter_flat_map.
  rewrite (flat_map_nil _ (e :: q)) by (intros x; apply replay_calls_no_lock).
  reflexivity.
Qed.

(** X5.  In a drain the lock and unlock calls alternate: for each rank
    whose request vector is not empty, in visiting order, one shared lock
    on that rank and then its unlock, and nothing for the other ranks.
    The caller therefore never holds two locks at once, and replaying a
    queued entry never takes or releases a lock. *)
Theorem execBatchUpdate_lock_discipline g t :
  is_batch_updating g <> 0 ->
  queues_ok g = true -> self_ok g = true ->
  replays_defined g 0 (req_vec g) = true ->
  exists g' calls,
    GTM_execBatchUpdate (mkWorld g t) = Returns (tt, mkWorld g' (t ++ calls)) /\
    filter is_lock_call calls = flat_map (drain_locks g) (visit_order g).
Proof.
  intros Hopen Hq Hself Hdef. eexists _, _. split.
  - apply (execBatchUpdate_run g t Hopen Hq Hself Hdef).
  - rewrite filter_flat_map. apply flat_map_ext. intros d.
    apply drain_calls_locks.
Qed.

(** ** What GTM_updateBlock never does *)

Lemma same_handle_refl w : same_handle w w.
Proof. reflexivity. Qed.

Lemma same_handle_trans w1 w2 w3 :
  same_handle w1 w2 -> same_handle w2 w3 -> same_handle w1 w3.
Proof. unfold same_handle. congruence. Qed.

Lemma queues_extended_refl g : queues_extended g g.
Proof.
  exists (req_vec g). split; [now rewrite set_req_vec_same|].
  split; [reflexivity|]. intros i old H. exists []. now rewrite app_nil_r.
Qed.

Lemma queues_extended_trans g1 g2 g3 :
  queues_extended g1 g2 -> queues_extended g2 g3 -> queues_extended g1 g3.
Proof.
  intros (q & -> & Hlen & Hq) (q' & -> & Hlen' & Hq').
  cbn [req_vec set_req_vec] in *.
  exists q'. split; [reflexivity|]. split; [congruence|].
  intros i old Hold. destruct (Hq i old Hold) as [new Hnew].
  destruct (Hq' i _ Hnew) as [new' Hnew'].
  exists (new ++ new'). now rewrite app_assoc.
Qed.

Lemma only_queued_refl w : only_queued w w.
Proof. split; [reflexivity|apply queues_extended_refl]. Qed.

Lemma only_queued_trans w1 w2 w3 :
  only_queued w1 w2 -> only_queued w2 w3 -> only_queued w1 w3.
Proof.
  intros [E1 Q1] [E2 Q2]. split; [congruence|].
  now apply (queues_extended_trans _ (gt_mat w2)).
Qed.

Lemma keeps_ret {A} (R : world -> world -> Prop) (a : A) :
  (forall w, R w w) -> keeps R (ret a).
Proof. intros Hrefl w. apply Hrefl. Qed.

Lemma keeps_bind {A B} (R : world -> world -> Prop) (m : M A)
    (k : A -> M B) :
  (forall w1 w2 w3, R w1 w2 -> R w2 w3 -> R w1 w3) ->
  keeps R m -> (forall a, keeps R (k a)) -> keeps R (bind m k).
Proof.
  intros Htrans Hm Hk w. specialize (Hm w). unfold bind.
  destruct (m w) as [[a w']| |]; try exact I.
  specialize (Hk a w'). unfold kept in *.
  destruct (k a w') as [[b w'']| |]; try exact I.
  now apply (Htrans _ w').
Qed.

Lemma keeps_for_loop {A} (R : world -> world -> Prop) (body : Z -> A -> M A) :
  (forall w, R w w) ->
  (forall w1 w2 w3, R w1 w2 -> R w2 w3 -> R w1 w3) ->
  (forall i a, keeps R (body i a)) ->
  forall n i acc, keeps R (for_loop n i acc body).
Proof.
  intros Hrefl Htrans Hbody. induction n as [|n IH]; intros i acc;
    cbn [for_loop].
  - now apply keeps_ret.
  - apply keeps_bind; [exact Htrans|apply Hbody|]. intros a w.
    unfold iadd. ro_step. apply IH.
Qed.

Lemma reads_only_in_block displs i x : reads_only (in_block displs i x).
Proof.
  unfold in_block. apply reads_only_bind; [apply reads_only_index|].
  intros lo. destruct (lo <=? x); [|apply reads_only_ret].
  apply reads_only_bind; [apply reads_only_int_of|]. intros i1.
  apply reads_only_bind; [apply reads_only_index|]. intros hi.
  apply reads_only_ret.
Qed.

Lemma reads_only_find_blocks blocks displs first last :
  reads_only (find_blocks blocks displs first last).
Proof.
  unfold find_blocks. apply reads_only_for_loop. intros i se.
  apply reads_only_bind; [apply reads_only_in_block|]. intros b1.
  apply reads_only_bind; [apply reads_only_in_block|]. intros b2.
  apply reads_only_ret.
Qed.

Lemma keeps_updateBlockToProcess dst_rank op rs rn cs cn buf ld :
  keeps same_handle
    (GTM_updateBlockToProcess dst_rank op rs rn cs cn buf ld).
Proof.
  intros [g t].
  destruct (updateBlockToProcess_calls dst_rank op rs rn cs cn buf ld g t)
    as [->|(calls & -> & _)]; [exact I|reflexivity].
Qed.

Lemma keeps_mpi c : keeps same_handle (mpi c).
Proof. intros w. reflexivity. Qed.

Lemma index_cases {A} (l : list A) i w :
  index l i w = Undefined \/
  exists x, l !! Z.to_nat i = Some x /\ index l i w = Returns (x, w).
Proof.
  unfold index. destruct (i <? 0); [now left|].
  destruct (l !! Z.to_nat i) as [x|]; [right; now exists x|now left].
Qed.

(** The statements of GTM_updateBlock up to the body of its inner loop,
    for a relation that every world bears to itself. *)
Ltac route_prefix Hrefl Htrans :=
  intros w; unfold GTM_updateBlock; step;
  repeat first
    [ match goal with
      | |- kept _ _ ((if ?c then _ else _) _) =>
          destruct c; [apply Hrefl|]
      end
    | match goal with
      | |- kept _ _ (bind (find_blocks ?b ?d ?f ?l) ?k ?w0) =>
          pattern (bind (find_blocks b d f l) k w0);
          apply bind_reads_only;
          [apply reads_only_find_blocks | exact I | cbv beta; intros ?]
      end
    | ro_step ];
  apply keeps_for_loop; [exact Hrefl|exact Htrans|];
  intros blk_r [] w1; step; do 6 ro_step;
  apply keeps_for_loop; [exact Hrefl|exact Htrans|];
  intros blk_c [] w2; step; do 6 ro_step;
  match goal with
  | |- context [getRectIntersection ?a ?b ?c ?d ?e ?f ?g ?h] =>
      destruct (getRectIntersection a b c d e f g h) as [[[[? ?] ?] ?]|];
      [|exact I]
  end;
  do 9 ro_step.

Lemma updateBlock_keeps_handle op rs rn cs cn buf ld :
  BATCH_ACCESS <> BLOCKING_ACCESS ->
  keeps same_handle
    (GTM_updateBlock op rs rn cs cn buf ld BLOCKING_ACCESS).
Proof.
  intros Hmode.
  route_prefix same_handle_refl same_handle_trans.
  rewrite Z.eqb_refl.
  destruct (Z.eqb_spec BLOCKING_ACCESS BATCH_ACCESS) as [E|_];
    [now symmetry in E|].
  refine (keeps_bind _ _ _ same_handle_trans _ _ w2).
  - apply keeps_bind; [exact same_handle_trans|apply keeps_mpi|]. intros _.
    apply keeps_bind; [exact same_handle_trans| |intros _; apply keeps_mpi].
    apply keeps_updateBlockToProcess.
  - intros _. apply keeps_ret, same_handle_refl.
Qed.

Lemma updateBlock_only_queues op rs rn cs cn buf ld :
  BATCH_ACCESS <> BLOCKING_ACCESS ->
  keeps only_queued
    (GTM_updateBlock op rs rn cs cn buf ld BATCH_ACCESS).
Proof.
  intros Hmode.
  route_prefix only_queued_refl only_queued_trans.
  rewrite Z.eqb_refl.
  destruct (Z.eqb_spec BATCH_ACCESS BLOCKING_ACCESS) as [E|_];
    [contradiction|].
  do 2 step.
  match goal with
  | |- context [bind (index ?l ?i) ?k ?w0] =>
      destruct (index_cases l i w0) as [E|(old & Hold & E)];
      [rewrite (bind_undefined _ _ _ E); exact I
      |rewrite (bind_step _ _ _ _ _ E)]
  end.
  cbv beta. unfold put_mat, kept, only_queued. cbn [gt_mat issued].
  split; [reflexivity|].
  eexists. split; [reflexivity|]. split; [apply length_insert|].
  intros i old' Hold'.
  match goal with
  | |- context [<[Z.to_nat ?d := _]> _] =>
      destruct (Nat.eq_dec i (Z.to_nat d)) as [->|Hne]
  end.
  - rewrite Hold in Hold'. injection Hold' as <-.
    eexists. rewrite list_lookup_insert_eq; [reflexivity|].
    now apply lookup_lt_Some in Hold.
  - exists []. rewrite list_lookup_insert_ne by congruence.
    now rewrite app_nil_r.
Qed.

(** X6.  Whatever its arguments, an update in immediate mode that
    returns leaves the handle as it was: it queues nothing and touches
    no flag.  Whatever its arguments, an update in batch mode that
    returns has issued no MPI call and has changed nothing in the handle
    but the request vectors, each of which still starts with the entries
    it held, in the same order. *)
Theorem updateBlock_modes_are_separate op rs rn cs cn buf ld w :
  BATCH_ACCESS <> BLOCKING_ACCESS ->
  (forall w',
      GTM_updateBlock op rs rn cs cn buf ld BLOCKING_ACCESS w
      = Returns (tt, w') ->
      gt_mat w' = gt_mat w) /\
  (forall w',
      GTM_updateBlock op rs rn cs cn buf ld BATCH_ACCESS w
      = Returns (tt, w') ->
      issued w' = issued w /\
      exists q,
        gt_mat w' = set_req_vec (gt_mat w) q /\
        length q = length (req_vec (gt_mat w)) /\
        forall (i : nat) old,
          req_vec (gt_mat w) !! i = Some old ->
          exists new, q !! i = Some (old ++ new)).
Proof.
  intros Hmode. split; intros w' Hrun.
  - pose proof (updateBlock_keeps_handle op rs rn cs cn buf ld Hmode w) as H.
    rewrite Hrun in H. exact H.
  - pose proof (updateBlock_only_queues op rs rn cs cn buf ld Hmode w) as H.
    rewrite Hrun in H. exact H.
Qed.

(** ** Rectangles and regions *)

Lemma updateBlock_blocking_run g t op rs rn cs cn buf ld :
  BATCH_ACCESS <> BLOCKING_ACCESS ->
  partition_ok g = true -> grid_ok g = true -> queues_ok g = true ->
  in_bounds g rs rn cs cn = true ->
  route_arith_ok g rn cn ld = true ->
  cache_ok MPI_DT_SB_DIM_MAX g = true ->
  immediate_arith_ok g ld = true ->
  exists s_r e_r s_c e_c,
    (0 <= s_r /\ s_r <= e_r /\ e_r < r_blocks g /\
     displ (r_displs g) s_r <= rs < displ (r_displs g) (s_r + 1) /\
     displ (r_displs g) e_r <= rs + rn - 1 < displ (r_displs g) (e_r + 1)) /\
    (0 <= s_c /\ s_c <= e_c /\ e_c < c_blocks g /\
     displ (c_displs g) s_c <= cs < displ (c_displs g) (s_c + 1) /\
     displ (c_displs g) e_c <= cs + cn - 1 < displ (c_displs g) (e_c + 1)) /\
    GTM_updateBlock op rs rn cs cn buf ld BLOCKING_ACCESS (mkWorld g t)
    = Returns (tt, mkWorld g
                     (t ++ flat_map (pair_calls g)
                             (routed_pairs g op rs rn cs cn buf ld
                                s_r e_r s_c e_c))).
Proof.
  intros Hmode Hpart Hgrid Hqueues Hin Har Hcache Him.
  destruct (updateBlock_run g t op rs rn cs cn buf ld BLOCKING_ACCESS
              Hpart Hgrid Hqueues Hin Har)
    as (s_r & e_r & s_c & e_c & Hr & Hc & Hblk).
  exists s_r, e_r, s_c, e_c. split; [exact Hr|]. split; [exact Hc|].
  rewrite Z.eqb_refl in Hblk.
  destruct (Z.eqb_spec BLOCKING_ACCESS BATCH_ACCESS) as [E|_];
    [now symmetry in E|].
  destruct Hblk as (q0 & Hrun0 & ->).
  { intros _ [d e] Hp.
    apply routed_pairs_elem in Hp as (r & c & Hrr & Hcr & -> & ->).
    now apply (sub_block_replay_defined g op rs rn cs cn buf ld
                 s_r e_r s_c e_c). }
  now rewrite set_req_vec_same in Hrun0.
Qed.

Lemma seqZ_one m : seqZ m 1 = [m].
Proof. reflexivity. Qed.

Lemma inside_region_in_bounds g d rs rn cs cn :
  partition_ok g = true -> owner_ok g d = true ->
  inside_region g d rs rn cs cn = true ->
  in_bounds g rs rn cs cn = true.
Proof.
  intros Hpart Hown Hins.
  destruct (owner_block_bounds g d Hown) as [Hr Hc].
  unfold partition_ok in Hpart. apply andb_true_iff in Hpart as [Hrows Hcols].
  unfold inside_region, region_row_start, region_row_end, region_col_start,
    region_col_end in Hins. unbool.
  pose proof (displ_range _ _ _ Hrows (Z.quot d (c_blocks g)) ltac:(lia)).
  pose proof (displ_range _ _ _ Hrows (Z.quot d (c_blocks g) + 1) ltac:(lia)).
  pose proof (displ_range _ _ _ Hcols (Z.rem d (c_blocks g)) ltac:(lia)).
  pose proof (displ_range _ _ _ Hcols (Z.rem d (c_blocks g) + 1) ltac:(lia)).
  unfold in_bounds. bool_goal; lia.
Qed.

(** X7.  An immediate update of a rectangle that lies inside the region
    of one rank is not split: GTM_putBlock, respectively
    GTM_accumulateBlock, does exactly what a shared lock on that rank, one
    GTM_updateBlockToProcess with the caller's own rectangle, buffer and
    leading dimension, and the unlock do, and it returns. *)
Theorem immediate_update_inside_one_region g t op d rs rn cs cn buf ld :
  BATCH_ACCESS <> BLOCKING_ACCESS ->
  partition_ok g = true -> grid_ok g = true -> queues_ok g = true ->
  owner_ok g d = true ->
  inside_region g d rs rn cs cn = true ->
  route_arith_ok g rn cn ld = true ->
  cache_ok MPI_DT_SB_DIM_MAX g = true ->
  immediate_arith_ok g ld = true ->
  (match op with
   | MPI_REPLACE => GTM_putBlock
   | MPI_SUM => GTM_accumulateBlock
   end) rs rn cs cn buf ld (mkWorld g t)
  = (mpi (Win_lock MPI_LOCK_SHARED d 0 (mpi_win g));;
     GTM_updateBlockToProcess d op rs rn cs cn buf ld;;
     mpi (Win_unlock d (mpi_win g))) (mkWorld g t) /\
  exists calls,
    (match op with
     | MPI_REPLACE => GTM_putBlock
     | MPI_SUM => GTM_accumulateBlock
     end) rs rn cs cn buf ld (mkWorld g t)
    = Returns (tt, mkWorld g
                     (t ++ [Win_lock MPI_LOCK_SHARED d 0 (mpi_win g)]
                        ++ calls ++ [Win_unlock d (mpi_win g)])).
Proof.
  intros Hmode Hpart Hgrid Hqueues Hown Hins Har Hcache Him.
  pose proof (inside_region_in_bounds g d rs rn cs cn Hpart Hown Hins) as Hin.
  destruct (updateBlock_blocking_run g t op rs rn cs cn buf ld
              Hmode Hpart Hgrid Hqueues Hin Har Hcache Him)
    as (s_r & e_r & s_c & e_c & Hr & Hc & Hrun).
  pose proof (sub_block_replay_defined g op rs rn cs cn buf ld
                s_r e_r s_c e_c (Z.quot d (c_blocks g))
                (Z.rem d (c_blocks g)) Hpart Hgrid Hin Har Hcache Him Hr Hc)
    as Hdef.
  destruct (owner_block_bounds g d Hown) as [Hqr Hqc].
  pose proof Hpart as Hpart'. unfold partition_ok in Hpart'.
  apply andb_true_iff in Hpart' as [Hrows Hcols].
  pose proof Hown as Hown'. unfold owner_ok in Hown'.
  pose proof Hins as Hins'.
  unfold inside_region, region_row_start, region_row_end, region_col_start,
    region_col_end in Hins'. unbool.
  destruct Hr as (Hsr0 & Hser & Her & Hbsr & Hber).
  destruct Hc as (Hsc0 & Hsec & Hec & Hbsc & Hbec).
  set (r := Z.quot d (c_blocks g)) in *.
  set (c := Z.rem d (c_blocks g)) in *.
  assert (s_r = r) by (apply (block_unique _ _ _ Hrows rs); lia).
  assert (e_r = r) by (apply (block_unique _ _ _ Hrows (rs + rn - 1)); lia).
  assert (s_c = c) by (apply (block_unique _ _ _ Hcols cs); lia).
  assert (e_c = c) by (apply (block_unique _ _ _ Hcols (cs + cn - 1)); lia).
  subst s_r e_r s_c e_c.
  assert (Ed : r * c_blocks g + c = d).
  { pose proof (Z.quot_rem' d (c_blocks g)). subst r c. lia. }
  assert (Esub : sub_block g op rs rn cs cn buf ld r c
                 = mkReq op rs rn cs cn buf ld).
  { unfold sub_block. cbv zeta.
    rewrite !Z.max_r, !Z.min_r by lia. f_equal; lia. }
  rewrite Ed, Esub in Hdef. specialize (Hdef ltac:(lia) ltac:(lia)).
  unfold routed_pairs in Hrun.
  replace (r - r + 1) with 1 in Hrun by lia.
  replace (c - c + 1) with 1 in Hrun by lia.
  rewrite !seqZ_one in Hrun. cbn [mbind list_bind fmap list_fmap app] in Hrun.
  unfold block_pair in Hrun. rewrite Ed, Esub in Hrun.
  cbn [flat_map] in Hrun. unfold pair_calls in Hrun. cbn [fst snd] in Hrun.
  rewrite app_nil_r in Hrun.
  assert (Hentry : (match op with
                    | MPI_REPLACE => GTM_putBlock
                    | MPI_SUM => GTM_accumulateBlock
                    end) rs rn cs cn buf ld (mkWorld g t)
                   = GTM_updateBlock op rs rn cs cn buf ld BLOCKING_ACCESS
                       (mkWorld g t)) by now destruct op.
  rewrite Hentry, Hrun. split; [|eexists; reflexivity].
  step.
  pose proof (replay_run g (req_vec g)
                (t ++ [Win_lock MPI_LOCK_SHARED d 0 (mpi_win g)]) d
                (mkReq op rs rn cs cn buf ld) Hdef) as Hrep.
  rewrite set_req_vec_same in Hrep. unfold replay in Hrep.
  cbn [req_op req_row_start req_row_num req_col_start req_col_num
       req_src_buf req_src_buf_ld] in Hrep.
  rewrite (bind_step _ _ _ _ _ Hrep). unfold mpi. cbn [gt_mat issued].
  now rewrite <- !app_assoc.
Qed.

(** X8.  Every entry that a batch-mode request queues carries the
    caller's operation and leading dimension, and its source pointer is
    the address, in the caller's buffer, of the first cell of the entry's
    sub-rectangle: [src_buf + ((row - row_start) * src_buf_ld
    + (col - col_start)) * unit_size].  A request adds at most one entry
    to a request vector. *)
Theorem queued_entries_address_source g t op rs rn cs cn buf ld :
  BATCH_ACCESS <> BLOCKING_ACCESS ->
  partition_ok g = true -> grid_ok g = true -> queues_ok g = true ->
  in_bounds g rs rn cs cn = true ->
  route_arith_ok g rn cn ld = true ->
  exists q',
    GTM_updateBlock op rs rn cs cn buf ld BATCH_ACCESS (mkWorld g t)
    = Returns (tt, mkWorld (set_req_vec g q') t) /\
    forall d old,
      0 <= d -> req_vec g !! Z.to_nat d = Some old ->
      exists new,
        q' !! Z.to_nat d = Some (old ++ new) /\
        (length new <= 1)%nat /\
        forall e, e ∈ new ->
          req_op e = op /\ req_src_buf_ld e = ld /\
          req_src_buf e
          = buf + ((req_row_start e - rs) * ld + (req_col_start e - cs))
                  * unit_size g.
Proof.
  intros Hmode Hpart Hgrid Hqueues Hin Har.
  destruct (updateBlock_batch_queues g t op rs rn cs cn buf ld
              Hmode Hpart Hgrid Hqueues Hin Har)
    as (s_r & e_r & s_c & e_c & q' & Hr & Hc & Hrun & Hlen & Hq').
  exists q'. split; [exact Hrun|]. intros d old Hd Hold.
  destruct (Hq' d old Hd Hold) as (_ & _ & Hlook).
  eexists. split; [exact Hlook|]. split.
  - unfold routed_to. cbv zeta.
    destruct (_ && _); cbn; lia.
  - intros e He. apply routed_to_elem in He as [_ ->].
    cbn. auto.
Qed.

(** X9.  A batch-mode request for the whole matrix gives every rank
    exactly one new entry, and that entry is exactly the region of the
    rank: its rows and columns are the ones the displacement tables
    assign to the rank. *)
Theorem whole_matrix_request_splits_by_region g t op buf ld :
  BATCH_ACCESS <> BLOCKING_ACCESS ->
  partition_ok g = true -> grid_ok g = true -> queues_ok g = true ->
  0 < nrows g -> 0 < ncols g ->
  route_arith_ok g (nrows g) (ncols g) ld = true ->
  exists q',
    GTM_updateBlock op 0 (nrows g) 0 (ncols g) buf ld BATCH_ACCESS
      (mkWorld g t)
    = Returns (tt, mkWorld (set_req_vec g q') t) /\
    forall d old,
      0 <= d -> req_vec g !! Z.to_nat d = Some old ->
      exists e,
        q' !! Z.to_nat d = Some (old ++ [e]) /\
        req_row_start e = region_row_start g d /\
        req_row_start e + req_row_num e = region_row_end g d /\
        req_col_start e = region_col_start g d /\
        req_col_start e + req_col_num e = region_col_end g d.
Proof.
  intros Hmode Hpart Hgrid Hqueues Hnr Hnc Har.
  pose proof Hpart as Hpart'. unfold partition_ok in Hpart'.
  apply andb_true_iff in Hpart' as [Hrows Hcols].
  assert (Hin : in_bounds g 0 (nrows g) 0 (ncols g) = true).
  { unfold in_bounds. bool_goal; lia. }
  destruct (updateBlock_batch_queues g t op 0 (nrows g) 0 (ncols g) buf ld
              Hmode Hpart Hgrid Hqueues Hin Har)
    as (s_r & e_r & s_c & e_c & q' & Hr & Hc & Hrun & Hlen & Hq').
  exists q'. split; [exact Hrun|]. intros d old Hd Hold.
  destruct (Hq' d old Hd Hold) as (Hcpos & Hdiv & Hlook).
  destruct Hr as (Hsr0 & Hser & Her & Hbsr & Hber).
  destruct Hc as (Hsc0 & Hsec & Hec & Hbsc & Hbec).
  pose proof (table_first _ _ _ Hrows) as Hr0.
  pose proof (table_last _ _ _ Hrows) as Hr1.
  pose proof (table_first _ _ _ Hcols) as Hc0.
  pose proof (table_last _ _ _ Hcols) as Hc1.
  pose proof (table_blocks _ _ _ Hrows) as Hrb.
  pose proof (table_blocks _ _ _ Hcols) as Hcb.
  pose proof (displ_step _ _ _ Hrows 0 ltac:(lia)) as Hr2.
  pose proof (displ_step _ _ _ Hrows (r_blocks g - 1) ltac:(lia)) as Hr3.
  pose proof (displ_step _ _ _ Hcols 0 ltac:(lia)) as Hc2.
  pose proof (displ_step _ _ _ Hcols (c_blocks g - 1) ltac:(lia)) as Hc3.
  replace (r_blocks g - 1 + 1) with (r_blocks g) in Hr3 by lia.
  replace (c_blocks g - 1 + 1) with (c_blocks g) in Hc3 by lia.
  cbn [Z.add] in Hr2, Hc2.
  assert (s_r = 0) by (apply (block_unique _ _ _ Hrows 0); cbn [Z.add]; lia).
  assert (e_r = r_blocks g - 1)
    by (apply (block_unique _ _ _ Hrows (0 + nrows g - 1));
        rewrite ?Z.sub_add; lia).
  assert (s_c = 0) by (apply (block_unique _ _ _ Hcols 0); cbn [Z.add]; lia).
  assert (e_c = c_blocks g - 1)
    by (apply (block_unique _ _ _ Hcols (0 + ncols g - 1));
        rewrite ?Z.sub_add; lia).
  subst s_r e_r s_c e_c.
  pose proof (Z.mod_pos_bound d (c_blocks g) Hcpos) as Hmod.
  set (r := d / c_blocks g) in *. set (c := d mod c_blocks g) in *.
  exists (sub_block g op 0 (nrows g) 0 (ncols g) buf ld r c). split.
  - rewrite Hlook. unfold routed_to. cbv zeta. fold r c.
    destruct (Z.leb_spec 0 r); destruct (Z.leb_spec r (r_blocks g - 1));
      destruct (Z.leb_spec 0 c); destruct (Z.leb_spec c (c_blocks g - 1));
      cbn; lia || reflexivity.
  - pose proof (sub_block_extent g op 0 (nrows g) 0 (ncols g) buf ld r c)
      as (E1 & E2 & E3 & E4).
    cbv zeta in *.
    unfold region_row_start, region_row_end, region_col_start,
      region_col_end.
    rewrite Z.quot_div_nonneg, Z.rem_mod_nonneg by lia. fold r c.
    pose proof (displ_range _ _ _ Hrows r ltac:(lia)).
    pose proof (displ_range _ _ _ Hrows (r + 1) ltac:(lia)).
    pose proof (displ_range _ _ _ Hcols c ltac:(lia)).
    pose proof (displ_range _ _ _ Hcols (c + 1) ltac:(lia)).
    lia.
Qed.

(** ** Successive batch requests *)

Lemma routed_to_length g op rs rn cs cn buf ld s_r e_r s_c e_c d :
  (length (routed_to g op rs rn cs cn buf ld s_r e_r s_c e_c d) <= 1)%nat.
Proof. unfold routed_to. cbv zeta. destruct (_ && _); cbn; lia. Qed.

Lemma queues_ok_extended g q' :
  queues_ok g = true -> queues_room g = true ->
  length q' = length (req_vec g) ->
  (forall d old,
      0 <= d -> req_vec g !! Z.to_nat d = Some old ->
      exists new, q' !! Z.to_nat d = Some (old ++ new) /\
                  (length new <= 1)%nat) ->
  queues_ok (set_req_vec g q') = true.
Proof.
  unfold queues_ok, queues_room. cbn [req_vec comm_size set_req_vec].
  intros Hq Hroom Hlen Hq'. apply andb_true_iff in Hq as [Hq _].
  rewrite Hlen, Hq. apply forallb_forall. intros v Hv.
  apply list_elem_of_In, list_elem_of_lookup_1 in Hv as [i Hi].
  pose proof (lookup_lt_Some _ _ _ Hi) as Hlt. rewrite Hlen in Hlt.
  destruct (lookup_lt_is_Some_2 _ _ Hlt) as [old Hold].
  destruct (Hq' (Z.of_nat i) old ltac:(lia)) as (new & Hnew & Hone).
  { now rewrite Nat2Z.id. }
  rewrite Nat2Z.id, Hi in Hnew. injection Hnew as ->.
  rewrite forallb_forall in Hroom.
  specialize (Hroom old). rewrite <- list_elem_of_In in Hroom.
  specialize (Hroom (list_elem_of_lookup_2 _ _ _ Hold)).
  apply Z.ltb_lt in Hroom. apply in_int_iff.
  unfold curr_size in *. rewrite length_app. unfold INT_MIN. lia.
Qed.

(** X10.  Batch requests are queued in call order: after two batch-mode
    requests, each request vector holds the entries it held before, then
    the entries the first request alone would have added, then the
    entries the second request alone would have added. *)
Theorem batch_requests_queue_in_call_order
    g t op1 rs1 rn1 cs1 cn1 buf1 ld1 op2 rs2 rn2 cs2 cn2 buf2 ld2 :
  BATCH_ACCESS <> BLOCKING_ACCESS ->
  partition_ok g = true -> grid_ok g = true -> queues_ok g = true ->
  queues_room g = true ->
  in_bounds g rs1 rn1 cs1 cn1 = true ->
  route_arith_ok g rn1 cn1 ld1 = true ->
  in_bounds g rs2 rn2 cs2 cn2 = true ->
  route_arith_ok g rn2 cn2 ld2 = true ->
  exists q1 q2 q12,
    GTM_updateBlock op1 rs1 rn1 cs1 cn1 buf1 ld1 BATCH_ACCESS (mkWorld g t)
    = Returns (tt, mkWorld (set_req_vec g q1) t) /\
    GTM_updateBlock op2 rs2 rn2 cs2 cn2 buf2 ld2 BATCH_ACCESS (mkWorld g t)
    = Returns (tt, mkWorld (set_req_vec g q2) t) /\
    (GTM_updateBlock op1 rs1 rn1 cs1 cn1 buf1 ld1 BATCH_ACCESS;;
     GTM_updateBlock op2 rs2 rn2 cs2 cn2 buf2 ld2 BATCH_ACCESS)
      (mkWorld g t)
    = Returns (tt, mkWorld (set_req_vec g q12) t) /\
    forall d old,
      0 <= d -> req_vec g !! Z.to_nat d = Some old ->
      exists new1 new2,
        q1 !! Z.to_nat d = Some (old ++ new1) /\
        q2 !! Z.to_nat d = Some (old ++ new2) /\
        q12 !! Z.to_nat d = Some (old ++ new1 ++ new2).
Proof.
  intros Hmode Hpart Hgrid Hqueues Hroom Hin1 Har1 Hin2 Har2.
  destruct (updateBlock_batch_queues g t op1 rs1 rn1 cs1 cn1 buf1 ld1
              Hmode Hpart Hgrid Hqueues Hin1 Har1)
    as (s_r1 & e_r1 & s_c1 & e_c1 & q1 & Hr1 & Hc1 & Hrun1 & Hlen1 & Hq1).
  destruct (updateBlock_batch_queues g t op2 rs2 rn2 cs2 cn2 buf2 ld2
              Hmode Hpart Hgrid Hqueues Hin2 Har2)
    as (s_r2 & e_r2 & s_c2 & e_c2 & q2 & Hr2 & Hc2 & Hrun2 & Hlen2 & Hq2).
  assert (Hqueues1 : queues_ok (set_req_vec g q1) = true).
  { apply queues_ok_extended; try assumption.
    intros d old Hd Hold. destruct (Hq1 d old Hd Hold) as (_ & _ & Hl).
    eexists. split; [exact Hl|apply routed_to_length]. }
  destruct (updateBlock_batch_queues (set_req_vec g q1) t op2 rs2 rn2 cs2 cn2
              buf2 ld2 Hmode Hpart Hgrid Hqueues1 Hin2 Har2)
    as (s_r & e_r & s_c & e_c & q12 & Hr & Hc & Hrun12 & Hlen12 & Hq12).
  cbn [r_blocks c_blocks r_displs c_displs req_vec set_req_vec] in *.
  pose proof Hpart as Hpart'. unfold partition_ok in Hpart'.
  apply andb_true_iff in Hpart' as [Hrows Hcols].
  pose proof Hin2 as Hin2'. unfold in_bounds in Hin2'. unbool.
  assert (s_r = s_r2) by (apply (block_unique _ _ _ Hrows rs2); lia).
  assert (e_r = e_r2)
    by (apply (block_unique _ _ _ Hrows (rs2 + rn2 - 1)); lia).
  assert (s_c = s_c2) by (apply (block_unique _ _ _ Hcols cs2); lia).
  assert (e_c = e_c2)
    by (apply (block_unique _ _ _ Hcols (cs2 + cn2 - 1)); lia).
  subst s_r e_r s_c e_c.
  exists q1, q2, q12. split; [exact Hrun1|]. split; [exact Hrun2|]. split.
  - rewrite (bind_step _ _ _ _ _ Hrun1). exact Hrun12.
  - intros d old Hd Hold.
    destruct (Hq1 d old Hd Hold) as (_ & _ & Hl1).
    destruct (Hq2 d old Hd Hold) as (_ & _ & Hl2).
    destruct (Hq12 d _ Hd Hl1) as (_ & _ & Hl12).
    eexists _, _. split; [exact Hl1|]. split; [exact Hl2|].
    rewrite <- app_assoc in Hl12. exact Hl12.
Qed.

(** ** A queued request and its drain against the immediate update *)

Lemma replay_defined_frame g q d e :
  replay_defined (set_req_vec g q) d e = replay_defined g d e.
Proof.
  unfold replay_defined, replay.
  destruct (updateBlockToProcess_frame d (req_op e) (req_row_start e)
              (req_row_num e) (req_col_start e) (req_col_num e)
              (req_src_buf e) (req_src_buf_ld e) g) as [r Hr].
  pose proof (Hr (req_vec g) []) as H0. rewrite set_req_vec_same in H0.
  rewrite H0, Hr. now destruct r.
Qed.

Lemma replay_calls_frame g q d e :
  replay_calls (set_req_vec g q) d e = replay_calls g d e.
Proof.
  unfold replay_calls, replay.
  destruct (updateBlockToProcess_frame d (req_op e) (req_row_start e)
              (req_row_num e) (req_col_start e) (req_col_num e)
              (req_src_buf e) (req_src_buf_ld e) g) as [r Hr].
  pose proof (Hr (req_vec g) []) as H0. rewrite set_req_vec_same in H0.
  rewrite H0, Hr. now destruct r.
Qed.

Lemma replays_defined_intro g qs :
  forall d0,
    (forall (k : nat) q e,
        qs !! k = Some q -> e ∈ q ->
        replay_defined g (d0 + Z.of_nat k) e = true) ->
    replays_defined g d0 qs = true.
Proof.
  induction qs as [|q0 qs IH]; intros d0 H; [reflexivity|].
  cbn [replays_defined]. apply andb_true_iff. split.
  - apply forallb_forall. intros e He. apply list_elem_of_In in He.
    specialize (H 0%nat q0 e eq_refl He). now rewrite Z.add_0_r in H.
  - apply IH. intros k q e Hk He.
    replace (d0 + 1 + Z.of_nat k) with (d0 + Z.of_nat (S k)) by lia.
    now apply (H (S k) q e).
Qed.

Lemma visit_order_range g d :
  0 <= my_rank g < comm_size g ->
  d ∈ visit_order g -> 0 <= d < comm_size g.
Proof.
  intros Hr Hd. apply list_elem_of_In in Hd. unfold visit_order in Hd.
  apply in_map_iff in Hd as (i & <- & Hi).
  apply in_app_iff in Hi. rewrite !in_seq in Hi. lia.
Qed.

Lemma flat_map_ext_elem {A B} (f h : A -> list B) (l : list A) :
  (forall x, x ∈ l -> f x = h x) -> flat_map f l = flat_map h l.
Proof.
  induction l as [|x l IH]; intros H; [reflexivity|].
  cbn. rewrite (H x) by apply list_elem_of_here. f_equal.
  apply IH. intros y Hy. apply H. now apply list_elem_of_further.
Qed.

Lemma flat_map_nil_elem {A B} (f : A -> list B) (l : list A) :
  (forall x, x ∈ l -> f x = []) -> flat_map f l = [].
Proof.
  intros H. rewrite (flat_map_ext_elem f (fun _ => []) l H).
  now apply flat_map_nil.
Qed.

Lemma flat_map_fmap {A B C} (h : B -> list C) (f : A -> B) (l : list A) :
  flat_map h (f <$> l) = flat_map (fun x => h (f x)) l.
Proof. induction l as [|x l IH]; [reflexivity|]. cbn. now rewrite IH. Qed.

Lemma flat_map_list_bind {A B C} (h : B -> list C) (k : A -> list B)
    (l : list A) :
  flat_map h (l ≫= k) = flat_map (fun x => flat_map h (k x)) l.
Proof.
  induction l as [|x l IH]; [reflexivity|].
  rewrite bind_cons, flat_map_app. cbn [flat_map]. now rewrite IH.
Qed.

Lemma flat_map_seqZ_shift {B} (F : Z -> list B) m n :
  flat_map F (seqZ m n) = flat_map (fun c => F (m + c)) (seqZ 0 n).
Proof.
  unfold seqZ. rewrite !flat_map_fmap. apply flat_map_ext. intros i.
  f_equal. lia.
Qed.

Lemma flat_map_grid {B} (F : Z -> list B) rb cb :
  0 <= rb -> 0 <= cb ->
  flat_map F (seqZ 0 (rb * cb))
  = flat_map (fun r => flat_map (fun c => F (r * cb + c)) (seqZ 0 cb))
      (seqZ 0 rb).
Proof.
  intros Hrb Hcb. revert rb Hrb. apply natlike_ind; [reflexivity|].
  intros rb Hrb IH. unfold Z.succ.
  replace ((rb + 1) * cb) with (rb * cb + cb) by lia.
  rewrite seqZ_app by nia. rewrite (seqZ_snoc 0 rb) by lia.
  rewrite !flat_map_app, IH. f_equal. cbn [flat_map Z.add].
  rewrite app_nil_r. apply flat_map_seqZ_shift.
Qed.

Lemma flat_map_seqZ_restrict {B} (F G : Z -> list B) n a b :
  0 <= a -> a <= b + 1 -> b < n ->
  (forall x, 0 <= x < n ->
             F x = if (a <=? x) && (x <=? b) then G x else []) ->
  flat_map F (seqZ 0 n) = flat_map G (seqZ a (b - a + 1)).
Proof.
  intros Ha Hab Hb HF.
  replace n with (a + ((b - a + 1) + (n - b - 1))) at 1 by lia.
  rewrite seqZ_app by lia. rewrite seqZ_app by lia.
  rewrite !flat_map_app, !Z.add_0_l.
  rewrite (flat_map_nil_elem F (seqZ 0 a)).
  2:{ intros x Hx. apply elem_of_seqZ in Hx. rewrite HF by lia.
      destruct (Z.leb_spec a x); [lia|reflexivity]. }
  rewrite (flat_map_nil_elem F (seqZ (a + (b - a + 1)) (n - b - 1))).
  2:{ intros x Hx. apply elem_of_seqZ in Hx. rewrite HF by lia.
      destruct (Z.leb_spec a x); destruct (Z.leb_spec x b);
        lia || reflexivity. }
  rewrite app_nil_r. cbn [app]. apply flat_map_ext_elem.
  intros x Hx. apply elem_of_seqZ in Hx. rewrite HF by lia.
  destruct (Z.leb_spec a x); destruct (Z.leb_spec x b); lia || reflexivity.
Qed.

Lemma rank_share_block g op rs rn cs cn buf ld s_r e_r s_c e_c r c :
  0 <= c < c_blocks g ->
  rank_share g op rs rn cs cn buf ld s_r e_r s_c e_c (r * c_blocks g + c)
  = if (s_r <=? r) && (r <=? e_r) && (s_c <=? c) && (c <=? e_c)
    then pair_calls g (block_pair g op rs rn cs cn buf ld r c)
    else [].
Proof.
  intros Hc. destruct (rank_div_mod (c_blocks g) r c Hc) as [Ediv Emod].
  unfold rank_share, routed_to. cbv zeta. rewrite Ediv, Emod.
  destruct (_ && _); [|reflexivity].
  cbn [fmap list_fmap flat_map]. now rewrite app_nil_r.
Qed.

Lemma immediate_by_rank g op rs rn cs cn buf ld s_r e_r s_c e_c :
  0 <= s_r -> s_r <= e_r -> e_r < r_blocks g ->
  0 <= s_c -> s_c <= e_c -> e_c < c_blocks g ->
  flat_map (pair_calls g)
    (routed_pairs g op rs rn cs cn buf ld s_r e_r s_c e_c)
  = flat_map (rank_share g op rs rn cs cn buf ld s_r e_r s_c e_c)
      (seqZ 0 (r_blocks g * c_blocks g)).
Proof.
  intros Hsr Hser Her Hsc Hsec Hec.
  rewrite flat_map_grid by lia. unfold routed_pairs.
  rewrite flat_map_list_bind. symmetry.
  apply flat_map_seqZ_restrict; try lia.
  intros r Hr. destruct ((s_r <=? r) && (r <=? e_r)) eqn:E.
  - rewrite flat_map_fmap. apply flat_map_seqZ_restrict; try lia.
    intros c Hc. rewrite rank_share_block by lia. now rewrite E.
  - apply flat_map_nil_elem. intros c Hc. apply elem_of_seqZ in Hc.
    rewrite rank_share_block by lia. now rewrite E.
Qed.

Lemma drain_share g op rs rn cs cn buf ld s_r e_r s_c e_c q' d :
  q' !! Z.to_nat d
  = Some (routed_to g op rs rn cs cn buf ld s_r e_r s_c e_c d) ->
  drain_calls (set_req_vec g q') d
  = rank_share g op rs rn cs cn buf ld s_r e_r s_c e_c d.
Proof.
  intros Hq. unfold drain_calls, rank_share.
  cbn [req_vec set_req_vec mpi_win]. rewrite Hq.
  unfold routed_to. cbv zeta. destruct (_ && _); [|reflexivity].
  cbn [fmap list_fmap flat_map]. unfold pair_calls. cbn [fst snd].
  now rewrite replay_calls_frame, !app_nil_r.
Qed.

Lemma batch_drain_run g t op rs rn cs cn buf ld :
  BATCH_ACCESS <> BLOCKING_ACCESS ->
  partition_ok g = true -> grid_ok g = true -> queues_ok g = true ->
  self_ok g = true ->
  in_bounds g rs rn cs cn = true ->
  route_arith_ok g rn cn ld = true ->
  cache_ok MPI_DT_SB_DIM_MAX g = true ->
  immediate_arith_ok g ld = true ->
  is_batch_updating g <> 0 ->
  (forall v, v ∈ req_vec g -> v = []) ->
  exists s_r e_r s_c e_c,
    (0 <= s_r /\ s_r <= e_r /\ e_r < r_blocks g /\
     displ (r_displs g) s_r <= rs < displ (r_displs g) (s_r + 1) /\
     displ (r_displs g) e_r <= rs + rn - 1 < displ (r_displs g) (e_r + 1)) /\
    (0 <= s_c /\ s_c <= e_c /\ e_c < c_blocks g /\
     displ (c_displs g) s_c <= cs < displ (c_displs g) (s_c + 1) /\
     displ (c_displs g) e_c <= cs + cn - 1 < displ (c_displs g) (e_c + 1)) /\
    GTM_updateBlock op rs rn cs cn buf ld BLOCKING_ACCESS (mkWorld g t)
    = Returns (tt, mkWorld g
                     (t ++ flat_map
                             (rank_share g op rs rn cs cn buf ld
                                s_r e_r s_c e_c)
                             (seqZ 0 (comm_size g)))) /\
    (GTM_updateBlock op rs rn cs cn buf ld BATCH_ACCESS;;
     GTM_execBatchUpdate) (mkWorld g t)
    = Returns (tt, mkWorld g
                     (t ++ flat_map
                             (rank_share g op rs rn cs cn buf ld
                                s_r e_r s_c e_c)
                             (visit_order g))).
Proof.
  intros Hmode Hpart Hgrid Hqueues Hself Hin Har Hcache Him Hopen Hempty.
  destruct (updateBlock_batch_queues g t op rs rn cs cn buf ld
              Hmode Hpart Hgrid Hqueues Hin Har)
    as (s_r & e_r & s_c & e_c & q' & Hr & Hc & Hrun & Hlen & Hq').
  destruct (updateBlock_blocking_run g t op rs rn cs cn buf ld
              Hmode Hpart Hgrid Hqueues Hin Har Hcache Him)
    as (s_r' & e_r' & s_c' & e_c' & Hr' & Hc' & Hblk).
  pose proof (fun r c =>
                sub_block_replay_defined g op rs rn cs cn buf ld
                  s_r e_r s_c e_c r c Hpart Hgrid Hin Har Hcache Him Hr Hc)
    as Hreplay.
  pose proof Hpart as Hpart'. unfold partition_ok in Hpart'.
  apply andb_true_iff in Hpart' as [Hrows Hcols].
  pose proof Hin as Hin'. unfold in_bounds in Hin'.
  pose proof Hgrid as Hgrid'. unfold grid_ok in Hgrid'.
  pose proof Hqueues as Hqueues'. unfold queues_ok in Hqueues'.
  pose proof Hself as Hself'. unfold self_ok in Hself'. unbool.
  destruct Hr as (Hsr0 & Hser & Her & Hbsr & Hber).
  destruct Hc as (Hsc0 & Hsec & Hec & Hbsc & Hbec).
  assert (s_r' = s_r) by (apply (block_unique _ _ _ Hrows rs); lia).
  assert (e_r' = e_r) by (apply (block_unique _ _ _ Hrows (rs + rn - 1)); lia).
  assert (s_c' = s_c) by (apply (block_unique _ _ _ Hcols cs); lia).
  assert (e_c' = e_c) by (apply (block_unique _ _ _ Hcols (cs + cn - 1)); lia).
  subst s_r' e_r' s_c' e_c'. clear Hr' Hc'.
  assert (Hlook : forall d,
             0 <= d < comm_size g ->
             0 < c_blocks g /\ 0 <= d / c_blocks g < r_blocks g /\
             q' !! Z.to_nat d
             = Some (routed_to g op rs rn cs cn buf ld s_r e_r s_c e_c d)).
  { intros d Hd.
    destruct (lookup_lt_is_Some_2 (req_vec g) (Z.to_nat d)) as [old Hold];
      [lia|].
    pose proof (Hempty old (list_elem_of_lookup_2 _ _ _ Hold)) as ->.
    exact (Hq' d [] ltac:(lia) Hold). }
  exists s_r, e_r, s_c, e_c.
  split; [repeat split; lia|]. split; [repeat split; lia|]. split.
  - rewrite Hblk.
    replace (comm_size g) with (r_blocks g * c_blocks g) by lia.
    now rewrite immediate_by_rank.
  - rewrite (bind_step _ _ _ _ _ Hrun).
    rewrite (execBatchUpdate_run (set_req_vec g q') t).
    + assert (Efin : set_req_vec (set_req_vec g q')
                       (replicate (length (req_vec (set_req_vec g q'))) [])
                     = g).
      { transitivity (set_req_vec g (req_vec g)); [|apply set_req_vec_same].
        unfold set_req_vec at 1 3.
        cbn [req_vec set_req_vec mpi_win datatype unit_size my_rank
             comm_size nrows ncols r_blocks c_blocks r_displs c_displs
             ld_local sb_stride sb_nostride is_batch_updating
             is_batch_getting].
        f_equal. rewrite Hlen. symmetry. now apply all_empty_replicate. }
      rewrite Efin.
      change (visit_order (set_req_vec g q')) with (visit_order g).
      do 4 f_equal. apply flat_map_ext_elem. intros d Hd.
      apply visit_order_range in Hd; [|lia].
      apply drain_share. now apply Hlook.
    + exact Hopen.
    + apply queues_ok_extended; try assumption.
      * unfold queues_room. apply forallb_forall. intros v Hv.
        apply list_elem_of_In in Hv. now rewrite (Hempty v Hv).
      * intros d old Hd Hold. destruct (Hq' d old Hd Hold) as (_ & _ & Hl).
        eexists. split; [exact Hl|apply routed_to_length].
    + exact Hself.
    + cbn [req_vec set_req_vec]. apply replays_defined_intro.
      intros k q e Hk He. rewrite replay_defined_frame.
      pose proof (lookup_lt_Some _ _ _ Hk) as Hlt.
      destruct (Hlook (Z.of_nat k) ltac:(lia)) as (Hcpos & Hdiv & Hl).
      rewrite Nat2Z.id, Hk in Hl. injection Hl as ->.
      apply routed_to_elem in He as [[Hrr Hcr] ->].
      pose proof (Z.div_mod (Z.of_nat k) (c_blocks g) ltac:(lia)) as Hdm.
      cbn [Z.add].
      replace (Z.of_nat k) with
        (Z.of_nat k / c_blocks g * c_blocks g + Z.of_nat k mod c_blocks g)
        at 1 by lia.
      now apply Hreplay.
Qed.

Lemma queues_empty_elem g :
  queues_empty g = true -> forall v, v ∈ req_vec g -> v = [].
Proof.
  unfold queues_empty. rewrite forallb_forall. intros H v Hv.
  apply list_elem_of_In, H, Z.eqb_eq in Hv. unfold curr_size in Hv.
  destruct v; [reflexivity|discriminate].
Qed.

Lemma rank_share_shape g op rs rn cs cn buf ld s_r e_r s_c e_c d :
  rank_share g op rs rn cs cn buf ld s_r e_r s_c e_c d = [] \/
  exists e,
    rank_share g op rs rn cs cn buf ld s_r e_r s_c e_c d
    = pair_calls g (d, e).
Proof.
  unfold rank_share, routed_to. cbv zeta.
  destruct (_ && _); [right|now left].
  eexists. cbn [fmap list_fmap flat_map]. now rewrite app_nil_r.
Qed.

(** X11.  Queuing a request in an open epoch with empty request vectors
    and draining it issues, rank by rank, the same calls as the immediate
    update of the same rectangle.  Each rank's share is empty or one
    lock, update, unlock; the immediate update issues the shares by
    ascending rank, the drain issues them in its visiting order, which
    starts at the caller's rank.  Both leave the handle as it was. *)
Theorem batch_drain_matches_immediate g t op rs rn cs cn buf ld :
  BATCH_ACCESS <> BLOCKING_ACCESS ->
  partition_ok g = true -> grid_ok g = true -> queues_ok g = true ->
  self_ok g = true ->
  in_bounds g rs rn cs cn = true ->
  route_arith_ok g rn cn ld = true ->
  cache_ok MPI_DT_SB_DIM_MAX g = true ->
  immediate_arith_ok g ld = true ->
  is_batch_updating g <> 0 ->
  queues_empty g = true ->
  exists share : Z -> list MPI_Call,
    (forall d, share d = [] \/ exists e, share d = pair_calls g (d, e)) /\
    GTM_updateBlock op rs rn cs cn buf ld BLOCKING_ACCESS (mkWorld g t)
    = Returns (tt, mkWorld g
                     (t ++ flat_map share (seqZ 0 (comm_size g)))) /\
    (GTM_updateBlock op rs rn cs cn buf ld BATCH_ACCESS;;
     GTM_execBatchUpdate) (mkWorld g t)
    = Returns (tt, mkWorld g (t ++ flat_map share (visit_order g))).
Proof.
  intros Hmode Hpart Hgrid Hqueues Hself Hin Har Hcache Him Hopen Hempty.
  destruct (batch_drain_run g t op rs rn cs cn buf ld Hmode Hpart Hgrid
              Hqueues Hself Hin Har Hcache Him Hopen
              (queues_empty_elem g Hempty))
    as (s_r & e_r & s_c & e_c & _ & _ & Himm & Hbatch).
  exists (rank_share g op rs rn cs cn buf ld s_r e_r s_c e_c).
  split; [intros d; apply rank_share_shape|]. now split.
Qed.

(** ** An access mode that is neither constant *)

(** X12.  GTM_updateBlock tests the access mode against each of the two
    constants and has no other case: with any other value a valid
    rectangle is routed and then dropped, the call returns with the
    handle and the issued calls unchanged. *)
Theorem updateBlock_unknown_mode_ignored
    g t op rs rn cs cn buf ld access_mode :
  access_mode <> BLOCKING_ACCESS -> access_mode <> BATCH_ACCESS ->
  partition_ok g = true -> grid_ok g = true -> queues_ok g = true ->
  in_bounds g rs rn cs cn = true ->
  route_arith_ok g rn cn ld = true ->
  GTM_updateBlock op rs rn cs cn buf ld access_mode (mkWorld g t)
  = Returns (tt, mkWorld g t).
Proof.
  intros Hblocking Hbatch Hpart Hgrid Hqueues Hin Har.
  destruct (updateBlock_run g t op rs rn cs cn buf ld access_mode
              Hpart Hgrid Hqueues Hin Har)
    as (s_r & e_r & s_c & e_c & _ & _ & Hrun).
  destruct (Z.eqb_spec access_mode BLOCKING_ACCESS) as [E|_];
    [contradiction|].
  destruct (Z.eqb_spec access_mode BATCH_ACCESS) as [E|_]; [contradiction|].
  destruct Hrun as (q' & Hrun & ->); [discriminate|].
  now rewrite set_req_vec_same, app_nil_r in Hrun.
Qed.

(** ** Synchronisation of an immediate update *)

Lemma sync_events_app a b :
  sync_events (a ++ b) = sync_events a ++ sync_events b.
Proof. apply flat_map_app. Qed.

Lemma updateBlockToProcess_events g t dst_rank op rs rn cs cn buf ld :
  owner_ok g dst_rank = true ->
  inside_region g dst_rank rs rn cs cn = true ->
  update_arith_ok g dst_rank rs rn cs cn ld = true ->
  cache_ok MPI_DT_SB_DIM_MAX g = true ->
  exists calls,
    GTM_updateBlockToProcess dst_rank op rs rn cs cn buf ld (mkWorld g t)
    = Returns (tt, mkWorld g (t ++ calls)) /\
    sync_events calls = [Wrote dst_rank op].
Proof.
  intros Hown Hin Har Hc.
  destruct (updateBlockToProcess_run g t dst_rank op rs rn cs cn buf ld
              Hown Hin Har Hc) as (calls & Hrun & Hsmall & Hbig).
  exists calls. split; [assumption|].
  destruct (Z.leb_spec rn MPI_DT_SB_DIM_MAX) as [Hrn|Hrn];
    [destruct (Z.leb_spec cn MPI_DT_SB_DIM_MAX) as [Hcn|Hcn]|].
  - destruct (Hsmall Hrn Hcn) as (cd & csrc & _ & _ & H1 & H2 & H3).
    destruct (Z.eq_dec cn ld) as [E|E]; [rewrite (H1 E); reflexivity|].
    destruct (Z.eq_dec (ld_local g) ld) as [E'|E'].
    + rewrite (H2 E E'); reflexivity.
    + rewrite (H3 E E'); reflexivity.
  - rewrite Hbig by lia. reflexivity.
  - rewrite Hbig by lia. reflexivity.
Qed.

Lemma sub_block_update_ok g op rs rn cs cn buf ld s_r e_r s_c e_c r c :
  partition_ok g = true -> grid_ok g = true ->
  in_bounds g rs rn cs cn = true ->
  route_arith_ok g rn cn ld = true ->
  immediate_arith_ok g ld = true ->
  (0 <= s_r /\ s_r <= e_r /\ e_r < r_blocks g /\
   displ (r_displs g) s_r <= rs < displ (r_displs g) (s_r + 1) /\
   displ (r_displs g) e_r <= rs + rn - 1 < displ (r_displs g) (e_r + 1)) ->
  (0 <= s_c /\ s_c <= e_c /\ e_c < c_blocks g /\
   displ (c_displs g) s_c <= cs < displ (c_displs g) (s_c + 1) /\
   displ (c_displs g) e_c <= cs + cn - 1 < displ (c_displs g) (e_c + 1)) ->
  s_r <= r <= e_r -> s_c <= c <= e_c ->
  let d := r * c_blocks g + c in
  let e := sub_block g op rs rn cs cn buf ld r c in
  owner_ok g d = true /\
  inside_region g d (req_row_start e) (req_row_num e)
    (req_col_start e) (req_col_num e) = true /\
  update_arith_ok g d (req_row_start e) (req_row_num e)
    (req_col_start e) (req_col_num e) ld = true.
Proof.
  intros Hpart Hgrid Hin Har Him
    (Hsr0 & Hser & Her & Hbsr & Hber) (Hsc0 & Hsec & Hec & Hbsc & Hbec)
    Hr Hc.
  unfold partition_ok in Hpart. apply andb_true_iff in Hpart as [Hrows Hcols].
  unfold grid_ok in Hgrid. unfold in_bounds in Hin.
  unfold route_arith_ok in Har. unfold immediate_arith_ok in Him. unbool.
  pose proof (table_dim _ _ _ Hrows) as Hnrows.
  pose proof (table_dim _ _ _ Hcols) as Hncols.
  pose proof (table_blocks _ _ _ Hrows) as Hrb.
  pose proof (table_blocks _ _ _ Hcols) as Hcb.
  pose proof (table_length _ _ _ Hrows) as Hrlen.
  pose proof (table_length _ _ _ Hcols) as Hclen.
  pose proof (displ_range _ _ _ Hrows r ltac:(lia)) as Hd0.
  pose proof (displ_range _ _ _ Hrows (r + 1) ltac:(lia)) as Hd1.
  pose proof (displ_step _ _ _ Hrows r ltac:(lia)) as Hd2.
  pose proof (displ_mono _ _ _ Hrows r e_r ltac:(lia) ltac:(lia) ltac:(lia))
    as Hm0.
  pose proof (displ_mono _ _ _ Hrows (s_r + 1) (r + 1) ltac:(lia) ltac:(lia)
                ltac:(lia)) as Hm1.
  pose proof (displ_range _ _ _ Hcols c ltac:(lia)) as Hc0.
  pose proof (displ_range _ _ _ Hcols (c + 1) ltac:(lia)) as Hc1.
  pose proof (displ_step _ _ _ Hcols c ltac:(lia)) as Hc2.
  pose proof (displ_mono _ _ _ Hcols c e_c ltac:(lia) ltac:(lia) ltac:(lia))
    as Hn0.
  pose proof (displ_mono _ _ _ Hcols (s_c + 1) (c + 1) ltac:(lia) ltac:(lia)
                ltac:(lia)) as Hn1.
  pose proof (rank_bounds (r_blocks g) (c_blocks g) r c ltac:(lia)
                ltac:(lia)) as [Hrk0 Hrk1].
  pose proof (rank_div_mod (c_blocks g) r c ltac:(lia)) as [Ediv Emod].
  intros d e. subst e. unfold sub_block.
  cbn [req_row_start req_row_num req_col_start req_col_num]. cbv zeta.
  set (r0 := Z.max (displ (r_displs g) r) rs).
  set (r1 := Z.min (displ (r_displs g) (r + 1) - 1) (rs + rn - 1)).
  set (c0 := Z.max (displ (c_displs g) c) cs).
  set (c1 := Z.min (displ (c_displs g) (c + 1) - 1) (cs + cn - 1)).
  assert (Equot : Z.quot d (c_blocks g) = r)
    by (rewrite Z.quot_div_nonneg by lia; exact Ediv).
  assert (Erem : Z.rem d (c_blocks g) = c)
    by (rewrite Z.rem_mod_nonneg by lia; exact Emod).
  assert (Hrows_le : 0 <= (r0 - displ (r_displs g) r) * ld_local g
                     <= nrows g * ld_local g).
  { split; [apply Z.mul_nonneg_nonneg; lia|].
    apply Z.mul_le_mono_nonneg_r; lia. }
  assert (Harea : 0 <= (r1 - r0 + 1) * (c1 - c0 + 1) <= rn * cn).
  { split; [apply Z.mul_nonneg_nonneg; lia|].
    apply Z.mul_le_mono_nonneg; lia. }
  assert (Hrow_bytes : 0 <= (c1 - c0 + 1) * unit_size g
                       <= ncols g * unit_size g).
  { split; [apply Z.mul_nonneg_nonneg; lia|].
    apply Z.mul_le_mono_nonneg_r; lia. }
  split; [|split].
  - unfold owner_ok. subst d. bool_goal; int_range.
  - unfold inside_region, region_row_start, region_row_end,
      region_col_start, region_col_end.
    rewrite Equot, Erem. bool_goal; int_range.
  - unfold update_arith_ok, region_row_start, region_col_start.
    rewrite Equot, Erem. bool_goal; int_range.
Qed.

Lemma pair_calls_events g op (pairs : list (Z * Req_Entry)) :
  (forall p, p ∈ pairs ->
             sync_events (replay_calls g p.1 p.2) = [Wrote p.1 op]) ->
  sync_events (flat_map (pair_calls g) pairs)
  = flat_map (fun d => [Locked MPI_LOCK_SHARED d; Wrote d op; Unlocked d])
      pairs.*1.
Proof.
  induction pairs as [|p pairs IH]; intros H; [reflexivity|].
  cbn [flat_map fmap list_fmap]. rewrite sync_events_app, IH.
  - f_equal. unfold pair_calls. rewrite !sync_events_app.
    rewrite (H p) by apply list_elem_of_here. reflexivity.
  - intros p' Hp'. apply H. now apply list_elem_of_further.
Qed.

(** X13.  An immediate update locks every owner it touches exactly once,
    with a shared lock for a put as for an accumulate, issues exactly one
    remote write while it holds the lock, to the locked rank and with
    the caller's operation, and unlocks before it takes the next lock. *)
Theorem immediate_update_synchronisation g t op rs rn cs cn buf ld :
  BATCH_ACCESS <> BLOCKING_ACCESS ->
  partition_ok g = true -> grid_ok g = true -> queues_ok g = true ->
  in_bounds g rs rn cs cn = true ->
  route_arith_ok g rn cn ld = true ->
  cache_ok MPI_DT_SB_DIM_MAX g = true ->
  immediate_arith_ok g ld = true ->
  exists calls ranks,
    (match op with
     | MPI_REPLACE => GTM_putBlock
     | MPI_SUM => GTM_accumulateBlock
     end) rs rn cs cn buf ld (mkWorld g t)
    = Returns (tt, mkWorld g (t ++ calls)) /\
    NoDup ranks /\
    sync_events calls
    = flat_map (fun d => [Locked MPI_LOCK_SHARED d; Wrote d op; Unlocked d])
        ranks.
Proof.
  intros Hmode Hpart Hgrid Hqueues Hin Har Hcache Him.
  destruct (updateBlock_blocking_run g t op rs rn cs cn buf ld
              Hmode Hpart Hgrid Hqueues Hin Har Hcache Him)
    as (s_r & e_r & s_c & e_c & Hr & Hc & Hrun).
  exists (flat_map (pair_calls g)
            (routed_pairs g op rs rn cs cn buf ld s_r e_r s_c e_c)),
    (routed_pairs g op rs rn cs cn buf ld s_r e_r s_c e_c).*1.
  split; [|split].
  - replace (match op with
             | MPI_REPLACE => GTM_putBlock
             | MPI_SUM => GTM_accumulateBlock
             end) with (fun rs rn cs cn buf ld =>
                          GTM_updateBlock op rs rn cs cn buf ld
                            BLOCKING_ACCESS)
      by now destruct op.
    exact Hrun.
  - apply routed_pairs_NoDup; lia.
  - apply pair_calls_events. intros [d e] Hp.
    apply routed_pairs_elem in Hp as (r & c & Hrr & Hcr & -> & ->).
    destruct (sub_block_update_ok g op rs rn cs cn buf ld s_r e_r s_c e_c
                r c Hpart Hgrid Hin Har Him Hr Hc Hrr Hcr)
      as (Hown & Hins & Hua).
    destruct (updateBlockToProcess_events g [] _ op _ _ _ _
                (req_src_buf (sub_block g op rs rn cs cn buf ld r c)) ld
                Hown Hins Hua Hcache) as (calls & Hcalls & Hev).
    cbn [fst snd]. unfold replay_calls, replay.
    change (req_op (sub_block g op rs rn cs cn buf ld r c)) with op.
    change (req_src_buf_ld (sub_block g op rs rn cs cn buf ld r c)) with ld.
    now rewrite Hcalls.
Qed.

(** ** A whole batch-update epoch *)

Lemma updateBlockToProcess_frame_flag dst_rank op rs rn cs cn buf ld g :
  exists r : option (list MPI_Call),
    forall b t,
      GTM_updateBlockToProcess dst_rank op rs rn cs cn buf ld
        (mkWorld (set_is_batch_updating g b) t)
      = match r with
        | Some calls =>
            Returns (tt, mkWorld (set_is_batch_updating g b) (t ++ calls))
        | None => Undefined
        end.
Proof.
  unfold GTM_updateBlockToProcess.
  match goal with
  | |- context [bind get_mat ?k] =>
      assert (Hk : emits (k g)) by (cbv beta zeta; prove_emits);
      destruct Hk as [r Hr]
  end.
  exists (option_map snd r). intros b t. step.
  cbn [set_is_batch_updating c_blocks r_displs c_displs ld_local unit_size
       sb_stride sb_nostride datatype mpi_win].
  cbn [c_blocks r_displs c_displs ld_local unit_size sb_stride
       sb_nostride datatype mpi_win] in Hr.
  rewrite Hr. destruct r as [[[] calls]|]; reflexivity.
Qed.

Lemma set_is_batch_updating_same g :
  set_is_batch_updating g (is_batch_updating g) = g.
Proof. now destruct g. Qed.

Lemma replay_calls_flag g b d e :
  replay_calls (set_is_batch_updating g b) d e = replay_calls g d e.
Proof.
  unfold replay_calls, replay.
  destruct (updateBlockToProcess_frame_flag d (req_op e) (req_row_start e)
              (req_row_num e) (req_col_start e) (req_col_num e)
              (req_src_buf e) (req_src_buf_ld e) g) as [r Hr].
  pose proof (Hr (is_batch_updating g) []) as H0.
  rewrite set_is_batch_updating_same in H0.
  rewrite H0, Hr. now destruct r.
Qed.

Lemma rank_share_opened g q b op rs rn cs cn buf ld s_r e_r s_c e_c d :
  rank_share (set_is_batch_updating (set_req_vec g q) b)
    op rs rn cs cn buf ld s_r e_r s_c e_c d
  = rank_share g op rs rn cs cn buf ld s_r e_r s_c e_c d.
Proof.
  unfold rank_share.
  change (routed_to (set_is_batch_updating (set_req_vec g q) b)
            op rs rn cs cn buf ld s_r e_r s_c e_c d)
    with (routed_to g op rs rn cs cn buf ld s_r e_r s_c e_c d).
  apply flat_map_ext. intros p. unfold pair_calls.
  rewrite replay_calls_flag, replay_calls_frame. reflexivity.
Qed.

(** X14.  A whole epoch delivers the request: with no batch-get epoch
    open, opening the epoch, queuing one request, draining and closing
    issues, rank by rank, the calls of the immediate update of the same
    rectangle, in the visiting order of the drain instead of by ascending
    rank, and ends with the epoch closed and every request vector
    empty, whatever was pending before. *)
Theorem batch_epoch_delivers_request g t op rs rn cs cn buf ld :
  BATCH_ACCESS <> BLOCKING_ACCESS ->
  partition_ok g = true -> grid_ok g = true -> queues_ok g = true ->
  self_ok g = true ->
  in_bounds g rs rn cs cn = true ->
  route_arith_ok g rn cn ld = true ->
  cache_ok MPI_DT_SB_DIM_MAX g = true ->
  immediate_arith_ok g ld = true ->
  is_batch_getting g = 0 ->
  exists share : Z -> list MPI_Call,
    (forall d, share d = [] \/ exists e, share d = pair_calls g (d, e)) /\
    (match op with
     | MPI_REPLACE => GTM_putBlock
     | MPI_SUM => GTM_accumulateBlock
     end) rs rn cs cn buf ld (mkWorld g t)
    = Returns (tt, mkWorld g (t ++ flat_map share (seqZ 0 (comm_size g)))) /\
    (GTM_startBatchUpdate;;
     (match op with
      | MPI_REPLACE => GTM_addPutBlockRequest
      | MPI_SUM => GTM_addAccumulateBlockRequest
      end) rs rn cs cn buf ld;;
     GTM_execBatchUpdate;;
     GTM_stopBatchUpdate) (mkWorld g t)
    = Returns (tt, mkWorld
                     (set_is_batch_updating
                        (set_req_vec g (replicate (length (req_vec g)) []))
                        0)
                     (t ++ flat_map share (visit_order g))).
Proof.
  intros Hmode Hpart Hgrid Hqueues Hself Hin Har Hcache Him Hget.
  set (g0 := set_is_batch_updating
               (set_req_vec g (replicate (length (req_vec g)) [])) 1).
  destruct (batch_drain_run g0 t op rs rn cs cn buf ld Hmode Hpart Hgrid
              (queues_ok_emptied g 1 Hqueues) Hself Hin Har Hcache Him)
    as (s_r & e_r & s_c & e_c & Hr & Hc & _ & Hbatch).
  { discriminate. }
  { cbn [g0 req_vec set_req_vec set_is_batch_updating]. intros v Hv.
    now apply elem_of_replicate in Hv. }
  destruct (updateBlock_blocking_run g t op rs rn cs cn buf ld
              Hmode Hpart Hgrid Hqueues Hin Har Hcache Him)
    as (s_r' & e_r' & s_c' & e_c' & Hr' & Hc' & Hblk).
  pose proof Hpart as Hpart'. unfold partition_ok in Hpart'.
  apply andb_true_iff in Hpart' as [Hrows Hcols].
  pose proof Hin as Hin'. unfold in_bounds in Hin'.
  pose proof Hgrid as Hgrid'. unfold grid_ok in Hgrid'. unbool.
  cbn [g0 r_blocks c_blocks r_displs c_displs set_req_vec
       set_is_batch_updating] in Hr, Hc.
  destruct Hr as (Hsr0 & Hser & Her & Hbsr & Hber).
  destruct Hc as (Hsc0 & Hsec & Hec & Hbsc & Hbec).
  assert (s_r' = s_r) by (apply (block_unique _ _ _ Hrows rs); lia).
  assert (e_r' = e_r) by (apply (block_unique _ _ _ Hrows (rs + rn - 1)); lia).
  assert (s_c' = s_c) by (apply (block_unique _ _ _ Hcols cs); lia).
  assert (e_c' = e_c) by (apply (block_unique _ _ _ Hcols (cs + cn - 1)); lia).
  subst s_r' e_r' s_c' e_c'. clear Hr' Hc'.
  exists (rank_share g op rs rn cs cn buf ld s_r e_r s_c e_c).
  split; [intros d; apply rank_share_shape|]. split.
  - replace (match op with
             | MPI_REPLACE => GTM_putBlock
             | MPI_SUM => GTM_accumulateBlock
             end) with (fun rs rn cs cn buf ld =>
                          GTM_updateBlock op rs rn cs cn buf ld
                            BLOCKING_ACCESS)
      by now destruct op.
    cbv beta. rewrite Hblk.
    replace (comm_size g) with (r_blocks g * c_blocks g) by lia.
    now rewrite immediate_by_rank.
  - replace (match op with
             | MPI_REPLACE => GTM_addPutBlockRequest
             | MPI_SUM => GTM_addAccumulateBlockRequest
             end) with (fun rs rn cs cn buf ld =>
                          GTM_updateBlock op rs rn cs cn buf ld
                            BATCH_ACCESS)
      by now destruct op.
    cbv beta.
    rewrite (bind_step _ _ _ _ _ (startBatchUpdate_run g t Hqueues Hget)).
    fold g0.
    rewrite <- (bind_bind
                  (GTM_updateBlock op rs rn cs cn buf ld BATCH_ACCESS)
                  (fun _ => GTM_execBatchUpdate)
                  (fun _ => GTM_stopBatchUpdate)).
    rewrite (bind_step _ _ _ _ _ Hbatch), stopBatchUpdate_run.
    change (visit_order g0) with (visit_order g). unfold g0.
    rewrite (flat_map_ext _ _
               (rank_share_opened g _ 1 op rs rn cs cn buf ld
                  s_r e_r s_c e_c)).
    reflexivity.
Qed.

(** ** Synchronisation of a drain *)

Lemma sync_events_flat_map {A} (f : A -> list MPI_Call) (l : list A) :
  sync_events (flat_map f l) = flat_map (fun x => sync_events (f x)) l.
Proof.
  induction l as [|x l IH]; [reflexivity|].
  cbn [flat_map]. now rewrite sync_events_app, IH.
Qed.

Lemma entry_ok_events g d e :
  cache_ok MPI_DT_SB_DIM_MAX g = true ->
  entry_ok g d e = true ->
  replay_defined g d e = true /\
  sync_events (replay_calls g d e) = [Wrote d (req_op e)].
Proof.
  intros Hcache Hok. unfold entry_ok in Hok.
  apply andb_true_iff in Hok as [Hok Hua].
  apply andb_true_iff in Hok as [Hown Hins].
  destruct (updateBlockToProcess_events g [] d (req_op e) _ _ _ _
              (req_src_buf e) _ Hown Hins Hua Hcache)
    as (calls & Hrun & Hev).
  unfold replay_defined, replay_calls, replay. now rewrite Hrun.
Qed.

Lemma entries_ok_lookup g qs :
  forall d0 (k : nat) q e,
    entries_ok g d0 qs = true ->
    qs !! k = Some q -> e ∈ q ->
    entry_ok g (d0 + Z.of_nat k) e = true.
Proof.
  induction qs as [|q0 qs IH]; intros d0 k q e Hall Hk He; [discriminate|].
  cbn [entries_ok] in Hall. apply andb_true_iff in Hall as [H0 Hs].
  destruct k as [|k].
  - injection Hk as <-. rewrite Z.add_0_r.
    rewrite forallb_forall in H0. apply H0. now apply list_elem_of_In.
  - replace (d0 + Z.of_nat (S k)) with (d0 + 1 + Z.of_nat k) by lia.
    now apply (IH (d0 + 1) k q e).
Qed.

Lemma replays_events g d (q : GTM_Req_Vector) :
  (forall e, e ∈ q ->
             sync_events (replay_calls g d e) = [Wrote d (req_op e)]) ->
  sync_events (flat_map (replay_calls g d) q)
  = map (fun e => Wrote d (req_op e)) q.
Proof.
  induction q as [|e q IH]; intros H; [reflexivity|].
  cbn [flat_map map]. rewrite sync_events_app.
  rewrite (H e) by apply list_elem_of_here.
  rewrite IH; [reflexivity|].
  intros e' He'. apply H. now apply list_elem_of_further.
Qed.

(** X15.  When every queued entry is a block inside the region of the
    rank it is queued for, a drain issues exactly one remote write per
    entry, to that rank and with the entry's own operation, in the order
    of the request vector and inside the single shared lock the drain
    holds on that rank. *)
Theorem execBatchUpdate_synchronisation g t :
  is_batch_updating g <> 0 ->
  queues_ok g = true -> self_ok g = true ->
  cache_ok MPI_DT_SB_DIM_MAX g = true ->
  entries_ok g 0 (req_vec g) = true ->
  exists g' calls,
    GTM_execBatchUpdate (mkWorld g t) = Returns (tt, mkWorld g' (t ++ calls)) /\
    sync_events calls = flat_map (drain_events g) (visit_order g).
Proof.
  intros Hopen Hq Hself Hcache Hok.
  assert (Hentry : forall (k : nat) q e,
             req_vec g !! k = Some q -> e ∈ q ->
             replay_defined g (Z.of_nat k) e = true /\
             sync_events (replay_calls g (Z.of_nat k) e)
             = [Wrote (Z.of_nat k) (req_op e)]).
  { intros k q e Hk He. apply entry_ok_events; [exact Hcache|].
    apply (entries_ok_lookup g _ 0 k q e Hok Hk He). }
  eexists _, _. split.
  - apply (execBatchUpdate_run g t Hopen Hq Hself).
    apply replays_defined_intro. intros k q e Hk He.
    apply (Hentry k q e Hk He).
  - rewrite sync_events_flat_map. apply flat_map_ext_elem. intros d Hd.
    unfold self_ok in Hself. unbool.
    apply visit_order_range in Hd; [|lia].
    unfold drain_calls, drain_events.
    destruct (req_vec g !! Z.to_nat d) as [[|e q]|] eqn:E; try reflexivity.
    rewrite !sync_events_app, replays_events; [reflexivity|].
    intros e' He'. destruct (Hentry (Z.to_nat d) _ e' E He') as [_ Hev].
    now rewrite Z2Nat.id in Hev by lia.
Qed.

(** ** Well-formed request vectors *)

Lemma entries_ok_intro g qs :
  forall d0,
    (forall (k : nat) q e,
        qs !! k = Some q -> e ∈ q ->
        entry_ok g (d0 + Z.of_nat k) e = true) ->
    entries_ok g d0 qs = true.
Proof.
  induction qs as [|q0 qs IH]; intros d0 H; [reflexivity|].
  cbn [entries_ok]. apply andb_true_iff. split.
  - apply forallb_forall. intros e He. apply list_elem_of_In in He.
    specialize (H 0%nat q0 e eq_refl He). now rewrite Z.add_0_r in H.
  - apply IH. intros k q e Hk He.
    replace (d0 + 1 + Z.of_nat k) with (d0 + Z.of_nat (S k)) by lia.
    now apply (H (S k) q e).
Qed.

(** X17.  Batch requests keep the request vectors well formed: if every
    queued entry is a block of positive extent inside the region of the
    rank it is queued for, with a replay that stays within [int], then
    the same holds after a batch-mode request, and the sizes of the
    request vectors remain [int] values.  The entries a request queues
    are therefore always fit for the drain. *)
Theorem batch_request_keeps_entries_ok g t op rs rn cs cn buf ld :
  BATCH_ACCESS <> BLOCKING_ACCESS ->
  partition_ok g = true -> grid_ok g = true -> queues_ok g = true ->
  queues_room g = true ->
  in_bounds g rs rn cs cn = true ->
  route_arith_ok g rn cn ld = true ->
  immediate_arith_ok g ld = true ->
  entries_ok g 0 (req_vec g) = true ->
  exists g',
    GTM_updateBlock op rs rn cs cn buf ld BATCH_ACCESS (mkWorld g t)
    = Returns (tt, mkWorld g' t) /\
    queues_ok g' = true /\ entries_ok g' 0 (req_vec g') = true.
Proof.
  intros Hmode Hpart Hgrid Hqueues Hroom Hin Har Him Hok.
  destruct (updateBlock_batch_queues g t op rs rn cs cn buf ld
              Hmode Hpart Hgrid Hqueues Hin Har)
    as (s_r & e_r & s_c & e_c & q' & Hr & Hc & Hrun & Hlen & Hq').
  exists (set_req_vec g q'). split; [exact Hrun|]. split.
  - apply queues_ok_extended; try assumption.
    intros d old Hd Hold. destruct (Hq' d old Hd Hold) as (_ & _ & Hl).
    eexists. split; [exact Hl|apply routed_to_length].
  - cbn [req_vec set_req_vec]. apply entries_ok_intro. intros k q e Hk He.
    change (entry_ok (set_req_vec g q') (0 + Z.of_nat k) e)
      with (entry_ok g (0 + Z.of_nat k) e).
    pose proof (lookup_lt_Some _ _ _ Hk) as Hlt. rewrite Hlen in Hlt.
    destruct (lookup_lt_is_Some_2 _ _ Hlt) as [old Hold].
    destruct (Hq' (Z.of_nat k) old ltac:(lia)) as (Hcpos & Hdiv & Hl).
    { now rewrite Nat2Z.id. }
    rewrite Nat2Z.id, Hk in Hl. injection Hl as ->.
    apply elem_of_app in He as [He|He].
    + apply (entries_ok_lookup g _ 0 k old e Hok Hold He).
    + apply routed_to_elem in He as [[Hrr Hcr] ->].
      destruct (sub_block_update_ok g op rs rn cs cn buf ld s_r e_r s_c e_c
                  _ _ Hpart Hgrid Hin Har Him Hr Hc Hrr Hcr)
        as (Hown & Hins & Hua).
      assert (E : Z.of_nat k / c_blocks g * c_blocks g
                  + Z.of_nat k mod c_blocks g = Z.of_nat k).
      { pose proof (Z.div_mod (Z.of_nat k) (c_blocks g) ltac:(lia)). lia. }
      cbv zeta in Hown, Hins, Hua. rewrite E in Hown, Hins, Hua.
      unfold entry_ok. rewrite !Z.add_0_l.
      change (req_src_buf_ld (sub_block g op rs rn cs cn buf ld
                (Z.of_nat k / c_blocks g) (Z.of_nat k mod c_blocks g)))
        with ld.
      now rewrite Hown, Hins, Hua.
Qed.

(** ** Negative extents *)

Lemma find_blocks_any blocks displs dim first last w :
  table_ok blocks displs dim = true ->
  0 <= first < dim -> 0 <= last < dim ->
  exists s e,
    find_blocks blocks displs first last w = Returns ((Some s, Some e), w) /\
    0 <= s < blocks /\ 0 <= e < blocks /\
    displ displs s <= first < displ displs (s + 1) /\
    displ displs e <= last < displ displs (e + 1).
Proof.
  intros Hok Hf Hl. pose proof (table_blocks _ _ _ Hok) as Hb.
  destruct (block_exists _ _ _ Hok first Hf) as (s & Hs & Hbs).
  destruct (block_exists _ _ _ Hok last Hl) as (e & He & Hbe).
  exists s, e. split; [|repeat split; lia].
  unfold find_blocks.
  match goal with
  | |- for_loop ?n ?i ?a ?body ?w0 = _ =>
      destruct (for_loop_inv
        (fun k (se : option Z * option Z) w' =>
           w' = w /\
           (if k <=? s then fst se = None else fst se = Some s) /\
           (if k <=? e then snd se = None else snd se = Some e))
        body n i a w0) as (se & w' & Hloop & -> & Hfs & Hfe);
        [| | | |rewrite Hloop]
  end.
  - unfold INT_MIN. lia.
  - lia.
  - cbn [fst snd]. destruct (Z.leb_spec 0 s); destruct (Z.leb_spec 0 e);
      (lia || auto).
  - intros k [s0 e0] w0 Hk (-> & H1 & H2). cbn [fst snd] in *.
    eexists (_, _), w. split.
    + rewrite (bind_step _ _ _ _ _
                 (in_block_run _ _ _ Hok k first w ltac:(lia))).
      rewrite (bind_step _ _ _ _ _
                 (in_block_run _ _ _ Hok k last w ltac:(lia))).
      reflexivity.
    + split; [reflexivity|]. cbn [fst snd]. split.
      * destruct ((displ displs k <=? first) && (first <? displ displs (k + 1)))
          eqn:E.
        -- unbool.
           assert (k = s) by (apply (block_unique _ _ _ Hok first); lia).
           subst k. destruct (Z.leb_spec (s + 1) s); [lia|reflexivity].
        -- destruct (Z.leb_spec k s); destruct (Z.leb_spec (k + 1) s);
             try lia; try assumption.
           assert (k = s) by lia. subst k.
           apply andb_false_iff in E as [E|E];
             [apply Z.leb_gt in E|apply Z.ltb_ge in E]; lia.
      * destruct ((displ displs k <=? last) && (last <? displ displs (k + 1)))
          eqn:E.
        -- unbool.
           assert (k = e) by (apply (block_unique _ _ _ Hok last); lia).
           subst k. destruct (Z.leb_spec (e + 1) e); [lia|reflexivity].
        -- destruct (Z.leb_spec k e); destruct (Z.leb_spec (k + 1) e);
             try lia; try assumption.
           assert (k = e) by lia. subst k.
           apply andb_false_iff in E as [E|E];
             [apply Z.leb_gt in E|apply Z.ltb_ge in E]; lia.
  - destruct se as [s0 e0]. cbn [fst snd] in *.
    destruct (Z.leb_spec (0 + Z.of_nat (Z.to_nat blocks)) s); [lia|].
    destruct (Z.leb_spec (0 + Z.of_nat (Z.to_nat blocks)) e); [lia|].
    now subst.
Qed.

Lemma find_blocks_last_unset blocks displs dim first last w :
  table_ok blocks displs dim = true ->
  0 <= first < dim -> last < 0 ->
  exists s,
    find_blocks blocks displs first last w = Returns ((Some s, None), w).
Proof.
  intros Hok Hf Hl. pose proof (table_blocks _ _ _ Hok) as Hb.
  destruct (block_exists _ _ _ Hok first Hf) as (s & Hs & Hbs).
  exists s. unfold find_blocks.
  match goal with
  | |- for_loop ?n ?i ?a ?body ?w0 = _ =>
      destruct (for_loop_inv
        (fun k (se : option Z * option Z) w' =>
           w' = w /\
           (if k <=? s then fst se = None else fst se = Some s) /\
           snd se = None)
        body n i a w0) as (se & w' & Hloop & -> & Hfs & Hfe);
        [| | | |rewrite Hloop]
  end.
  - unfold INT_MIN. lia.
  - lia.
  - cbn [fst snd]. destruct (Z.leb_spec 0 s); (lia || auto).
  - intros k [s0 e0] w0 Hk (-> & H1 & H2). cbn [fst snd] in *.
    eexists (_, _), w. split.
    + rewrite (bind_step _ _ _ _ _
                 (in_block_run _ _ _ Hok k first w ltac:(lia))).
      rewrite (bind_step _ _ _ _ _
                 (in_block_run _ _ _ Hok k last w ltac:(lia))).
      reflexivity.
    + split; [reflexivity|]. cbn [fst snd]. split.
      * destruct ((displ displs k <=? first) && (first <? displ displs (k + 1)))
          eqn:E.
        -- unbool.
           assert (k = s) by (apply (block_unique _ _ _ Hok first); lia).
           subst k. destruct (Z.leb_spec (s + 1) s); [lia|reflexivity].
        -- destruct (Z.leb_spec k s); destruct (Z.leb_spec (k + 1) s);
             try lia; try assumption.
           assert (k = s) by lia. subst k.
           apply andb_false_iff in E as [E|E];
             [apply Z.leb_gt in E|apply Z.ltb_ge in E]; lia.
      * pose proof (displ_range _ _ _ Hok k ltac:(lia)).
        destruct (Z.leb_spec (displ displs k) last); [lia|exact H2].
  - destruct se as [s0 e0]. cbn [fst snd] in *.
    destruct (Z.leb_spec (0 + Z.of_nat (Z.to_nat blocks)) s); [lia|].
    now subst.
Qed.

(** X16.  The guard of GTM_updateBlock does not fire for a rectangle
    whose first cell is inside the matrix and whose two extents are
    negative, because their product is not zero.  When the last row the
    call computes, [row_start + row_num - 1], is negative, the call then
    reads [e_blk_r], which no round of the search loop has set.  When
    the last row and the last column it computes are inside the matrix
    and the two corner cells lie in different row blocks or in different
    column blocks, a block loop runs zero times and the call returns with
    nothing transferred and nothing queued, in either mode. *)
Theorem negative_extents_pass_the_check
    g t op rs rn cs cn buf ld access_mode :
  partition_ok g = true ->
  0 <= rs < nrows g -> 0 <= cs < ncols g ->
  rn < 0 -> cn < 0 -> in_int (rn * cn) = true ->
  outside_or_empty g rs rn cs cn = false /\
  (rs + rn - 1 < 0 ->
   GTM_updateBlock op rs rn cs cn buf ld access_mode (mkWorld g t)
   = Undefined) /\
  (0 <= rs + rn - 1 -> 0 <= cs + cn - 1 ->
   exists s_r e_r s_c e_c,
     (0 <= s_r < r_blocks g /\ 0 <= e_r < r_blocks g /\
      displ (r_displs g) s_r <= rs < displ (r_displs g) (s_r + 1) /\
      displ (r_displs g) e_r <= rs + rn - 1 < displ (r_displs g) (e_r + 1)) /\
     (0 <= s_c < c_blocks g /\ 0 <= e_c < c_blocks g /\
      displ (c_displs g) s_c <= cs < displ (c_displs g) (s_c + 1) /\
      displ (c_displs g) e_c <= cs + cn - 1 < displ (c_displs g) (e_c + 1)) /\
     (s_r <> e_r \/ s_c <> e_c ->
      GTM_updateBlock op rs rn cs cn buf ld access_mode (mkWorld g t)
      = Returns (tt, mkWorld g t))).
Proof.
  intros Hpart Hrs Hcs Hrn Hcn Harea.
  unfold partition_ok in Hpart. apply andb_true_iff in Hpart as [Hrows Hcols].
  unbool.
  pose proof (table_dim _ _ _ Hrows) as Hnrows.
  pose proof (table_dim _ _ _ Hcols) as Hncols.
  pose proof (table_blocks _ _ _ Hrows) as Hrb.
  pose proof (table_blocks _ _ _ Hcols) as Hcb.
  pose proof (table_length _ _ _ Hrows) as Hrlen.
  pose proof (table_length _ _ _ Hcols) as Hclen.
  assert (Hpos : 0 < rn * cn) by nia.
  assert (Hrn' : - INT_MAX <= rn) by (unfold INT_MAX in *; nia).
  assert (Hcn' : - INT_MAX <= cn) by (unfold INT_MAX in *; nia).
  split; [|split].
  - unfold outside_or_empty.
    destruct (Z.ltb_spec rs 0); [lia|]. destruct (Z.ltb_spec cs 0); [lia|].
    destruct (Z.gtb_spec (rs + rn) (nrows g)); [lia|].
    destruct (Z.gtb_spec (cs + cn) (ncols g)); [lia|].
    destruct (Z.eqb_spec (rn * cn) 0); [lia|reflexivity].
  - intros Hlast.
    destruct (find_blocks_last_unset _ _ _ rs (rs + rn - 1) (mkWorld g t)
                Hrows) as (s_r & Hfr); try lia.
    unfold GTM_updateBlock. step.
    destruct (Z.ltb_spec rs 0); [lia|]. destruct (Z.ltb_spec cs 0); [lia|].
    cbn [orb]. step.
    destruct (Z.gtb_spec (rs + rn) (nrows g)); [lia|]. step.
    destruct (Z.gtb_spec (cs + cn) (ncols g)); [lia|]. step.
    destruct (Z.eqb_spec (rn * cn) 0); [lia|]. do 2 step.
    rewrite (bind_step _ _ _ _ _ Hfr).
    destruct (reads_only_find_blocks (c_blocks g) (c_displs g) cs
                (cs + cn - 1) (mkWorld g t)) as [E|[found_c E]].
    + now rewrite (bind_undefined _ _ _ E).
    + rewrite (bind_step _ _ _ _ _ E). cbn [fst snd read_var]. step.
      reflexivity.
  - intros Hr0 Hc0.
    destruct (find_blocks_any _ _ _ rs (rs + rn - 1) (mkWorld g t) Hrows)
      as (s_r & e_r & Hfr & Hsr & Her & Hbs & Hbe); try lia.
    destruct (find_blocks_any _ _ _ cs (cs + cn - 1) (mkWorld g t) Hcols)
      as (s_c & e_c & Hfc & Hsc & Hec & Hbcs & Hbce); try lia.
    exists s_r, e_r, s_c, e_c. split; [lia|]. split; [lia|].
    intros Hdiff.
    assert (e_r <= s_r)
      by (apply (block_order _ _ _ Hrows (rs + rn - 1) rs); lia).
    assert (e_c <= s_c)
      by (apply (block_order _ _ _ Hcols (cs + cn - 1) cs); lia).
    unfold GTM_updateBlock. step.
    destruct (Z.ltb_spec rs 0); [lia|]. destruct (Z.ltb_spec cs 0); [lia|].
    cbn [orb]. step.
    destruct (Z.gtb_spec (rs + rn) (nrows g)); [lia|]. step.
    destruct (Z.gtb_spec (cs + cn) (ncols g)); [lia|]. step.
    destruct (Z.eqb_spec (rn * cn) 0); [lia|]. do 2 step.
    rewrite (bind_step _ _ _ _ _ Hfr), (bind_step _ _ _ _ _ Hfc).
    cbn [fst snd read_var]. do 2 step.
    destruct (Z.eq_dec s_r e_r) as [Er|Er].
    2:{ replace (Z.to_nat (e_r - s_r + 1)) with 0%nat by lia. reflexivity. }
    subst e_r. replace (Z.to_nat (s_r - s_r + 1)) with 1%nat by lia.
    assert (Ec : e_c < s_c) by (destruct Hdiff; [contradiction|lia]).
    pose proof (displ_range _ _ _ Hrows (s_r + 1) ltac:(lia)) as Hd1.
    match goal with
    | |- for_loop _ _ _ ?body _ = _ => set (outer := body)
    end.
    assert (Houter : outer s_r tt (mkWorld g t)
                     = Returns (tt, mkWorld g t)).
    { unfold outer. cbv beta. do 5 step. cbn [read_var]. do 2 step.
      replace (Z.to_nat (e_c - s_c + 1)) with 0%nat by lia. reflexivity. }
    cbn [for_loop]. rewrite (bind_step _ _ _ _ _ Houter). step.
    reflexivity.
Qed.

End GTMatrix_Update.

(** * The properties on the matrix of test_Symmetrize.c

    The constants of GTMatrix_Typedef.h are taken as 16 for the
    cached-shape ceiling, 0 for blocking access and 1 for batch access. *)

Lemma updateBlock_tiles_rectangle_witness :
  partition_ok idle_mat = true /\ in_bounds idle_mat 0 2 1 3 = true /\
  exists pairs : list (Z * Req_Entry),
    GTM_updateBlock 16 0 1 MPI_SUM 0 2 1 3 1000 10 0 (mkWorld idle_mat [])
    = Returns (tt, mkWorld idle_mat
                     ([] ++ flat_map (pair_calls 16 idle_mat) pairs)) /\
    NoDup pairs.*1 /\
    forall i j,
      0 <= i < 0 + 2 -> 1 <= j < 1 + 3 ->
      exists d e, (d, e) ∈ pairs /\ covers e i j.
Proof.
  split; [reflexivity|]. split; [reflexivity|].
  destruct (updateBlock_tiles_rectangle 16 0 1 idle_mat [] MPI_SUM
              0 2 1 3 1000 10)
    as (pairs & _ & Hblk & Hnodup & _ & Hcover);
    [discriminate|reflexivity..|].
  exists pairs. split; [apply Hblk; reflexivity|]. split; [exact Hnodup|].
  intros i j Hi Hj. destruct (Hcover i j Hi Hj) as (d & e & Hin & Hc & _).
  exists d, e. split; [exact Hin|exact Hc].
Defined.

Lemma execBatchUpdate_replays_in_order_witness :
  is_batch_updating open_mat <> 0 /\
  replays_defined 16 open_mat 0 (req_vec open_mat) = true /\
  exists g',
    GTM_execBatchUpdate 16 (mkWorld open_mat [])
    = Returns (tt, mkWorld g'
                     ([] ++ flat_map (drain_calls 16 open_mat)
                              (visit_order open_mat))).
Proof.
  split; [discriminate|]. split; [reflexivity|].
  apply (proj2 (execBatchUpdate_replays_in_order 16 open_mat []));
    [discriminate|reflexivity..].
Defined.

Lemma updateBlockToProcess_descriptor_selection_witness :
  owner_ok idle_mat 5 = true /\ inside_region idle_mat 5 1 2 2 2 = true /\
  exists calls,
    GTM_updateBlockToProcess 16 5 MPI_REPLACE 1 2 2 2 2000 2
      (mkWorld idle_mat [])
    = Returns (tt, mkWorld idle_mat ([] ++ calls)) /\
    length (filter is_accumulate calls) = 1%nat.
Proof.
  split; [reflexivity|]. split; [reflexivity|].
  destruct (updateBlockToProcess_descriptor_selection 16 idle_mat []
              5 MPI_REPLACE 1 2 2 2 2000 2)
    as (calls & Hrun & Hone & _); [reflexivity..|].
  exists calls. split; [exact Hrun|exact Hone].
Defined.

Lemma startBatchUpdate_gated_by_batch_get_witness :
  queues_ok open_mat = true /\
  exists g',
    GTM_startBatchUpdate (mkWorld open_mat []) = Returns (tt, mkWorld g' []) /\
    is_batch_updating g' = 1 /\
    forall v, v ∈ req_vec g' -> v = [].
Proof.
  split; [reflexivity|].
  destruct (proj2 (startBatchUpdate_gated_by_batch_get open_mat []
                     eq_refl) eq_refl)
    as (g' & Hrun & Hflag & _ & Hempty & _).
  exists g'. split; [exact Hrun|]. split; [exact Hflag|exact Hempty].
Defined.

(** C4 as stated fails in both halves.  With the batch-update epoch
    already open and requests queued, GTM_startBatchUpdate is not a no-op:
    it empties the request vectors.  With the batch-update epoch closed
    and a batch-get epoch open, it neither resets the request vectors nor
    opens the epoch. *)
Lemma startBatchUpdate_open_not_noop :
  (is_batch_updating open_mat = 1 /\
   GTM_startBatchUpdate (mkWorld open_mat [])
   = Returns (tt, mkWorld (set_req_vec open_mat (no_requests 16)) []) /\
   req_vec open_mat <> no_requests 16) /\
  (is_batch_updating (test_mat 5 sample_requests 0 1) = 0 /\
   GTM_startBatchUpdate (mkWorld (test_mat 5 sample_requests 0 1) [])
   = Returns (tt, mkWorld (test_mat 5 sample_requests 0 1) [])).
Proof.
  split.
  - split; [reflexivity|]. split; [reflexivity|]. discriminate.
  - split; reflexivity.
Qed.

Lemma batch_request_not_gated_witness :
  partition_ok idle_mat = true /\ in_bounds idle_mat 0 2 1 3 = true /\
  exists q',
    forall b,
      GTM_addAccumulateBlockRequest 16 0 1 0 2 1 3 1000 10
        (mkWorld (set_is_batch_updating idle_mat b) [])
      = Returns (tt, mkWorld (set_is_batch_updating
                                (set_req_vec idle_mat q') b) []).
Proof.
  split; [reflexivity|]. split; [reflexivity|].
  destruct (batch_request_not_gated 16 0 1 idle_mat [] MPI_SUM
              0 2 1 3 1000 10)
    as (q' & Hrun & _); [discriminate|reflexivity..|].
  exists q'. exact Hrun.
Defined.



Lemma updateBlockToProcess_local_offset_witness :
  owner_ok idle_mat 5 = true /\ inside_region idle_mat 5 2 2 3 2 = true /\
  exists calls,
    GTM_updateBlockToProcess 16 5 MPI_SUM 2 2 3 2 2000 10
      (mkWorld idle_mat [])
    = Returns (tt, mkWorld idle_mat ([] ++ calls)) /\
    remote_writes calls = [(5, (2 - 1) * 3 + (3 - 2))].
Proof.
  split; [reflexivity|]. split; [reflexivity|].
  apply (updateBlockToProcess_local_offset 16 idle_mat [] 5 MPI_SUM
           2 2 3 2 2000 10); reflexivity.
Defined.

Lemma updateBlock_assertion_holds_witness :
  partition_ok idle_mat = true /\ in_bounds idle_mat 0 10 0 10 = true /\
  GTM_updateBlock 16 0 1 MPI_REPLACE 0 10 0 10 1000 10 0
    (mkWorld idle_mat [])
  <> AssertFailed.
Proof.
  split; [reflexivity|]. split; [reflexivity|].
  apply (updateBlock_assertion_holds 16 0 1 idle_mat [] MPI_REPLACE
           0 10 0 10 1000 10 0); reflexivity.
Defined.

Lemma execBatchUpdate_resets_queues_only_witness :
  is_batch_updating open_mat <> 0 /\
  exists g' calls,
    GTM_execBatchUpdate 16 (mkWorld open_mat [])
    = Returns (tt, mkWorld g' ([] ++ calls)) /\
    (forall v, v ∈ req_vec g' -> v = []) /\
    is_batch_updating g' = is_batch_updating open_mat.
Proof.
  split; [discriminate|].
  destruct (proj2 (execBatchUpdate_resets_queues_only 16 open_mat []))
    as (g' & calls & Hrun & _ & Hempty & Hflag & _);
    [discriminate|reflexivity..|].
  exists g', calls. split; [exact Hrun|]. split; [exact Hempty|exact Hflag].
Defined.

Lemma startBatchUpdate_refused_while_getting_witness :
  is_batch_getting (test_mat 5 sample_requests 0 1) <> 0 /\
  GTM_startBatchUpdate (mkWorld (test_mat 5 sample_requests 0 1) [])
  = Returns (tt, mkWorld (test_mat 5 sample_requests 0 1) []).
Proof.
  split; [discriminate|].
  apply (startBatchUpdate_refused_while_getting
           (test_mat 5 sample_requests 0 1) []).
  discriminate.
Defined.

Lemma startBatchUpdate_drops_pending_witness :
  queues_ok open_mat = true /\ self_ok open_mat = true /\
  is_batch_getting open_mat = 0 /\
  (GTM_startBatchUpdate;; GTM_execBatchUpdate 16) (mkWorld open_mat [])
  = Returns (tt, mkWorld (set_req_vec open_mat (no_requests 16)) []).
Proof.
  split; [reflexivity|]. split; [reflexivity|]. split; [reflexivity|].
  apply (startBatchUpdate_drops_pending 16 open_mat []); reflexivity.
Defined.

Lemma execBatchUpdate_idempotent_witness :
  queues_ok open_mat = true /\ self_ok open_mat = true /\
  replays_defined 16 open_mat 0 (req_vec open_mat) = true /\
  (GTM_execBatchUpdate 16;; GTM_execBatchUpdate 16) (mkWorld open_mat [])
  = GTM_execBatchUpdate 16 (mkWorld open_mat []).
Proof.
  split; [reflexivity|]. split; [reflexivity|]. split; [reflexivity|].
  apply (execBatchUpdate_idempotent 16 open_mat []); reflexivity.
Defined.

Lemma execBatchUpdate_lock_discipline_witness :
  is_batch_updating open_mat <> 0 /\ queues_ok open_mat = true /\
  self_ok open_mat = true /\
  replays_defined 16 open_mat 0 (req_vec open_mat) = true /\
  exists g' calls,
    GTM_execBatchUpdate 16 (mkWorld open_mat [])
    = Returns (tt, mkWorld g' ([] ++ calls)) /\
    filter is_lock_call calls
    = [Win_lock MPI_LOCK_SHARED 5 0 0; Win_unlock 5 0;
       Win_lock MPI_LOCK_SHARED 0 0 0; Win_unlock 0 0;
       Win_lock MPI_LOCK_SHARED 1 0 0; Win_unlock 1 0;
       Win_lock MPI_LOCK_SHARED 4 0 0; Win_unlock 4 0].
Proof.
  split; [discriminate|]. split; [reflexivity|]. split; [reflexivity|].
  split; [reflexivity|].
  apply (execBatchUpdate_lock_discipline 16 open_mat []);
    [discriminate|reflexivity..].
Defined.

Lemma updateBlock_modes_are_separate_witness :
  1 <> 0 /\
  (forall w',
      GTM_updateBlock 16 0 1 MPI_SUM 0 2 1 3 1000 10 0 (mkWorld open_mat [])
      = Returns (tt, w') ->
      gt_mat w' = open_mat) /\
  (forall w',
      GTM_updateBlock 16 0 1 MPI_SUM 0 2 1 3 1000 10 1 (mkWorld open_mat [])
      = Returns (tt, w') ->
      issued w' = []).
Proof.
  split; [discriminate|].
  destruct (updateBlock_modes_are_separate 16 0 1 MPI_SUM 0 2 1 3 1000 10
              (mkWorld open_mat [])) as [Himm Hbatch]; [discriminate|].
  split; [exact Himm|]. intros w' Hrun. exact (proj1 (Hbatch w' Hrun)).
Defined.

Lemma immediate_update_inside_one_region_witness :
  partition_ok idle_mat = true /\ owner_ok idle_mat 5 = true /\
  inside_region idle_mat 5 2 2 3 2 = true /\
  GTM_accumulateBlock 16 0 1 2 2 3 2 2000 10 (mkWorld idle_mat [])
  = (mpi (Win_lock MPI_LOCK_SHARED 5 0 0);;
     GTM_updateBlockToProcess 16 5 MPI_SUM 2 2 3 2 2000 10;;
     mpi (Win_unlock 5 0)) (mkWorld idle_mat []).
Proof.
  split; [reflexivity|]. split; [reflexivity|]. split; [reflexivity|].
  apply (immediate_update_inside_one_region 16 0 1 idle_mat [] MPI_SUM 5
           2 2 3 2 2000 10); [discriminate|reflexivity..].
Defined.

Lemma queued_entries_address_source_witness :
  partition_ok idle_mat = true /\ in_bounds idle_mat 0 2 1 3 = true /\
  route_arith_ok idle_mat 2 3 10 = true /\
  exists q',
    GTM_updateBlock 16 0 1 MPI_SUM 0 2 1 3 1000 10 1 (mkWorld idle_mat [])
    = Returns (tt, mkWorld (set_req_vec idle_mat q') []) /\
    exists new,
      q' !! Z.to_nat 5 = Some ([] ++ new) /\
      forall e, e ∈ new ->
        req_src_buf e
        = 1000 + ((req_row_start e - 0) * 10 + (req_col_start e - 1)) * 8.
Proof.
  split; [reflexivity|]. split; [reflexivity|]. split; [reflexivity|].
  destruct (queued_entries_address_source 16 0 1 idle_mat [] MPI_SUM
              0 2 1 3 1000 10) as (q' & Hrun & Hq');
    [discriminate|reflexivity..|].
  exists q'. split; [exact Hrun|].
  destruct (Hq' 5 [] ltac:(lia) eq_refl) as (new & Hlook & _ & Hnew).
  exists new. split; [exact Hlook|].
  intros e He. exact (proj2 (proj2 (Hnew e He))).
Defined.

Lemma whole_matrix_request_splits_by_region_witness :
  partition_ok idle_mat = true /\ 0 < nrows idle_mat /\
  route_arith_ok idle_mat 10 10 10 = true /\
  exists q',
    GTM_updateBlock 16 0 1 MPI_REPLACE 0 10 0 10 1000 10 1
      (mkWorld idle_mat [])
    = Returns (tt, mkWorld (set_req_vec idle_mat q') []) /\
    exists e,
      q' !! Z.to_nat 6 = Some ([] ++ [e]) /\
      req_row_start e = 1 /\ req_row_start e + req_row_num e = 4 /\
      req_col_start e = 5 /\ req_col_start e + req_col_num e = 7.
Proof.
  split; [reflexivity|]. split; [reflexivity|]. split; [reflexivity|].
  destruct (whole_matrix_request_splits_by_region 16 0 1 idle_mat []
              MPI_REPLACE 1000 10) as (q' & Hrun & Hq');
    [discriminate|reflexivity..|].
  exists q'. split; [exact Hrun|]. exact (Hq' 6 [] ltac:(lia) eq_refl).
Defined.

Lemma batch_requests_queue_in_call_order_witness :
  queues_room idle_mat = true /\ in_bounds idle_mat 0 2 1 3 = true /\
  in_bounds idle_mat 1 2 2 2 = true /\
  exists q12,
    (GTM_updateBlock 16 0 1 MPI_SUM 0 2 1 3 1000 10 1;;
     GTM_updateBlock 16 0 1 MPI_REPLACE 1 2 2 2 2000 2 1)
      (mkWorld idle_mat [])
    = Returns (tt, mkWorld (set_req_vec idle_mat q12) []) /\
    exists new1 new2, q12 !! Z.to_nat 5 = Some ([] ++ new1 ++ new2).
Proof.
  split; [reflexivity|]. split; [reflexivity|]. split; [reflexivity|].
  destruct (batch_requests_queue_in_call_order 16 0 1 idle_mat []
              MPI_SUM 0 2 1 3 1000 10 MPI_REPLACE 1 2 2 2 2000 2)
    as (q1 & q2 & q12 & _ & _ & Hrun & Hq); [discriminate|reflexivity..|].
  exists q12. split; [exact Hrun|].
  destruct (Hq 5 [] ltac:(lia) eq_refl) as (new1 & new2 & _ & _ & H12).
  now exists new1, new2.
Defined.

Lemma batch_drain_matches_immediate_witness :
  partition_ok (test_mat 5 (no_requests 16) 1 0) = true /\
  in_bounds (test_mat 5 (no_requests 16) 1 0) 0 2 1 3 = true /\
  is_batch_updating (test_mat 5 (no_requests 16) 1 0) <> 0 /\
  queues_empty (test_mat 5 (no_requests 16) 1 0) = true /\
  exists share : Z -> list MPI_Call,
    GTM_updateBlock 16 0 1 MPI_SUM 0 2 1 3 1000 10 0
      (mkWorld (test_mat 5 (no_requests 16) 1 0) [])
    = Returns (tt, mkWorld (test_mat 5 (no_requests 16) 1 0)
                     ([] ++ flat_map share (seqZ 0 16))) /\
    (GTM_updateBlock 16 0 1 MPI_SUM 0 2 1 3 1000 10 1;;
     GTM_execBatchUpdate 16)
      (mkWorld (test_mat 5 (no_requests 16) 1 0) [])
    = Returns (tt, mkWorld (test_mat 5 (no_requests 16) 1 0)
                     ([] ++ flat_map share
                              (visit_order
                                 (test_mat 5 (no_requests 16) 1 0)))).
Proof.
  split; [reflexivity|]. split; [reflexivity|]. split; [discriminate|].
  split; [reflexivity|].
  destruct (batch_drain_matches_immediate 16 0 1
              (test_mat 5 (no_requests 16) 1 0) [] MPI_SUM 0 2 1 3 1000 10)
    as (share & _ & Himm & Hbatch);
    [discriminate|reflexivity..|discriminate|reflexivity|].
  exists share. split; [exact Himm|exact Hbatch].
Defined.

Lemma updateBlock_unknown_mode_ignored_witness :
  2 <> 0 /\ 2 <> 1 /\ in_bounds idle_mat 0 2 1 3 = true /\
  GTM_updateBlock 16 0 1 MPI_SUM 0 2 1 3 1000 10 2 (mkWorld idle_mat [])
  = Returns (tt, mkWorld idle_mat []).
Proof.
  split; [discriminate|]. split; [discriminate|]. split; [reflexivity|].
  apply (updateBlock_unknown_mode_ignored 16 0 1 idle_mat [] MPI_SUM
           0 2 1 3 1000 10 2); [discriminate|discriminate|reflexivity..].
Defined.

Lemma immediate_update_synchronisation_witness :
  partition_ok idle_mat = true /\ in_bounds idle_mat 0 2 1 3 = true /\
  exists calls ranks,
    GTM_putBlock 16 0 1 0 2 1 3 1000 10 (mkWorld idle_mat [])
    = Returns (tt, mkWorld idle_mat ([] ++ calls)) /\
    NoDup ranks /\
    sync_events calls
    = flat_map (fun d => [Locked MPI_LOCK_SHARED d; Wrote d MPI_REPLACE;
                          Unlocked d]) ranks.
Proof.
  split; [reflexivity|]. split; [reflexivity|].
  apply (immediate_update_synchronisation 16 0 1 idle_mat [] MPI_REPLACE
           0 2 1 3 1000 10); [discriminate|reflexivity..].
Defined.

Lemma batch_epoch_delivers_request_witness :
  queues_ok open_mat = true /\ in_bounds open_mat 0 10 0 10 = true /\
  is_batch_getting open_mat = 0 /\
  exists share : Z -> list MPI_Call,
    GTM_accumulateBlock 16 0 1 0 10 0 10 1000 10 (mkWorld open_mat [])
    = Returns (tt, mkWorld open_mat ([] ++ flat_map share (seqZ 0 16))) /\
    (GTM_startBatchUpdate;;
     GTM_addAccumulateBlockRequest 16 0 1 0 10 0 10 1000 10;;
     GTM_execBatchUpdate 16;;
     GTM_stopBatchUpdate) (mkWorld open_mat [])
    = Returns (tt, mkWorld (test_mat 5 (no_requests 16) 0 0)
                     ([] ++ flat_map share (visit_order open_mat))).
Proof.
  split; [reflexivity|]. split; [reflexivity|]. split; [reflexivity|].
  destruct (batch_epoch_delivers_request 16 0 1 open_mat [] MPI_SUM
              0 10 0 10 1000 10) as (share & _ & Himm & Hepoch);
    [discriminate|reflexivity..|].
  exists share. split; [exact Himm|exact Hepoch].
Defined.

Lemma execBatchUpdate_synchronisation_witness :
  is_batch_updating open_mat <> 0 /\
  entries_ok open_mat 0 (req_vec open_mat) = true /\
  exists g' calls,
    GTM_execBatchUpdate 16 (mkWorld open_mat [])
    = Returns (tt, mkWorld g' ([] ++ calls)) /\
    sync_events calls
    = [Locked MPI_LOCK_SHARED 5; Wrote 5 MPI_SUM; Unlocked 5;
       Locked MPI_LOCK_SHARED 0; Wrote 0 MPI_SUM; Unlocked 0;
       Locked MPI_LOCK_SHARED 1; Wrote 1 MPI_SUM; Unlocked 1;
       Locked MPI_LOCK_SHARED 4; Wrote 4 MPI_SUM; Unlocked 4].
Proof.
  split; [discriminate|]. split; [reflexivity|].
  apply (execBatchUpdate_synchronisation 16 open_mat []);
    [discriminate|reflexivity..].
Defined.

Lemma negative_extents_pass_the_check_witness :
  partition_ok idle_mat = true /\ 0 <= 5 < nrows idle_mat /\ -10 < 0 /\
  outside_or_empty idle_mat 5 (-10) 5 (-10) = false /\
  5 + -10 - 1 < 0 /\
  GTM_updateBlock 16 0 1 MPI_SUM 5 (-10) 5 (-10) 1000 10 1
    (mkWorld idle_mat [])
  = Undefined /\
  outside_or_empty idle_mat 4 (-2) 3 (-1) = false /\
  GTM_updateBlock 16 0 1 MPI_SUM 4 (-2) 3 (-1) 1000 10 1
    (mkWorld idle_mat [])
  = Returns (tt, mkWorld idle_mat []).
Proof.
  split; [reflexivity|]. split; [cbn; lia|]. split; [lia|].
  destruct (negative_extents_pass_the_check 16 0 1 idle_mat [] MPI_SUM
              5 (-10) 5 (-10) 1000 10 1)
    as (Hcheck & Hundef & _);
    [reflexivity|cbn; lia|cbn; lia|lia|lia|reflexivity|].
  split; [exact Hcheck|]. split; [lia|]. split; [apply Hundef; lia|].
  split; reflexivity.
Defined.

Lemma batch_request_keeps_entries_ok_witness :
  queues_room open_mat = true /\ in_bounds open_mat 0 2 1 3 = true /\
  entries_ok open_mat 0 (req_vec open_mat) = true /\
  exists g',
    GTM_updateBlock 16 0 1 MPI_REPLACE 0 2 1 3 2000 3 1 (mkWorld open_mat [])
    = Returns (tt, mkWorld g' []) /\
    entries_ok g' 0 (req_vec g') = true.
Proof.
  split; [reflexivity|]. split; [reflexivity|]. split; [reflexivity|].
  destruct (batch_request_keeps_entries_ok 16 0 1 open_mat [] MPI_REPLACE
              0 2 1 3 2000 3) as (g' & Hrun & _ & Hok);
    [discriminate|reflexivity..|].
  exists g'. split; [exact Hrun|exact Hok].
Defined.
